(** * PocketFence filter performance test: a shallow embedding

    The development follows [Filter/test-performance-python.py].  The
    class [FilterPerformanceTest] becomes a record of its attributes, the
    outside world (clock, file system, filter process, HTTP answers) an
    oracle record [Env] consulted once per interaction, and every method
    a computation in a small state-and-exception monad.

    Numbers: Python floats are modelled as exact rationals [Q], Python
    ints as [Z].  Clock readings are rationals in seconds.  Loops whose
    exit depends on the clock take a bound on their iterations; running
    into the bound is the separate outcome [OutOfFuel]. *)

From Stdlib Require Import ZArith QArith Qabs Lqa String List Bool Lia.
From stdpp Require Import gmap strings.

Open Scope Z_scope.

(** ** Exceptions and results *)

(** The exception classes that the modelled operations raise.  All but
    [KeyboardInterrupt] derive from Python's [Exception]. *)
Inductive exn : Type :=
| FileNotFoundError   (* start_filter: executable not found *)
| RuntimeError        (* start_filter: port never answered *)
| OSError             (* subprocess.Popen / open() failed *)
| ValueError          (* ThreadPoolExecutor(max_workers <= 0), bad format spec *)
| ZeroDivisionError   (* x / 0 *)
| AccessDenied        (* psutil error other than NoSuchProcess *)
| ImportError
| KeyboardInterrupt.  (* SIGINT delivered during a blocking call *)

(** [isinstance(e, Exception)] *)
Definition is_Exception (e : exn) : bool :=
  match e with
  | KeyboardInterrupt => false
  | _ => true
  end.

Inductive result (A : Type) : Type :=
| Ok (a : A)
| Raise (e : exn)
| OutOfFuel.
Arguments Ok {A} a.
Arguments Raise {A} e.
Arguments OutOfFuel {A}.

(** ** Score calculator ([calculate_performance_grade], lines 413-450) *)

Inductive grade : Type := GradeAplus | GradeA | GradeB | GradeC | GradeD | GradeF.

Definition Qlt_bool (x y : Q) : bool :=
  match (x ?= y)%Q with Lt => true | _ => false end.

(** [key in d and d[key] < bound] *)
Definition present_below (key : string) (bound : Q) (d : gmap string Q) : bool :=
  match d !! key with
  | Some v => Qlt_bool v bound
  | None => false
  end.

(** [key in d and d[key] > bound] *)
Definition present_above (key : string) (bound : Q) (d : gmap string Q) : bool :=
  match d !! key with
  | Some v => Qlt_bool bound v
  | None => false
  end.

Definition grade_of_score (score : Z) : grade :=
  if 90 <=? score then GradeAplus
  else if 80 <=? score then GradeA
  else if 70 <=? score then GradeB
  else if 60 <=? score then GradeC
  else if 50 <=? score then GradeD
  else GradeF.

Definition calculate_performance_grade (test_results : gmap string Q) : Z * grade :=
  let score := 0 in
  let score := if present_below "avg_startup_time" 2000 test_results
               then score + 15 else score in
  let score := if present_below "avg_memory_mb" 50 test_results
               then score + 20 else score in
  let score := if present_above "requests_per_second" 10 test_results
               then score + 20 else score in
  let score := if present_above "filter_accuracy" 80 test_results
               then score + 25 else score in
  let score := if present_above "concurrent_success_rate" 90 test_results
               then score + 20 else score in
  (score, grade_of_score score).

(** The five scored metrics with their direction, threshold and weight,
    as the specification tabulates them. *)
Inductive metric : Type :=
| MStartup | MMemory | MThroughput | MAccuracy | MConcurrency.

Definition metric_key (m : metric) : string :=
  match m with
  | MStartup => "avg_startup_time"
  | MMemory => "avg_memory_mb"
  | MThroughput => "requests_per_second"
  | MAccuracy => "filter_accuracy"
  | MConcurrency => "concurrent_success_rate"
  end.

Definition metric_points (m : metric) : Z :=
  match m with
  | MStartup => 15 | MMemory => 20 | MThroughput => 20
  | MAccuracy => 25 | MConcurrency => 20
  end.

(** [passes m v]: value [v] meets the threshold of metric [m]. *)
Definition passes (m : metric) (v : Q) : Prop :=
  match m with
  | MStartup => (v < 2000)%Q
  | MMemory => (v < 50)%Q
  | MThroughput => (10 < v)%Q
  | MAccuracy => (80 < v)%Q
  | MConcurrency => (90 < v)%Q
  end.

Definition passesb (m : metric) (v : Q) : bool :=
  match m with
  | MStartup => Qlt_bool v 2000
  | MMemory => Qlt_bool v 50
  | MThroughput => Qlt_bool 10 v
  | MAccuracy => Qlt_bool 80 v
  | MConcurrency => Qlt_bool 90 v
  end.

(** Contribution of one metric, following the specification's table. *)
Definition contribution (m : metric) (d : gmap string Q) : Z :=
  match d !! metric_key m with
  | Some v => if passesb m v then metric_points m else 0
  | None => 0
  end.

Definition spec_score (d : gmap string Q) : Z :=
  contribution MStartup d + contribution MMemory d + contribution MThroughput d
  + contribution MAccuracy d + contribution MConcurrency d.

Definition spec_grade (score : Z) : grade :=
  if Z_le_dec 90 score then GradeAplus
  else if Z_le_dec 80 score then GradeA
  else if Z_le_dec 70 score then GradeB
  else if Z_le_dec 60 score then GradeC
  else if Z_le_dec 50 score then GradeD
  else GradeF.

(** ** Blocked-response predicate (lines 285 and 337) *)

(** Python's [needle in haystack] on [str]. *)
Fixpoint str_contains (needle haystack : string) : bool :=
  if String.prefix needle haystack then true
  else match haystack with
       | EmptyString => false
       | String _ rest => str_contains needle rest
       end.

(** ["PocketFence" in response.text and "Content Blocked" in response.text] *)
Definition is_blocked (text : string) : bool :=
  str_contains "PocketFence" text && str_contains "Content Blocked" text.

(** [needle] occurs somewhere inside [haystack]. *)
Definition Substring (needle haystack : string) : Prop :=
  exists before after : string,
    haystack = String.append before (String.append needle after).

(** ** Fixtures (lines 36-57) *)

Definition test_urls : list string :=
  [ "http://example.com"; "http://educational.site.com";
    "http://badsite-violence.com"; "http://adult-content.com";
    "http://malware.site.com"; "http://safe-learning.edu";
    "http://gambling-casino.com"; "http://social-media.com" ]%string.

(** (URL, should_block, description) *)
Definition test_cases : list (string * bool * string) :=
  [ ("http://education.com", false, "Educational site");
    ("http://violence-fighting.com", true, "Violence content");
    ("http://adult-explicit.com", true, "Adult content");
    ("http://malware-virus.com", true, "Malware site");
    ("http://school-learning.edu", false, "School site");
    ("http://gambling-casino.com", true, "Gambling site");
    ("http://safe-tutorial.com", false, "Tutorial site");
    ("http://cyberbullying-hate.com", true, "Cyberbullying content") ]%string.

(** ** Log lines, process events, the world *)

(** One constructor per [log_test] call site; timestamps and colours are
    dropped, the formatted values are kept. *)
Inductive log_msg : Type :=
| MsgRunStart
| MsgRunParams (duration connections : Z)
| MsgCheckingDeps
| MsgDepsOk
| MsgPsutilMissing
| MsgMissingDep
| MsgStartupHeader
| MsgExeNotFound
| MsgStartupTest (i : Z)
| MsgStartupTime (ms : Q)
| MsgStartupTimeout
| MsgStartupAvg (avg : Q)
| MsgStartupMinMax (lo hi : Q)
| MsgMemoryHeader
| MsgMemReading (i : Z) (mb : Q)
| MsgMemNoPsutil (i : Z)
| MsgProcessEnded
| MsgMemAvg (avg : Q)
| MsgMemMinMax (lo hi : Q)
| MsgPerfHeader
| MsgPerfSending (duration : Z)
| MsgPerfResults
| MsgPerfRate (rps : Q)
| MsgPerfTotal (n : Z)
| MsgPerfBlocked (n : Z) (rate : Q)
| MsgPerfAvgResponse (ms : Q)
| MsgAccHeader
| MsgCorrectlyBlocked (description : string)
| MsgCorrectlyAllowed (description : string)
| MsgShouldBlockButAllowed (description : string)
| MsgShouldAllowButBlocked (description : string)
| MsgRequestFailed (description : string)
| MsgAccuracy (acc : Q) (correct total : Z)
| MsgConcHeader
| MsgConcStarting (n : Z)
| MsgConcResults
| MsgConcSuccessful (ok n : Z) (rate : Q)
| MsgConcDuration (secs : Q)
| MsgReportHeader
| MsgReportSaved (path : string)
| MsgTestFailed (e : exn).

(** A [subprocess.Popen] object. *)
Definition handle : Type := nat.

Inductive event : Type :=
| EvPopen (h : handle)
| EvTerminate (h : handle)
| EvKill (h : handle).

(** Answer of [psutil.Process(pid).memory_info()]. *)
Inductive mem_sample : Type :=
| MemRss (bytes : Z)
| MemNoSuchProcess
| MemAccessDenied.

(** The environment answers the [i]-th interaction of the run. *)
Record Env : Type := mkEnv {
  cost : nat -> Q;                  (* wall-clock seconds the interaction takes *)
  exe_found : nat -> option string; (* find_filter_executable *)
  popen_ok : nat -> bool;           (* Popen succeeds, else OSError *)
  ready_resp : nat -> bool;         (* GET http://127.0.0.1:8888 answered *)
  proxy_resp : nat -> string -> option string;
                                    (* proxied GET: body, or RequestException *)
  wait_exits : nat -> bool;         (* wait(timeout=5) returns, else TimeoutExpired *)
  mem_info : nat -> mem_sample;
  pool_resp : nat -> nat -> bool;   (* make_request() of worker j *)
  write_ok : nat -> bool;           (* report file written, else OSError *)
  import_found : string -> bool;    (* the import system finds the module *)
  interrupted : nat -> bool         (* SIGINT arrives during the interaction *)
}.

(** Module globals and everything outside the object. *)
Record World : Type := mkWorld {
  HAS_PSUTIL : bool;
  sys_modules : list string;
  now : Q;
  step : nat;
  next_handle : handle;
  trace : list event
}.

(** The attributes of a [FilterPerformanceTest], and the world it runs in. *)
Record State : Type := mkState {
  test_duration : Z;
  concurrent_connections : Z;
  output_path : string;
  test_results : gmap string Q;
  test_log : list log_msg;
  filter_process : option handle;
  world : World
}.

Definition set_world (f : World -> World) (s : State) : State :=
  mkState (test_duration s) (concurrent_connections s) (output_path s)
          (test_results s) (test_log s) (filter_process s) (f (world s)).

Definition set_results (f : gmap string Q -> gmap string Q) (s : State) : State :=
  mkState (test_duration s) (concurrent_connections s) (output_path s)
          (f (test_results s)) (test_log s) (filter_process s) (world s).

Definition set_log (f : list log_msg -> list log_msg) (s : State) : State :=
  mkState (test_duration s) (concurrent_connections s) (output_path s)
          (test_results s) (f (test_log s)) (filter_process s) (world s).

Definition set_process (p : option handle) (s : State) : State :=
  mkState (test_duration s) (concurrent_connections s) (output_path s)
          (test_results s) (test_log s) p (world s).

(** ** The monad *)

Definition M (A : Type) : Type := State -> result A * State.

Definition ret {A} (a : A) : M A := fun s => (Ok a, s).

Definition bind {A B} (m : M A) (k : A -> M B) : M B :=
  fun s => match m s with
           | (Ok a, s') => k a s'
           | (Raise e, s') => (Raise e, s')
           | (OutOfFuel, s') => (OutOfFuel, s')
           end.

Notation "x <- m ;; k" := (bind m (fun x => k))
  (at level 100, m at next level, right associativity).
Notation "m ;; k" := (bind m (fun _ => k))
  (at level 100, right associativity).

Definition raise {A} (e : exn) : M A := fun s => (Raise e, s).
Definition out_of_fuel {A} : M A := fun s => (OutOfFuel, s).
Definition gets {A} (f : State -> A) : M A := fun s => (Ok (f s), s).
Definition modify (f : State -> State) : M unit := fun s => (Ok tt, f s).

(** [try: body finally: fin] *)
Definition try_finally {A} (body : M A) (fin : M unit) : M A :=
  fun s => match body s with
           | (OutOfFuel, s') => (OutOfFuel, s')
           | (r, s') => match fin s' with
                        | (Ok _, s'') => (r, s'')
                        | (Raise e, s'') => (Raise e, s'')
                        | (OutOfFuel, s'') => (OutOfFuel, s'')
                        end
           end.

(** [try: body except <classes accepted by catches> as e: handler e] *)
Definition try_except {A} (body : M A) (catches : exn -> bool)
    (handler : exn -> M A) : M A :=
  fun s => match body s with
           | (Raise e, s') => if catches e then handler e s' else (Raise e, s')
           | rs => rs
           end.

(** [x / y] on numbers. *)
Definition py_div (x y : Q) : M Q :=
  if Qeq_bool y 0 then raise ZeroDivisionError else ret (x / y)%Q.

(** [statistics.mean], [min], [max] on a list of floats. *)
Definition Qsum (l : list Q) : Q := fold_right Qplus 0%Q l.
Definition mean (l : list Q) : Q := (Qsum l / inject_Z (Z.of_nat (length l)))%Q.
Definition Qleast (a b : Q) : Q := if Qle_bool a b then a else b.
Definition Qmost (a b : Q) : Q := if Qle_bool a b then b else a.
Definition list_min (l : list Q) : Q :=
  match l with [] => 0%Q | x :: xs => fold_left Qleast xs x end.
Definition list_max (l : list Q) : Q :=
  match l with [] => 0%Q | x :: xs => fold_left Qmost xs x end.

Definition is_nonempty {A} (l : list A) : bool :=
  match l with [] => false | _ => true end.

(** Import of a module: found in [sys.modules], or located by the import
    system and then cached there; [None] stands for [ImportError]. *)
Definition import_world (import_found : string -> bool) (name : string)
    (w : World) : option World :=
  if existsb (String.eqb name) (sys_modules w) then Some w
  else if import_found name
       then Some (mkWorld (HAS_PSUTIL w) (name :: sys_modules w) (now w)
                          (step w) (next_handle w) (trace w))
       else None.

(** Accumulators of the throughput loop (lines 261-263). *)
Record perf_acc : Type := mkPerf {
  request_count : Z;
  blocked_count : Z;
  response_times : list Q
}.

(** Lines 280-286: a response arrived. *)
Definition perf_on_response (text : string) (request_time : Q)
    (a : perf_acc) : perf_acc :=
  mkPerf (request_count a + 1)
         (if is_blocked text then blocked_count a + 1 else blocked_count a)
         (response_times a ++ [request_time]).

(** Lines 288-289: [requests.RequestException]. *)
Definition perf_on_failure (a : perf_acc) : perf_acc :=
  mkPerf (request_count a + 1) (blocked_count a) (response_times a).

(** Counters of the accuracy loop (lines 324-327). *)
Record acc_counts : Type := mkCounts {
  correct_blocks : Z;
  correct_allows : Z;
  false_positives : Z;
  false_negatives : Z
}.

(** Lines 337-350: a response arrived for a fixture. *)
Definition acc_on_response (should_block : bool) (description text : string)
    (c : acc_counts) : acc_counts * log_msg :=
  let blocked := is_blocked text in
  if should_block && blocked then
    (mkCounts (correct_blocks c + 1) (correct_allows c)
              (false_positives c) (false_negatives c),
     MsgCorrectlyBlocked description)
  else if negb should_block && negb blocked then
    (mkCounts (correct_blocks c) (correct_allows c + 1)
              (false_positives c) (false_negatives c),
     MsgCorrectlyAllowed description)
  else if should_block && negb blocked then
    (mkCounts (correct_blocks c) (correct_allows c)
              (false_positives c) (false_negatives c + 1),
     MsgShouldBlockButAllowed description)
  else
    (mkCounts (correct_blocks c) (correct_allows c)
              (false_positives c + 1) (false_negatives c),
     MsgShouldAllowButBlocked description).

(** Lines 352-353: [requests.RequestException]; only a log line. *)
Definition acc_on_failure (description : string) (c : acc_counts)
    : acc_counts * log_msg :=
  (c, MsgRequestFailed description).

(** The f-string of [generate_report] applies a float format to every
    value of a section whose guard key is present; a missing value is the
    string 'N/A' and the format raises [ValueError]. *)
Definition section_formats (guard : string) (floats : list string)
    (d : gmap string Q) : bool :=
  match d !! guard with
  | None => true
  | Some _ => forallb (fun k => bool_decide (is_Some (d !! k))) floats
  end.

Definition report_formats (d : gmap string Q) : bool :=
  section_formats "avg_startup_time"
    ["avg_startup_time"; "min_startup_time"; "max_startup_time"]%string d
  && section_formats "avg_memory_mb"
    ["avg_memory_mb"; "min_memory_mb"; "max_memory_mb"]%string d
  && section_formats "requests_per_second"
    ["requests_per_second"; "block_rate"; "avg_response_time";
     "min_response_time"; "max_response_time"]%string d
  && section_formats "filter_accuracy" ["filter_accuracy"]%string d
  && section_formats "concurrent_success_rate"
    ["concurrent_success_rate"; "load_test_duration"]%string d.

Section Tester.

Variable env : Env.
(** Bound on the iterations of each [while] loop. *)
Variable fuel : nat.

(** *** Primitive interactions *)

(** Every interaction takes [cost env i] seconds and has index [i]. *)
Definition interact : M nat :=
  i <- gets (fun s => step (world s)) ;;
  modify (set_world (fun w => mkWorld (HAS_PSUTIL w) (sys_modules w)
                                      (now w + cost env i)%Q
                                      (S i) (next_handle w) (trace w))) ;;
  ret i.

Definition emit (e : event) : M unit :=
  modify (set_world (fun w => mkWorld (HAS_PSUTIL w) (sys_modules w) (now w)
                                      (step w) (next_handle w) (trace w ++ [e]))).

Definition time_time : M Q :=
  _ <- interact ;; gets (fun s => now (world s)).

(** A blocking call (sleep, HTTP request, wait, joining the worker
    pool): a SIGINT delivered while it is in progress makes it raise
    [KeyboardInterrupt].  Interrupts landing between two statements are
    not modelled. *)
Definition blocking : M nat :=
  i <- interact ;;
  if interrupted env i then raise KeyboardInterrupt else ret i.

Definition time_sleep (secs : Q) : M unit :=
  _ <- blocking ;;
  modify (set_world (fun w => mkWorld (HAS_PSUTIL w) (sys_modules w)
                                      (now w + secs)%Q
                                      (step w) (next_handle w) (trace w))).

Definition log_test (msg : log_msg) : M unit :=
  modify (set_log (fun l => l ++ [msg])).

Definition store (key : string) (v : Q) : M unit :=
  modify (set_results (fun d => <[key := v]> d)).

(** [subprocess.Popen([executable], ...)] *)
Definition Popen (executable : string) : M handle :=
  i <- interact ;;
  if popen_ok env i then
    h <- gets (fun s => next_handle (world s)) ;;
    modify (set_world (fun w => mkWorld (HAS_PSUTIL w) (sys_modules w) (now w)
                                        (step w) (S (next_handle w))
                                        (trace w ++ [EvPopen h]))) ;;
    ret h
  else raise OSError.

Definition process_terminate (h : handle) : M unit :=
  _ <- interact ;; emit (EvTerminate h).

(** [process.wait(timeout=5)]: [false] stands for [TimeoutExpired]. *)
Definition process_wait_timeout (h : handle) : M bool :=
  i <- blocking ;; ret (wait_exits env i).

Definition process_kill (h : handle) : M unit :=
  _ <- interact ;; emit (EvKill h).

Definition process_wait (h : handle) : M unit :=
  _ <- blocking ;; ret tt.

(** [requests.get("http://127.0.0.1:8888", timeout=...)] under a bare
    [except:], which swallows every exception, [KeyboardInterrupt]
    included: did it answer? *)
Definition get_ready : M bool :=
  i <- interact ;; ret (ready_resp env i && negb (interrupted env i)).

(** [requests.get(url, proxies=..., timeout=...)]: the body, or [None]
    for a [requests.RequestException]. *)
Definition requests_get (url : string) : M (option string) :=
  i <- blocking ;; ret (proxy_resp env i url).

Definition import_module (name : string) : M unit :=
  w <- gets world ;;
  match import_world (import_found env) name w with
  | Some w' => modify (set_world (fun _ => w'))
  | None => raise ImportError
  end.

(** *** check_dependencies (lines 82-95) *)

Definition check_dependencies : M bool :=
  log_test MsgCheckingDeps ;;
  try_except
    (import_module "requests" ;;
     log_test MsgDepsOk ;;
     has <- gets (fun s => HAS_PSUTIL (world s)) ;;
     (if negb has then log_test MsgPsutilMissing else ret tt) ;;
     ret true)
    (fun e => match e with ImportError => true | _ => false end)
    (fun e => log_test MsgMissingDep ;; ret false).

(** *** find_filter_executable (lines 97-118), answered by the file system *)

Definition find_filter_executable : M (option string) :=
  i <- interact ;; ret (exe_found env i).

(** *** start_filter (lines 120-143) *)

Fixpoint wait_listening (n : nat) (start_time max_wait : Q) : M unit :=
  match n with
  | O => out_of_fuel
  | S n' =>
      t <- time_time ;;
      if Qlt_bool (t - start_time) max_wait then
        answered <- get_ready ;;
        if answered then ret tt
        else time_sleep (1 # 10) ;; wait_listening n' start_time max_wait
      else raise RuntimeError
  end.

Definition start_filter : M unit :=
  executable <- find_filter_executable ;;
  match executable with
  | None => raise FileNotFoundError
  | Some exe =>
      h <- Popen exe ;;
      modify (set_process (Some h)) ;;
      let max_wait := 10%Q in
      start_time <- time_time ;;
      wait_listening fuel start_time max_wait
  end.

(** *** stop_filter (lines 145-155) *)

(** [try: terminate(); wait(timeout=5)
     except TimeoutExpired: kill(); wait()] *)
Definition terminate_and_wait (h : handle) : M unit :=
  process_terminate h ;;
  exited <- process_wait_timeout h ;;
  if exited then ret tt else process_kill h ;; process_wait h.

Definition stop_filter : M unit :=
  p <- gets filter_process ;;
  match p with
  | Some h => try_finally (terminate_and_wait h) (modify (set_process None))
  | None => ret tt
  end.

(** *** measure_startup_performance (lines 157-215) *)

(** Lines 184-190. *)
Fixpoint poll_ready (n : nat) (timeout : Q) : M (option Q) :=
  match n with
  | O => out_of_fuel
  | S n' =>
      t <- time_time ;;
      if Qlt_bool t timeout then
        answered <- get_ready ;;
        if answered then ready_time <- time_time ;; ret (Some ready_time)
        else time_sleep (1 # 10) ;; poll_ready n' timeout
      else ret None
  end.

(** [if ready_time:] is false for [None] and for [0.0]. *)
Definition truthy_time (ready_time : option Q) : option Q :=
  match ready_time with
  | Some t => if Qeq_bool t 0 then None else Some t
  | None => None
  end.

(** One iteration of the [for i in range(1, 6)] loop. *)
Definition startup_cycle (executable : string) (i : Z)
    (startup_times : list Q) : M (list Q) :=
  log_test (MsgStartupTest i) ;;
  start_time <- time_time ;;
  process <- Popen executable ;;
  t0 <- time_time ;;
  let timeout := (t0 + 10)%Q in
  ready_time <- poll_ready fuel timeout ;;
  startup_times' <-
    match truthy_time ready_time with
    | Some rt =>
        let startup_time := ((rt - start_time) * 1000)%Q in
        log_test (MsgStartupTime startup_time) ;;
        ret (startup_times ++ [startup_time])
    | None => log_test MsgStartupTimeout ;; ret startup_times
    end ;;
  terminate_and_wait process ;;
  time_sleep 1 ;;
  ret startup_times'.

Fixpoint startup_cycles (executable : string) (range : list Z)
    (startup_times : list Q) : M (list Q) :=
  match range with
  | [] => ret startup_times
  | i :: rest =>
      startup_times' <- startup_cycle executable i startup_times ;;
      startup_cycles executable rest startup_times'
  end.

Definition measure_startup_performance : M unit :=
  log_test MsgStartupHeader ;;
  executable <- find_filter_executable ;;
  match executable with
  | None => log_test MsgExeNotFound
  | Some exe =>
      startup_times <- startup_cycles exe [1; 2; 3; 4; 5] [] ;;
      if is_nonempty startup_times then
        store "avg_startup_time" (mean startup_times) ;;
        store "min_startup_time" (list_min startup_times) ;;
        store "max_startup_time" (list_max startup_times) ;;
        log_test (MsgStartupAvg (mean startup_times)) ;;
        log_test (MsgStartupMinMax (list_min startup_times)
                                   (list_max startup_times))
      else ret tt
  end.

(** *** measure_memory_usage (lines 217-250) *)

Definition memory_info : M mem_sample :=
  i <- interact ;; ret (mem_info env i).

Fixpoint memory_loop (range : list Z) (memory_readings : list Q)
    : M (list Q) :=
  match range with
  | [] => ret memory_readings
  | i :: rest =>
      has <- gets (fun s => HAS_PSUTIL (world s)) ;;
      if has then
        sample <- memory_info ;;
        match sample with
        | MemRss rss =>
            let memory_mb := (inject_Z rss / 1024 / 1024)%Q in
            log_test (MsgMemReading i memory_mb) ;;
            time_sleep 1 ;;
            memory_loop rest (memory_readings ++ [memory_mb])
        | MemNoSuchProcess =>
            log_test MsgProcessEnded ;; ret memory_readings
        | MemAccessDenied => raise AccessDenied
        end
      else
        log_test (MsgMemNoPsutil i) ;;
        time_sleep 1 ;;
        memory_loop rest memory_readings
  end.

Definition memory_body : M unit :=
  start_filter ;;
  time_sleep 3 ;;
  memory_readings <- memory_loop [1; 2; 3; 4; 5; 6; 7; 8; 9; 10] [] ;;
  if is_nonempty memory_readings then
    store "avg_memory_mb" (mean memory_readings) ;;
    store "min_memory_mb" (list_min memory_readings) ;;
    store "max_memory_mb" (list_max memory_readings) ;;
    log_test (MsgMemAvg (mean memory_readings)) ;;
    log_test (MsgMemMinMax (list_min memory_readings)
                           (list_max memory_readings))
  else ret tt.

Definition measure_memory_usage : M unit :=
  log_test MsgMemoryHeader ;;
  try_finally memory_body stop_filter.

(** *** measure_filtering_performance (lines 252-314) *)

(** The [for url in self.test_urls] loop with its deadline [break]. *)
Fixpoint perf_urls (urls : list string) (end_time : Q) (a : perf_acc)
    : M perf_acc :=
  match urls with
  | [] => ret a
  | url :: rest =>
      request_start <- time_time ;;
      response <- requests_get url ;;
      a' <- match response with
            | Some text =>
                t <- time_time ;;
                let request_time := ((t - request_start) * 1000)%Q in
                ret (perf_on_response text request_time a)
            | None => ret (perf_on_failure a)
            end ;;
      t <- time_time ;;
      if Qle_bool end_time t then ret a' else perf_urls rest end_time a'
  end.

(** [while time.time() < end_time: ...] *)
Fixpoint perf_loop (n : nat) (end_time : Q) (a : perf_acc) : M perf_acc :=
  match n with
  | O => out_of_fuel
  | S n' =>
      t <- time_time ;;
      if Qlt_bool t end_time then
        a' <- perf_urls test_urls end_time a ;;
        perf_loop n' end_time a'
      else ret a
  end.

(** Line 299: [(blocked_count / request_count) * 100 if request_count > 0 else 0] *)
Definition block_rate_of (a : perf_acc) : M Q :=
  if 0 <? request_count a then
    q <- py_div (inject_Z (blocked_count a)) (inject_Z (request_count a)) ;;
    ret (q * 100)%Q
  else ret 0%Q.

Definition filtering_body : M unit :=
  start_filter ;;
  time_sleep 3 ;;
  start_time <- time_time ;;
  duration <- gets test_duration ;;
  log_test (MsgPerfSending duration) ;;
  t <- time_time ;;
  let end_time := (t + inject_Z duration)%Q in
  a <- perf_loop fuel end_time (mkPerf 0 0 []) ;;
  t' <- time_time ;;
  let actual_duration := (t' - start_time)%Q in
  rps <- py_div (inject_Z (request_count a)) actual_duration ;;
  store "requests_per_second" rps ;;
  store "total_requests" (inject_Z (request_count a)) ;;
  store "blocked_requests" (inject_Z (blocked_count a)) ;;
  block_rate <- block_rate_of a ;;
  store "block_rate" block_rate ;;
  (if is_nonempty (response_times a) then
     store "avg_response_time" (mean (response_times a)) ;;
     store "min_response_time" (list_min (response_times a)) ;;
     store "max_response_time" (list_max (response_times a))
   else ret tt) ;;
  log_test MsgPerfResults ;;
  log_test (MsgPerfRate rps) ;;
  log_test (MsgPerfTotal (request_count a)) ;;
  log_test (MsgPerfBlocked (blocked_count a) block_rate) ;;
  (if is_nonempty (response_times a)
   then log_test (MsgPerfAvgResponse (mean (response_times a)))
   else ret tt).

Definition measure_filtering_performance : M unit :=
  log_test MsgPerfHeader ;;
  try_finally filtering_body stop_filter.

(** *** test_blocking_accuracy (lines 316-367) *)

Fixpoint accuracy_loop (cases : list (string * bool * string))
    (c : acc_counts) : M acc_counts :=
  match cases with
  | [] => ret c
  | (url, should_block, description) :: rest =>
      response <- requests_get url ;;
      let '(c', msg) :=
        match response with
        | Some text => acc_on_response should_block description text c
        | None => acc_on_failure description c
        end in
      log_test msg ;;
      accuracy_loop rest c'
  end.

(** Line 358: [(correct_results / total_tests) * 100 if total_tests > 0 else 0] *)
Definition accuracy_of (correct_results total_tests : Z) : M Q :=
  if 0 <? total_tests then
    q <- py_div (inject_Z correct_results) (inject_Z total_tests) ;;
    ret (q * 100)%Q
  else ret 0%Q.

Definition accuracy_body : M unit :=
  start_filter ;;
  time_sleep 3 ;;
  c <- accuracy_loop test_cases (mkCounts 0 0 0 0) ;;
  let total_tests := Z.of_nat (length test_cases) in
  let correct_results := correct_blocks c + correct_allows c in
  acc <- accuracy_of correct_results total_tests ;;
  store "filter_accuracy" acc ;;
  store "correct_blocks" (inject_Z (correct_blocks c)) ;;
  store "correct_allows" (inject_Z (correct_allows c)) ;;
  store "false_positives" (inject_Z (false_positives c)) ;;
  store "false_negatives" (inject_Z (false_negatives c)) ;;
  log_test (MsgAccuracy acc correct_results total_tests).

Definition test_blocking_accuracy : M unit :=
  log_test MsgAccHeader ;;
  try_finally accuracy_body stop_filter.

(** *** test_concurrent_load (lines 369-411) *)

(** [ThreadPoolExecutor(max_workers=n)] refuses [n <= 0] with
    [ValueError]; otherwise [n] workers each run [make_request] once and
    the [with] block joins them all. *)
Definition thread_pool_results (n : Z) : M (list bool) :=
  if n <=? 0 then raise ValueError
  else i <- blocking ;;
       ret (map (pool_resp env i) (seq 0 (Z.to_nat n))).

(** Lines 377-408, for the configured number of connections. *)
Definition concurrent_measure (connections : Z) : M unit :=
  log_test (MsgConcStarting connections) ;;
  start_time <- time_time ;;
  results <- thread_pool_results connections ;;
  t <- time_time ;;
  let load_test_duration := (t - start_time)%Q in
  let successful_requests := Z.of_nat (length (filter (fun b => b = true) results)) in
  let failed_requests := Z.of_nat (length results) - successful_requests in
  store "concurrent_connections" (inject_Z connections) ;;
  store "load_test_duration" load_test_duration ;;
  store "successful_requests" (inject_Z successful_requests) ;;
  store "failed_requests" (inject_Z failed_requests) ;;
  q <- py_div (inject_Z successful_requests) (inject_Z connections) ;;
  store "concurrent_success_rate" (q * 100)%Q ;;
  log_test MsgConcResults ;;
  log_test (MsgConcSuccessful successful_requests connections (q * 100)%Q) ;;
  log_test (MsgConcDuration load_test_duration).

Definition concurrent_body : M unit :=
  start_filter ;;
  time_sleep 3 ;;
  connections <- gets concurrent_connections ;;
  concurrent_measure connections.

Definition test_concurrent_load : M unit :=
  log_test MsgConcHeader ;;
  try_finally concurrent_body stop_filter.

(** *** generate_report (lines 452-508) *)

(** The rendered text is abstracted to the score and grade it shows. *)
Definition generate_report : M (Z * grade) :=
  log_test MsgReportHeader ;;
  d <- gets test_results ;;
  let report := calculate_performance_grade d in
  if report_formats d then
    i <- interact ;;
    if write_ok env i then
      path <- gets output_path ;;
      log_test (MsgReportSaved path) ;;
      ret report
    else raise OSError
  else raise ValueError.

(** *** run_all_tests (lines 510-561) *)

Inductive phase : Type :=
| Startup | Memory | Throughput | Accuracy | Concurrency.

Definition run_phase (p : phase) : M unit :=
  match p with
  | Startup => measure_startup_performance
  | Memory => measure_memory_usage
  | Throughput => measure_filtering_performance
  | Accuracy => test_blocking_accuracy
  | Concurrency => test_concurrent_load
  end.

(** The body of the [try] block, lines 526-557. *)
Definition run_body : M bool :=
  measure_startup_performance ;;
  measure_memory_usage ;;
  measure_filtering_performance ;;
  test_blocking_accuracy ;;
  test_concurrent_load ;;
  generate_report ;;
  ret true.

(** [except Exception as e], lines 559-561. *)
Definition run_handler (e : exn) : M bool :=
  log_test (MsgTestFailed e) ;; ret false.

(** Lines 517-521: the banner and the pre-flight dependency check. *)
Definition preflight : M bool :=
  log_test MsgRunStart ;;
  duration <- gets test_duration ;;
  connections <- gets concurrent_connections ;;
  log_test (MsgRunParams duration connections) ;;
  check_dependencies.

Definition run_all_tests : M bool :=
  ok <- preflight ;;
  if negb ok then ret false
  else try_except run_body is_Exception run_handler.

End Tester.

(** ** Program entry (lines 7-24 and 564-583) *)

(** The module body: [import requests] must succeed for the program to
    start; [import psutil] only sets [HAS_PSUTIL]. *)
Definition module_level (env : Env) (w : World) : result World :=
  match import_world (import_found env) "requests" w with
  | None => Raise ImportError
  | Some w1 =>
      match import_world (import_found env) "psutil" w1 with
      | Some w2 => Ok (mkWorld true (sys_modules w2) (now w2) (step w2)
                               (next_handle w2) (trace w2))
      | None => Ok (mkWorld false (sys_modules w1) (now w1) (step w1)
                            (next_handle w1) (trace w1))
      end
  end.

(** The flags given on the command line; each is an integer or absent. *)
Record command_line : Type := mkCommandLine {
  flag_duration : option Z;
  flag_connections : option Z;
  flag_output : option string
}.

Record args : Type := mkArgs {
  duration : Z;
  connections : Z;
  output : option string
}.

(** [argparse]: [type=int] with defaults 30 and 50, no range check. *)
Definition parse_args (cl : command_line) : args :=
  mkArgs (default 30 (flag_duration cl))
         (default 50 (flag_connections cl))
         (flag_output cl).

Definition default_output_path : string := "filter-performance-python.txt".

(** [FilterPerformanceTest.__init__] (lines 27-33). *)
Definition FilterPerformanceTest (test_duration concurrent_connections : Z)
    (output_path : option string) (w : World) : State :=
  mkState test_duration concurrent_connections
          (match output_path with
           | Some p => if String.eqb p "" then default_output_path else p
           | None => default_output_path
           end)
          ∅ [] None w.

(** [main]: the exit code handed to [sys.exit]. *)
Definition main (env : Env) (fuel : nat) (cl : command_line) (w : World)
    : result Z * State :=
  let a := parse_args cl in
  let tester := FilterPerformanceTest (duration a) (connections a) (output a) w in
  match run_all_tests env fuel tester with
  | (Ok success, s) => (Ok (if success then 0 else 1), s)
  | (Raise e, s) => (Raise e, s)
  | (OutOfFuel, s) => (OutOfFuel, s)
  end.

(** A fresh interpreter at clock reading [t0]. *)
Definition boot (t0 : Q) : World := mkWorld false [] t0 O O [].

(** The whole program: [None] when the module body itself fails. *)
Definition program (env : Env) (fuel : nat) (cl : command_line) (t0 : Q)
    : option (result Z * State) :=
  match module_level env (boot t0) with
  | Ok w => Some (main env fuel cl w)
  | _ => None
  end.

(** ** Vocabulary of the properties *)

(** [sat R E m]: from every state, [m] ends in a state related by [R] to
    the one it started in, and raises only exceptions in [E]. *)
Definition sat {A} (R : State -> State -> Prop) (E : exn -> Prop) (m : M A)
    : Prop :=
  forall s, R s (snd (m s)) /\ (forall e, fst (m s) = Raise e -> E e).

Definition with_clock (t : Q) (k : nat) (s : State) : State :=
  set_world (fun w => mkWorld (HAS_PSUTIL w) (sys_modules w) t k
                              (next_handle w) (trace w)) s.

(** Only the clock and the interaction counter moved. *)
Definition only_clock (s s' : State) : Prop :=
  s' = with_clock (now (world s')) (step (world s')) s.

(** The object's data (configuration, results, log) is untouched. *)
Definition same_self (s s' : State) : Prop :=
  test_duration s' = test_duration s
  /\ concurrent_connections s' = concurrent_connections s
  /\ output_path s' = output_path s
  /\ test_results s' = test_results s
  /\ test_log s' = test_log s.

(** No process was started or stopped, the handle attribute is untouched. *)
Definition same_proc (s s' : State) : Prop :=
  trace (world s') = trace (world s) /\ filter_process s' = filter_process s.

(** The log was only appended to. *)
Definition log_grows (s s' : State) : Prop :=
  exists l, test_log s' = test_log s ++ l.

Definition any_state (s s' : State) : Prop := True.
Definition any_exn (e : exn) : Prop := True.
Definition no_exn (e : exn) : Prop := False.

(** Life cycle of the supervised process as the event trace shows it. *)
Inductive proc_state : Type :=
| NoProcess
| Running (h : handle)
| Stopped (h : handle).

Definition lifecycle_step (st : option proc_state) (ev : event)
    : option proc_state :=
  match st, ev with
  | Some NoProcess, EvPopen h => Some (Running h)
  | Some (Stopped _), EvPopen h => Some (Running h)
  | Some (Running h'), EvTerminate h =>
      if Nat.eqb h h' then Some (Stopped h) else None
  | Some (Stopped h'), EvKill h =>
      if Nat.eqb h h' then Some (Stopped h) else None
  | _, _ => None
  end.

Definition lifecycle (tr : list event) : option proc_state :=
  fold_left lifecycle_step tr (Some NoProcess).

(** The trace is well formed and no process is left running: every
    [Popen] is followed by one [terminate] of the same process before
    anything else is started. *)
Definition at_rest (tr : list event) : Prop :=
  match lifecycle tr with
  | Some NoProcess | Some (Stopped _) => True
  | _ => False
  end.

Fixpoint popens (h : handle) (tr : list event) : nat :=
  match tr with
  | [] => O
  | EvPopen h' :: tr' => (if Nat.eqb h h' then 1 else 0) + popens h tr'
  | _ :: tr' => popens h tr'
  end.

Fixpoint terminates (h : handle) (tr : list event) : nat :=
  match tr with
  | [] => O
  | EvTerminate h' :: tr' => (if Nat.eqb h h' then 1 else 0) + terminates h tr'
  | _ :: tr' => terminates h tr'
  end.

Definition phase_header (p : phase) : log_msg :=
  match p with
  | Startup => MsgStartupHeader
  | Memory => MsgMemoryHeader
  | Throughput => MsgPerfHeader
  | Accuracy => MsgAccHeader
  | Concurrency => MsgConcHeader
  end.

Definition next_phase (p : phase) : option phase :=
  match p with
  | Startup => Some Memory
  | Memory => Some Throughput
  | Throughput => Some Accuracy
  | Accuracy => Some Concurrency
  | Concurrency => None
  end.

(** [reaches env fuel s0 p s]: started in [s0], the [try] block of
    [run_all_tests] arrives at phase [p] in state [s], all earlier
    phases having returned normally. *)
Inductive reaches (env : Env) (fuel : nat) (s0 : State) : phase -> State -> Prop :=
| reaches_first : reaches env fuel s0 Startup s0
| reaches_next (p q : phase) (s1 s2 : State) :
    reaches env fuel s0 p s1 ->
    run_phase env fuel p s1 = (Ok tt, s2) ->
    next_phase p = Some q ->
    reaches env fuel s0 q s2.

(** Number of "Request failed" lines in a log. *)
Fixpoint request_failures (l : list log_msg) : Z :=
  match l with
  | [] => 0
  | MsgRequestFailed _ :: l' => 1 + request_failures l'
  | _ :: l' => request_failures l'
  end.

Definition bucket_total (c : acc_counts) : Z :=
  correct_blocks c + correct_allows c + false_positives c + false_negatives c.

(** The exceptions [start_filter] can raise. *)
Definition start_errors (e : exn) : Prop :=
  e = FileNotFoundError \/ e = OSError \/ e = RuntimeError
  \/ e = KeyboardInterrupt.

Definition interrupt_only (e : exn) : Prop := e = KeyboardInterrupt.

Definition not_zero_division (e : exn) : Prop := e <> ZeroDivisionError.

(** Hoare triples, partial correctness up to fuel: from a state in [P],
    a normal return with [a] ends in [Q a], an exception [e] in [X e]. *)
Definition triple {A} (P : State -> Prop) (m : M A)
    (Q : A -> State -> Prop) (X : exn -> State -> Prop) : Prop :=
  forall s, P s ->
    match m s with
    | (Ok a, s') => Q a s'
    | (Raise e, s') => X e s'
    | (OutOfFuel, _) => True
    end.

(** No process is held and none is left running. *)
Definition released (s : State) : Prop :=
  filter_process s = None /\ at_rest (trace (world s)).

(** The handle attribute agrees with the trace. *)
Definition supervised (s : State) : Prop :=
  match filter_process s with
  | None => at_rest (trace (world s))
  | Some h => lifecycle (trace (world s)) = Some (Running h)
  end.

(** Process [h], launched by the startup phase, is running. *)
Definition launched (h : handle) (s : State) : Prop :=
  filter_process s = None /\ lifecycle (trace (world s)) = Some (Running h).

(** What the startup phase guarantees at an exceptional exit: the
    process is stopped unless the exception is an interrupt. *)
Definition released_unless_interrupted (e : exn) (s : State) : Prop :=
  e <> KeyboardInterrupt -> released s.

Definition running_as (h : handle) (st : proc_state) : nat :=
  match st with
  | Running h' => if Nat.eqb h h' then 1%nat else 0%nat
  | _ => 0%nat
  end.

(** The phases from [p] to the end of the [try] block, and the block
    run from there. *)
Definition phases_from (p : phase) : list phase :=
  match p with
  | Startup => [Startup; Memory; Throughput; Accuracy; Concurrency]
  | Memory => [Memory; Throughput; Accuracy; Concurrency]
  | Throughput => [Throughput; Accuracy; Concurrency]
  | Accuracy => [Accuracy; Concurrency]
  | Concurrency => [Concurrency]
  end.

Fixpoint run_list (env : Env) (fuel : nat) (ps : list phase) : M bool :=
  match ps with
  | [] => generate_report env ;; ret true
  | p :: rest => run_phase env fuel p ;; run_list env fuel rest
  end.

(** *** Concrete environments and states used in examples *)

(** A filter that starts at once, answers every probe with an
    unblocked page, on a clock too coarse to see any interaction. *)
Definition env_coarse_clock : Env :=
  mkEnv (fun _ => 0%Q) (fun _ => Some "PocketFence-Filter"%string)
        (fun _ => true) (fun _ => true) (fun _ _ => Some "<html>ok</html>"%string)
        (fun _ => true) (fun _ => MemRss 1048576) (fun _ _ => true)
        (fun _ => true) (fun _ => true) (fun _ => false).

(** The same filter on a clock that advances one millisecond per
    interaction. *)
Definition env_fine_clock : Env :=
  mkEnv (fun _ => (1 # 1000)%Q) (fun _ => Some "PocketFence-Filter"%string)
        (fun _ => true) (fun _ => true) (fun _ _ => Some "<html>ok</html>"%string)
        (fun _ => true) (fun _ => MemRss 1048576) (fun _ _ => true)
        (fun _ => true) (fun _ => true) (fun _ => false).

(** No filter executable anywhere. *)
Definition env_no_executable : Env :=
  mkEnv (fun _ => 0%Q) (fun _ => None)
        (fun _ => true) (fun _ => true) (fun _ _ => Some "<html>ok</html>"%string)
        (fun _ => true) (fun _ => MemRss 1048576) (fun _ _ => true)
        (fun _ => true) (fun _ => true) (fun _ => false).

(** The filter listens on its port but every proxied request fails. *)
Definition env_probes_fail : Env :=
  mkEnv (fun _ => 0%Q) (fun _ => Some "PocketFence-Filter"%string)
        (fun _ => true) (fun _ => true) (fun _ _ => None)
        (fun _ => true) (fun _ => MemRss 1048576) (fun _ _ => true)
        (fun _ => true) (fun _ => true) (fun _ => false).

(** The filter process launches but never answers on its port. *)
Definition env_never_ready : Env :=
  mkEnv (fun _ => 0%Q) (fun _ => Some "PocketFence-Filter"%string)
        (fun _ => true) (fun _ => false) (fun _ _ => Some "<html>ok</html>"%string)
        (fun _ => true) (fun _ => MemRss 1048576) (fun _ _ => true)
        (fun _ => true) (fun _ => true) (fun _ => false).

(** The filter never answers and a SIGINT arrives during interaction 6,
    the first [time.sleep(0.1)] of the startup phase's readiness
    polling. *)
Definition env_interrupt_6 : Env :=
  mkEnv (fun _ => 0%Q) (fun _ => Some "PocketFence-Filter"%string)
        (fun _ => true) (fun _ => false) (fun _ _ => Some "<html>ok</html>"%string)
        (fun _ => true) (fun _ => MemRss 1048576) (fun _ _ => true)
        (fun _ => true) (fun _ => true) (fun i => Nat.eqb i 6).

(** The filter is up and a SIGINT arrives during interaction 5, the
    [time.sleep(3)] warm-up of a phase that has just started it. *)
Definition env_interrupt_5 : Env :=
  mkEnv (fun _ => 0%Q) (fun _ => Some "PocketFence-Filter"%string)
        (fun _ => true) (fun _ => true) (fun _ _ => Some "<html>ok</html>"%string)
        (fun _ => true) (fun _ => MemRss 1048576) (fun _ _ => true)
        (fun _ => true) (fun _ => true) (fun i => Nat.eqb i 5).

(** The interpreter after the module body, [requests] imported. *)
Definition world0 : World := mkWorld false ["requests"%string] 1000%Q O O [].

(** A tester built with the default arguments. *)
Definition tester0 : State := FilterPerformanceTest 30 50 None world0.

(** ** find_filter_executable over a directory tree (lines 97-118) *)

Definition possible_names : list string :=
  [ "PocketFence-Filter.exe"; "PocketFence-Filter"; "pocketfence-filter.exe";
    "pocketfence-filter"; "filter.exe"; "filter" ]%string.

(** What the function sees of the file system: [os.path.exists] on a
    relative name, the (root, files) pairs that [os.walk(".")] yields, in
    its order, and the separator [os.path.join] puts between a root and a
    name. *)
Record file_system : Type := mkFs {
  path_exists : string -> bool;
  walk : list (string * list string);
  path_sep : string
}.

Definition path_join (sep root name : string) : string :=
  String.append root (String.append sep name).

(** [name in files] *)
Definition name_in (files : list string) (name : string) : bool :=
  existsb (String.eqb name) files.

(** Lines 113-116. *)
Fixpoint search_walk (sep : string) (dirs : list (string * list string))
    : option string :=
  match dirs with
  | [] => None
  | (root, files) :: rest =>
      match List.find (name_in files) possible_names with
      | Some name => Some (path_join sep root name)
      | None => search_walk sep rest
      end
  end.

Definition find_executable_in (fs : file_system) : option string :=
  match List.find (path_exists fs) possible_names with
  | Some name => Some name
  | None => search_walk (path_sep fs) (walk fs)
  end.

(** ** What the phases record *)

(** Number of [True] in the list of worker results. *)
Definition successes (results : list bool) : Z :=
  Z.of_nat (length (filter (fun b => b = true) results)).

(** The entries [test_concurrent_load] files for [n] connections.  The
    counts are integers; the rate is computed in floating point by the
    program and in rationals here, so only what rounding preserves is
    said of it: its range, and its value when none or all of the workers
    succeeded. *)
Definition concurrency_recorded (env : Env) (n : Z) (s : State) : Prop :=
  exists (i : nat) (q : Q),
    let ok := successes (map (pool_resp env i) (seq 0 (Z.to_nat n))) in
    1 <= n
    /\ 0 <= ok <= n
    /\ test_results s !! "concurrent_connections" = Some (inject_Z n)
    /\ test_results s !! "successful_requests" = Some (inject_Z ok)
    /\ test_results s !! "failed_requests" = Some (inject_Z (n - ok))
    /\ test_results s !! "concurrent_success_rate" = Some q
    /\ (0 <= q <= 100)%Q
    /\ (ok = 0 -> (q == 0)%Q)
    /\ ((forall j, pool_resp env i j = true) -> ok = n /\ (q == 100)%Q).

(** The results map and the [HAS_PSUTIL] flag are untouched. *)
Definition quiet (s s' : State) : Prop :=
  test_results s' = test_results s
  /\ HAS_PSUTIL (world s') = HAS_PSUTIL (world s).

(** The keys of [test_results] that each phase assigns. *)
Definition phase_keys (p : phase) : list string :=
  match p with
  | Startup => ["avg_startup_time"; "min_startup_time"; "max_startup_time"]
  | Memory => ["avg_memory_mb"; "min_memory_mb"; "max_memory_mb"]
  | Throughput =>
      ["requests_per_second"; "total_requests"; "blocked_requests";
       "block_rate"; "avg_response_time"; "min_response_time";
       "max_response_time"]
  | Accuracy =>
      ["filter_accuracy"; "correct_blocks"; "correct_allows";
       "false_positives"; "false_negatives"]
  | Concurrency =>
      ["concurrent_connections"; "load_test_duration"; "successful_requests";
       "failed_requests"; "concurrent_success_rate"]
  end%string.

(** Entries under keys outside [keys] are as they were. *)
Definition writes_only (keys : list string) (s s' : State) : Prop :=
  forall k, ~ In k keys -> test_results s' !! k = test_results s !! k.

(** The three summary entries of a list of measurements: all present,
    with minimum <= mean <= maximum. *)
Definition summary_recorded (avg lo hi : string) (d : gmap string Q) : Prop :=
  exists a l h : Q,
    d !! avg = Some a /\ d !! lo = Some l /\ d !! hi = Some h
    /\ (l <= a)%Q /\ (a <= h)%Q.

(** The three summary entries are what they were in [d0]. *)
Definition summary_untouched (avg lo hi : string) (d0 d : gmap string Q)
    : Prop :=
  d !! avg = d0 !! avg /\ d !! lo = d0 !! lo /\ d !! hi = d0 !! hi.

(** ** The probes of the two request loops *)

(** A probe of the throughput loop: the interaction in which the request
    was made, and its URL.  Its body is what the proxy answered then,
    [None] for a [requests.RequestException]. *)
Definition probe_body (env : Env) (p : nat * string) : option string :=
  proxy_resp env (fst p) (snd p).

Definition body_answered (r : option string) : bool :=
  match r with Some _ => true | None => false end.

(** Blocked: an answer whose body holds both markers; a failure never is. *)
Definition body_blocked (r : option string) : bool :=
  match r with Some body => is_blocked body | None => false end.

Definition body_allowed (r : option string) : bool :=
  match r with Some body => negb (is_blocked body) | None => false end.

Definition count_probes (f : option string -> bool) (env : Env)
    (ps : list (nat * string)) : Z :=
  Z.of_nat (length (List.filter (fun p => f (probe_body env p)) ps)).

Definition answered_probes : Env -> list (nat * string) -> Z :=
  count_probes body_answered.
Definition blocked_probes : Env -> list (nat * string) -> Z :=
  count_probes body_blocked.

(** The probes [ps] were made in this order, in distinct interactions from
    number [lo] on and before number [hi], each to one of [urls]. *)
Fixpoint probes_between (urls : list string) (lo hi : nat)
    (ps : list (nat * string)) : Prop :=
  match ps with
  | [] => (lo <= hi)%nat
  | (i, url) :: rest =>
      (lo <= i)%nat /\ In url urls /\ probes_between urls (S i) hi rest
  end.

(** The accumulators moved from [a] to [a'] by the probes [ps]. *)
Definition perf_extends (env : Env) (ps : list (nat * string))
    (a a' : perf_acc) : Prop :=
  request_count a' = request_count a + Z.of_nat (length ps)
  /\ blocked_count a' = blocked_count a + blocked_probes env ps
  /\ Z.of_nat (length (response_times a'))
     = Z.of_nat (length (response_times a)) + answered_probes env ps.

(** The entries [measure_filtering_performance] files in a run from [s]
    to [s']: the totals are those of the probes it made.  The block rate
    is computed in floating point by the program and in rationals here, so
    only what rounding preserves is said of it. *)
Definition throughput_recorded (env : Env) (s s' : State) : Prop :=
  exists (ps : list (nat * string)) (rate : Q),
    let total := Z.of_nat (length ps) in
    let answered := answered_probes env ps in
    let blocked := blocked_probes env ps in
    probes_between test_urls (step (world s)) (step (world s')) ps
    /\ 0 <= blocked <= answered /\ answered <= total
    /\ is_Some (test_results s' !! "requests_per_second")
    /\ test_results s' !! "total_requests" = Some (inject_Z total)
    /\ test_results s' !! "blocked_requests" = Some (inject_Z blocked)
    /\ test_results s' !! "block_rate" = Some rate
    /\ (0 <= rate <= 100)%Q
    /\ (blocked = 0 -> (rate == 0)%Q)
    /\ (0 < total -> blocked = total -> (rate == 100)%Q)
    /\ (answered = 0 ->
        summary_untouched "avg_response_time" "min_response_time"
          "max_response_time" (test_results s) (test_results s'))
    /\ (0 < answered ->
        summary_recorded "avg_response_time" "min_response_time"
          "max_response_time" (test_results s')).

(** The four buckets of the accuracy phase. *)
Inductive bucket : Type :=
| CorrectBlock | CorrectAllow | FalsePositive | FalseNegative.

Definition bucket_eqb (b1 b2 : bucket) : bool :=
  match b1, b2 with
  | CorrectBlock, CorrectBlock | CorrectAllow, CorrectAllow
  | FalsePositive, FalsePositive | FalseNegative, FalseNegative => true
  | _, _ => false
  end.

(** The bucket of an answered probe, from what the fixture expects and
    whether the answer was a block page. *)
Definition bucket_of (should_block blocked : bool) : bucket :=
  match should_block, blocked with
  | true, true => CorrectBlock
  | false, false => CorrectAllow
  | false, true => FalsePositive
  | true, false => FalseNegative
  end.

(** A fixture's probe: what the fixture expects and what the proxy
    answered.  Its verdict is one bucket when it was answered and none
    when the request failed. *)
Definition probe_verdict (r : bool * option string) : option bucket :=
  match snd r with
  | Some body => Some (bucket_of (fst r) (is_blocked body))
  | None => None
  end.

Definition has_verdict (b : bucket) (r : bool * option string) : bool :=
  match probe_verdict r with
  | Some b' => bucket_eqb b b'
  | None => false
  end.

Definition in_bucket (b : bucket) (rs : list (bool * option string)) : Z :=
  Z.of_nat (length (List.filter (has_verdict b) rs)).

Definition failed_probes (rs : list (bool * option string)) : Z :=
  Z.of_nat (length (List.filter (fun r => negb (body_answered (snd r))) rs)).

Definition blocked_answers (rs : list (bool * option string)) : Z :=
  Z.of_nat (length (List.filter (fun r => body_blocked (snd r)) rs)).

Definition allowed_answers (rs : list (bool * option string)) : Z :=
  Z.of_nat (length (List.filter (fun r => body_allowed (snd r)) rs)).

(** The accuracy loop makes one request per fixture, in consecutive
    interactions from number [i0] on: what each fixture expects and what
    the proxy answered it. *)
Fixpoint probe_responses (env : Env) (i0 : nat)
    (cases : list (string * bool * string)) : list (bool * option string) :=
  match cases with
  | [] => []
  | (url, should_block, _) :: rest =>
      (should_block, proxy_resp env i0 url) :: probe_responses env (S i0) rest
  end.

(** The interaction in which the accuracy phase, entered in [s], probes
    its first fixture: the one after the header is logged, the filter
    started and the three seconds slept. *)
Definition accuracy_first_probe (env : Env) (fuel : nat) (s : State) : nat :=
  step (world (snd ((start_filter env fuel ;; time_sleep env 3)
                      (set_log (fun l => l ++ [MsgAccHeader]) s)))).

(** The interaction counter did not go back. *)
Definition later (s s' : State) : Prop :=
  (step (world s) <= step (world s'))%nat.

(** The filter of [env_fine_clock] on a clock that advances one second
    per interaction. *)
Definition env_second_clock : Env :=
  mkEnv (fun _ => 1%Q) (fun _ => Some "PocketFence-Filter"%string)
        (fun _ => true) (fun _ => true) (fun _ _ => Some "<html>ok</html>"%string)
        (fun _ => true) (fun _ => MemRss 1048576) (fun _ _ => true)
        (fun _ => true) (fun _ => true) (fun _ => false).

(** A tester asked for a two-second throughput test. *)
Definition tester_short : State := FilterPerformanceTest 2 50 None world0.

(** Number of fixtures whose expected verdict is [b]. *)
Definition fixtures_expecting (b : bool) (cases : list (string * bool * string))
    : Z :=
  Z.of_nat (length (List.filter (fun c => Bool.eqb (snd (fst c)) b) cases)).

(** The counters stay within the number of fixtures of their class:
    at most [kb] verdicts on fixtures to block, [ka] on fixtures to allow. *)
Definition acc_bounded (kb ka : Z) (c : acc_counts) : Prop :=
  0 <= correct_blocks c /\ 0 <= false_negatives c
  /\ correct_blocks c + false_negatives c <= kb
  /\ 0 <= correct_allows c /\ 0 <= false_positives c
  /\ correct_allows c + false_positives c <= ka.

(** The entries [test_blocking_accuracy] files. *)
Definition accuracy_recorded (s : State) : Prop :=
  exists (c : acc_counts) (acc : Q),
    let correct := correct_blocks c + correct_allows c in
    acc_bounded (fixtures_expecting true test_cases)
                (fixtures_expecting false test_cases) c
    /\ test_results s !! "correct_blocks" = Some (inject_Z (correct_blocks c))
    /\ test_results s !! "correct_allows" = Some (inject_Z (correct_allows c))
    /\ test_results s !! "false_positives" = Some (inject_Z (false_positives c))
    /\ test_results s !! "false_negatives" = Some (inject_Z (false_negatives c))
    /\ test_results s !! "filter_accuracy" = Some acc
    /\ acc = (inject_Z correct / inject_Z (Z.of_nat (length test_cases)) * 100)%Q
    /\ (0 <= acc <= 100)%Q
    /\ (present_above "filter_accuracy" 80 (test_results s) = true
        <-> 7 <= correct).

(** From [s] to [s'] the lines [msgs] were logged and nothing else of
    the object, nor the process trace, changed. *)
Definition only_logged (msgs : list log_msg) (s s' : State) : Prop :=
  test_log s' = test_log s ++ msgs
  /\ test_results s' = test_results s
  /\ trace (world s') = trace (world s)
  /\ filter_process s' = filter_process s.

(** The report path is untouched. *)
Definition same_path (s s' : State) : Prop := output_path s' = output_path s.

(** The report goes to [path] and the headers of the phases [ps] are in
    the log. *)
Definition headers_logged (path : string) (ps : list phase) (s : State) : Prop :=
  output_path s = path
  /\ forall q, In q ps -> In (phase_header q) (test_log s).

(** How a run that returned [True] ends: all five phase headers are in the
    log, whose last two lines are the report header and the line naming
    the file written, and every section of the report could be formatted. *)
Definition run_succeeded (path : string) (s : State) : Prop :=
  exists l : list log_msg,
    test_log s = l ++ [MsgReportHeader; MsgReportSaved path]
    /\ (forall p : phase, In (phase_header p) l)
    /\ report_formats (test_results s) = true.

(** The throughput figures without the response times. *)
Definition rate_without_times (d0 : gmap string Q) (s : State) : Prop :=
  is_Some (test_results s !! "requests_per_second")
  /\ test_results s !! "avg_response_time" = d0 !! "avg_response_time".

(** Where the run stands when a phase is reached, the proxy having
    answered nothing: no response time is filed, and from the accuracy
    phase on a throughput rate is. *)
Definition times_missing (p : phase) (s : State) : Prop :=
  test_results s !! "avg_response_time" = None
  /\ match p with
     | Accuracy | Concurrency =>
         is_Some (test_results s !! "requests_per_second")
     | _ => True
     end.

(** psutil is not available and no memory figure is on file. *)
Definition no_memory_figure (s : State) : Prop :=
  HAS_PSUTIL (world s) = false /\ test_results s !! "avg_memory_mb" = None.

Definition keeps_no_memory (s s' : State) : Prop :=
  no_memory_figure s -> no_memory_figure s'.

(** The filter of [env_second_clock] on a machine where [requests] can be
    imported and psutil cannot. *)
Definition env_no_psutil : Env :=
  mkEnv (fun _ => 1%Q) (fun _ => Some "PocketFence-Filter"%string)
        (fun _ => true) (fun _ => true) (fun _ _ => Some "<html>ok</html>"%string)
        (fun _ => true) (fun _ => MemRss 1048576) (fun _ _ => true)
        (fun _ => true) (fun name => String.eqb name "requests") (fun _ => false).

(** A filter that listens on its port while every proxied request fails,
    on the one-second clock. *)
Definition env_silent_proxy : Env :=
  mkEnv (fun _ => 1%Q) (fun _ => Some "PocketFence-Filter"%string)
        (fun _ => true) (fun _ => true) (fun _ _ => None)
        (fun _ => true) (fun _ => MemRss 1048576) (fun _ _ => true)
        (fun _ => true) (fun _ => true) (fun _ => false).

(** The state of [tester_short] after running the phases [ps] in turn
    under [env_silent_proxy]. *)
Definition silent_run (ps : list phase) : State :=
  fold_left (fun s p => snd (run_phase env_silent_proxy 5 p s)) ps tester_short.

(** A filter whose proxy answers every request with its block page, on
    the one-second clock. *)
Definition env_blocks_all : Env :=
  mkEnv (fun _ => 1%Q) (fun _ => Some "PocketFence-Filter"%string)
        (fun _ => true) (fun _ => true)
        (fun _ _ => Some "<h1>PocketFence</h1><p>Content Blocked</p>"%string)
        (fun _ => true) (fun _ => MemRss 1048576) (fun _ _ => true)
        (fun _ => true) (fun _ => true) (fun _ => false).

(** * Properties *)

Lemma Qlt_bool_iff (x y : Q) : Qlt_bool x y = true <-> (x < y)%Q.
Proof.
  unfold Qlt_bool. rewrite Qlt_alt. destruct (x ?= y)%Q; split; congruence.
Qed.

Lemma passesb_iff (m : metric) (v : Q) : passesb m v = true <-> passes m v.
Proof. destruct m; simpl; apply Qlt_bool_iff. Qed.

Lemma contribution_range (m : metric) (d : gmap string Q) :
  0 <= contribution m d <= metric_points m.
Proof.
  unfold contribution. destruct (d !! metric_key m) as [v|].
  - destruct (passesb m v); destruct m; simpl; lia.
  - destruct m; simpl; lia.
Qed.

Lemma metric_key_inj (m1 m2 : metric) : metric_key m1 = metric_key m2 -> m1 = m2.
Proof. destruct m1, m2; simpl; intros H; try reflexivity; discriminate H. Qed.

Lemma contribution_insert_ne (m k : metric) (v : Q) (d : gmap string Q) :
  m <> k -> contribution m (<[metric_key k := v]> d) = contribution m d.
Proof.
  intros Hne. unfold contribution.
  rewrite lookup_insert_ne; [reflexivity|].
  intros Heq. apply Hne. symmetry. now apply metric_key_inj.
Qed.

Lemma contribution_insert_pass (k : metric) (v : Q) (d : gmap string Q) :
  passes k v -> contribution k (<[metric_key k := v]> d) = metric_points k.
Proof.
  intros Hp. unfold contribution. rewrite lookup_insert_eq.
  apply passesb_iff in Hp. now rewrite Hp.
Qed.

Lemma calculate_score_spec (d : gmap string Q) :
  fst (calculate_performance_grade d) = spec_score d.
Proof.
  unfold calculate_performance_grade, spec_score, contribution,
    present_below, present_above; simpl.
  destruct (d !! "avg_startup_time") as [v1|]; [destruct (Qlt_bool v1 2000)|];
  (destruct (d !! "avg_memory_mb") as [v2|]; [destruct (Qlt_bool v2 50)|]);
  (destruct (d !! "requests_per_second") as [v3|]; [destruct (Qlt_bool 10 v3)|]);
  (destruct (d !! "filter_accuracy") as [v4|]; [destruct (Qlt_bool 80 v4)|]);
  (destruct (d !! "concurrent_success_rate") as [v5|]; [destruct (Qlt_bool 90 v5)|]);
  reflexivity.
Qed.

Lemma grade_of_score_spec (score : Z) : grade_of_score score = spec_grade score.
Proof.
  unfold grade_of_score, spec_grade.
  repeat match goal with
         | |- context [Z_le_dec ?a ?b] =>
             destruct (Z_le_dec a b); [ rewrite (proj2 (Z.leb_le a b)) by assumption
                                      | rewrite (proj2 (Z.leb_gt a b)) by lia ]
         end; reflexivity.
Qed.

(** C4.  The score is the sum of the five tabulated contributions (15,
    20, 20, 25, 20 points when the metric is present and meets its
    threshold), a missing metric contributes 0, the function is total,
    and the grade follows the fixed score bands. *)
Theorem score_and_grade_computation :
  forall d : gmap string Q,
    calculate_performance_grade d = (spec_score d, spec_grade (spec_score d))
    /\ (forall m, d !! metric_key m = None -> contribution m d = 0)
    /\ (forall m v, d !! metric_key m = Some v ->
          (passes m v -> contribution m d = metric_points m)
          /\ (~ passes m v -> contribution m d = 0))
    /\ (let s := fst (calculate_performance_grade d) in
        let g := snd (calculate_performance_grade d) in
        (90 <= s -> g = GradeAplus)
        /\ (80 <= s < 90 -> g = GradeA)
        /\ (70 <= s < 80 -> g = GradeB)
        /\ (60 <= s < 70 -> g = GradeC)
        /\ (50 <= s < 60 -> g = GradeD)
        /\ (s < 50 -> g = GradeF)).
Proof.
  intros d. split; [|split; [|split]].
  - pose proof (calculate_score_spec d) as Hs.
    destruct (calculate_performance_grade d) as [s g] eqn:E.
    simpl in Hs. subst s.
    unfold calculate_performance_grade in E.
    injection E as E1 E2. rewrite <- E2, E1.
    now rewrite grade_of_score_spec.
  - intros m Hm. unfold contribution. now rewrite Hm.
  - intros m v Hm. unfold contribution. rewrite Hm. split; intros Hp.
    + apply passesb_iff in Hp. now rewrite Hp.
    + destruct (passesb m v) eqn:E; [|reflexivity].
      apply passesb_iff in E. contradiction.
  - cbv zeta.
    assert (Hg : snd (calculate_performance_grade d)
                 = grade_of_score (fst (calculate_performance_grade d)))
      by reflexivity.
    rewrite Hg. generalize (fst (calculate_performance_grade d)) as s.
    intros s. unfold grade_of_score.
    repeat split; intros H;
      repeat match goal with
             | |- context [?a <=? ?b] => destruct (Z.leb_spec a b); try lia
             end; reflexivity.
Qed.

Lemma score_and_grade_computation_witness :
  contribution MMemory {["avg_startup_time"%string := 1500%Q]} = 0
  /\ contribution MStartup {["avg_startup_time"%string := 1500%Q]}
     = metric_points MStartup
  /\ snd (calculate_performance_grade {["avg_startup_time"%string := 1500%Q]})
     = GradeF.
Proof.
  destruct (score_and_grade_computation {["avg_startup_time"%string := 1500%Q]})
    as (_ & Hmissing & Hpresent & Hbands).
  split; [|split].
  - apply (Hmissing MMemory). vm_compute. reflexivity.
  - apply (proj1 (Hpresent MStartup 1500%Q ltac:(vm_compute; reflexivity))).
    vm_compute. reflexivity.
  - apply Hbands. vm_compute. reflexivity.
Defined.

(** ** The logic of [sat] *)

Section SatRules.

Context (R : State -> State -> Prop) (E : exn -> Prop).
Hypothesis R_refl : forall s, R s s.
Hypothesis R_trans : forall s1 s2 s3, R s1 s2 -> R s2 s3 -> R s1 s3.

Lemma sat_ret {A} (a : A) : sat R E (ret a).
Proof. intros s; split; [apply R_refl | discriminate]. Qed.

Lemma sat_gets {A} (f : State -> A) : sat R E (gets f).
Proof. intros s; split; [apply R_refl | discriminate]. Qed.

Lemma sat_out_of_fuel {A} : sat R E (@out_of_fuel A).
Proof. intros s; split; [apply R_refl | discriminate]. Qed.

Lemma sat_raise {A} (e : exn) : E e -> sat R E (@raise A e).
Proof.
  intros He s; split; [apply R_refl|].
  intros e' H; injection H as <-; exact He.
Qed.

Lemma sat_modify (f : State -> State) :
  (forall s, R s (f s)) -> sat R E (modify f).
Proof. intros Hf s; split; [apply Hf | discriminate]. Qed.

Lemma sat_bind {A B} (m : M A) (k : A -> M B) :
  sat R E m -> (forall a, sat R E (k a)) -> sat R E (bind m k).
Proof.
  intros Hm Hk s. unfold bind.
  destruct (Hm s) as [HR HE].
  destruct (m s) as [[a|e|] s1]; simpl in *.
  - destruct (Hk a s1) as [HR' HE']. split; [eapply R_trans; eauto | exact HE'].
  - split; [exact HR | ]. intros e' H; injection H as <-. now apply HE.
  - split; [exact HR | discriminate].
Qed.

Lemma sat_try_finally {A} (body : M A) (fin : M unit) :
  sat R E body -> sat R E fin -> sat R E (try_finally body fin).
Proof.
  intros Hb Hf s. unfold try_finally.
  destruct (Hb s) as [HR HE].
  destruct (body s) as [[a|e|] s1]; simpl in *.
  - destruct (Hf s1) as [HR' HE'].
    destruct (fin s1) as [[[]|e'|] s2]; simpl in *;
      (split; [eapply R_trans; eauto | ]);
      intros e0 H; first [discriminate H | injection H as <-; first [now apply HE | now apply HE']].
  - destruct (Hf s1) as [HR' HE'].
    destruct (fin s1) as [[[]|e'|] s2]; simpl in *;
      (split; [eapply R_trans; eauto | ]);
      intros e0 H; first [discriminate H | injection H as <-; first [now apply HE | now apply HE']].
  - split; [exact HR | discriminate].
Qed.

Lemma sat_try_except {A} (body : M A) (catches : exn -> bool)
    (handler : exn -> M A) :
  sat R (fun e => if catches e then True else E e) body ->
  (forall e, sat R E (handler e)) ->
  sat R E (try_except body catches handler).
Proof.
  intros Hb Hh s. unfold try_except.
  destruct (Hb s) as [HR HE].
  destruct (body s) as [[a|e|] s1]; simpl in *;
    try (split; [exact HR | discriminate]).
  specialize (HE e eq_refl).
  destruct (catches e).
  - destruct (Hh e s1) as [HR' HE']. split; [eapply R_trans; eauto | exact HE'].
  - split; [exact HR|]. intros e' H; injection H as <-; exact HE.
Qed.

End SatRules.

Lemma sat_weaken {A} (R R' : State -> State -> Prop) (E E' : exn -> Prop)
    (m : M A) :
  (forall s s', R s s' -> R' s s') -> (forall e, E e -> E' e) ->
  sat R E m -> sat R' E' m.
Proof.
  intros HR HE Hm s. destruct (Hm s) as [H1 H2]. split; auto.
Qed.

(** The relations are preorders. *)

Lemma only_clock_refl s : only_clock s s.
Proof. destruct s as [? ? ? ? ? ? []]; reflexivity. Qed.

Lemma only_clock_trans s1 s2 s3 :
  only_clock s1 s2 -> only_clock s2 s3 -> only_clock s1 s3.
Proof.
  unfold only_clock. intros H12 H23.
  rewrite H23 at 1. rewrite H12 at 1.
  destruct s1 as [? ? ? ? ? ? []]; reflexivity.
Qed.

Lemma same_self_refl s : same_self s s.
Proof. repeat split. Qed.

Lemma same_self_trans s1 s2 s3 :
  same_self s1 s2 -> same_self s2 s3 -> same_self s1 s3.
Proof. unfold same_self. intuition congruence. Qed.

Lemma same_proc_refl s : same_proc s s.
Proof. split; reflexivity. Qed.

Lemma same_proc_trans s1 s2 s3 :
  same_proc s1 s2 -> same_proc s2 s3 -> same_proc s1 s3.
Proof. unfold same_proc. intuition congruence. Qed.

Lemma log_grows_refl s : log_grows s s.
Proof. exists []. now rewrite app_nil_r. Qed.

Lemma log_grows_trans s1 s2 s3 :
  log_grows s1 s2 -> log_grows s2 s3 -> log_grows s1 s3.
Proof.
  intros [l1 H1] [l2 H2]. exists (l1 ++ l2). now rewrite H2, H1, app_assoc.
Qed.

Lemma any_state_refl s : any_state s s.
Proof. exact I. Qed.

Lemma any_state_trans s1 s2 s3 :
  any_state s1 s2 -> any_state s2 s3 -> any_state s1 s3.
Proof. intros; exact I. Qed.

Lemma only_clock_same_self s s' : only_clock s s' -> same_self s s'.
Proof. intros ->. repeat split. Qed.

Lemma only_clock_same_proc s s' : only_clock s s' -> same_proc s s'.
Proof. intros ->. split; reflexivity. Qed.

Lemma same_self_log_grows s s' : same_self s s' -> log_grows s s'.
Proof. intros (_ & _ & _ & _ & H). exists []. now rewrite app_nil_r. Qed.

Lemma same_proc_any s s' : same_proc s s' -> any_state s s'.
Proof. intros _; exact I. Qed.

Lemma any_exn_interrupt : any_exn KeyboardInterrupt.
Proof. exact I. Qed.

Lemma start_errors_interrupt : start_errors KeyboardInterrupt.
Proof. unfold start_errors. tauto. Qed.

Lemma interrupt_only_interrupt : interrupt_only KeyboardInterrupt.
Proof. reflexivity. Qed.

Lemma not_zero_division_interrupt : not_zero_division KeyboardInterrupt.
Proof. discriminate. Qed.

Lemma interrupt_only_weaken (E : exn -> Prop) :
  E KeyboardInterrupt -> forall e, interrupt_only e -> E e.
Proof. intros H e ->. exact H. Qed.

Lemma clock_as_self {A} (E : exn -> Prop) (m : M A) :
  E KeyboardInterrupt -> sat only_clock interrupt_only m -> sat same_self E m.
Proof.
  intros H. apply sat_weaken; [apply only_clock_same_self|].
  now apply interrupt_only_weaken.
Qed.

Lemma clock_as_proc {A} (E : exn -> Prop) (m : M A) :
  E KeyboardInterrupt -> sat only_clock interrupt_only m -> sat same_proc E m.
Proof.
  intros H. apply sat_weaken; [apply only_clock_same_proc|].
  now apply interrupt_only_weaken.
Qed.

Lemma clock_as_log {A} (E : exn -> Prop) (m : M A) :
  E KeyboardInterrupt -> sat only_clock interrupt_only m -> sat log_grows E m.
Proof.
  intros H. apply sat_weaken; [|now apply interrupt_only_weaken].
  intros s s' Hc. now apply same_self_log_grows, only_clock_same_self.
Qed.

Lemma clock_as_any {A} (E : exn -> Prop) (m : M A) :
  E KeyboardInterrupt -> sat only_clock interrupt_only m -> sat any_state E m.
Proof.
  intros H. apply sat_weaken; [intros; exact I|].
  now apply interrupt_only_weaken.
Qed.

Create HintDb sat_db.
#[local] Hint Resolve any_exn_interrupt start_errors_interrupt
  interrupt_only_interrupt not_zero_division_interrupt
  clock_as_self clock_as_proc clock_as_log clock_as_any : sat_db.

(** Structural decomposition of a [sat] goal; [leaf] closes the
    obligations on state updates and raised exceptions. *)
Ltac sat_head m :=
  match m with
  | ?f _ => sat_head f
  | _ => m
  end.

Ltac sat_leaf :=
  first [ exact I | reflexivity | discriminate | tauto | solve [red; tauto]
        | intros [? ? ? ? ? ? []]; reflexivity
        | intros ?; first [ exact I
                          | split; reflexivity
                          | repeat split; reflexivity
                          | eexists; reflexivity
                          | exists nil; simpl; symmetry; apply app_nil_r ] ].

Ltac sat_go Rrefl Rtrans :=
  repeat first
    [ solve [ auto with sat_db ]
    | apply (sat_ret _ _ Rrefl)
    | apply (sat_gets _ _ Rrefl)
    | apply (sat_out_of_fuel _ _ Rrefl)
    | apply (sat_raise _ _ Rrefl); solve [sat_leaf]
    | apply sat_modify; solve [sat_leaf]
    | apply (sat_bind _ _ Rtrans); [ | intros ? ]
    | apply (sat_try_finally _ _ Rtrans)
    | progress cbv zeta
    | match goal with
      | |- sat _ _ (if ?b then _ else _) => destruct b
      | |- sat _ _ (match ?x with _ => _ end) => destruct x
      | |- sat _ _ ?m => let h := sat_head m in progress unfold h
      end ].

Ltac sat_clock := sat_go only_clock_refl only_clock_trans.
Ltac sat_self := sat_go same_self_refl same_self_trans.
Ltac sat_proc := sat_go same_proc_refl same_proc_trans.
Ltac sat_log := sat_go log_grows_refl log_grows_trans.
Ltac sat_any := sat_go any_state_refl any_state_trans.

Lemma interact_clock env : sat only_clock interrupt_only (interact env).
Proof. sat_clock. Qed.
#[local] Hint Resolve interact_clock : sat_db.

Lemma blocking_clock env : sat only_clock interrupt_only (blocking env).
Proof. sat_clock. Qed.
#[local] Hint Resolve blocking_clock : sat_db.

Lemma time_time_clock env : sat only_clock interrupt_only (time_time env).
Proof. sat_clock. Qed.

Lemma time_sleep_clock env d : sat only_clock interrupt_only (time_sleep env d).
Proof. sat_clock. Qed.

Lemma get_ready_clock env : sat only_clock interrupt_only (get_ready env).
Proof. sat_clock. Qed.

Lemma requests_get_clock env url : sat only_clock interrupt_only (requests_get env url).
Proof. sat_clock. Qed.

Lemma find_filter_executable_clock env :
  sat only_clock interrupt_only (find_filter_executable env).
Proof. sat_clock. Qed.

Lemma process_wait_timeout_clock env h :
  sat only_clock interrupt_only (process_wait_timeout env h).
Proof. sat_clock. Qed.

Lemma process_wait_clock env h : sat only_clock interrupt_only (process_wait env h).
Proof. sat_clock. Qed.

Lemma memory_info_clock env : sat only_clock interrupt_only (memory_info env).
Proof. sat_clock. Qed.

#[local] Hint Resolve time_time_clock time_sleep_clock get_ready_clock
  requests_get_clock find_filter_executable_clock process_wait_timeout_clock
  process_wait_clock memory_info_clock : sat_db.

Lemma poll_ready_clock env n timeout : sat only_clock interrupt_only (poll_ready env n timeout).
Proof. induction n; simpl; sat_clock. Qed.

Lemma perf_urls_clock env urls end_time a :
  sat only_clock interrupt_only (perf_urls env urls end_time a).
Proof. revert a; induction urls; intros; simpl; sat_clock. Qed.
#[local] Hint Resolve poll_ready_clock perf_urls_clock : sat_db.

Lemma perf_loop_clock env n end_time a :
  sat only_clock interrupt_only (perf_loop env n end_time a).
Proof. revert a; induction n; intros; simpl; sat_clock. Qed.
#[local] Hint Resolve perf_loop_clock : sat_db.

Lemma wait_listening_clock env n start_time max_wait :
  sat only_clock (fun e => e = RuntimeError \/ e = KeyboardInterrupt)
      (wait_listening env n start_time max_wait).
Proof. induction n; simpl; sat_clock. Qed.

Lemma py_div_clock x y : sat only_clock (fun e => e = ZeroDivisionError) (py_div x y).
Proof. sat_clock. Qed.

Lemma wait_listening_self env n start_time max_wait :
  sat same_self start_errors (wait_listening env n start_time max_wait).
Proof.
  eapply sat_weaken; [apply only_clock_same_self | | apply wait_listening_clock].
  intros e [->| ->]; unfold start_errors; tauto.
Qed.
#[local] Hint Resolve wait_listening_self : sat_db.

Lemma Popen_self env exe : sat same_self start_errors (Popen env exe).
Proof. unfold start_errors. sat_self. Qed.
#[local] Hint Resolve Popen_self : sat_db.

Lemma start_filter_self env fuel : sat same_self start_errors (start_filter env fuel).
Proof. sat_self. Qed.

Lemma terminate_and_wait_self env h :
  sat same_self interrupt_only (terminate_and_wait env h).
Proof. sat_self. Qed.
#[local] Hint Resolve terminate_and_wait_self : sat_db.

Lemma stop_filter_self env : sat same_self interrupt_only (stop_filter env).
Proof. sat_self. Qed.

Lemma self_as_log {A} (E : exn -> Prop) (m : M A) :
  sat same_self E m -> sat log_grows any_exn m.
Proof. apply sat_weaken; [apply same_self_log_grows | intros; exact I]. Qed.

Lemma start_filter_log env fuel : sat log_grows any_exn (start_filter env fuel).
Proof. eapply self_as_log, start_filter_self. Qed.

Lemma stop_filter_log env : sat log_grows any_exn (stop_filter env).
Proof. eapply self_as_log, stop_filter_self. Qed.

Lemma terminate_and_wait_log env h : sat log_grows any_exn (terminate_and_wait env h).
Proof. eapply self_as_log, terminate_and_wait_self. Qed.

Lemma Popen_log env exe : sat log_grows any_exn (Popen env exe).
Proof. eapply self_as_log, Popen_self. Qed.
#[local] Hint Resolve start_filter_log stop_filter_log terminate_and_wait_log Popen_log : sat_db.

Lemma py_div_log x y : sat log_grows any_exn (py_div x y).
Proof. sat_log. Qed.
#[local] Hint Resolve py_div_log : sat_db.

Lemma startup_cycles_log env fuel exe range times :
  sat log_grows any_exn (startup_cycles env fuel exe range times).
Proof. revert times; induction range; intros; simpl; sat_log. Qed.

Lemma memory_loop_log env range readings :
  sat log_grows any_exn (memory_loop env range readings).
Proof. revert readings; induction range; intros; simpl; sat_log. Qed.

Lemma accuracy_loop_log env cases c :
  sat log_grows any_exn (accuracy_loop env cases c).
Proof.
  revert c; induction cases as [|[[url sb] d] rest IH]; intros; simpl; sat_log.
Qed.
#[local] Hint Resolve startup_cycles_log memory_loop_log accuracy_loop_log : sat_db.

Lemma run_phase_log env fuel p : sat log_grows any_exn (run_phase env fuel p).
Proof. destruct p; simpl; sat_log. Qed.

Lemma generate_report_log env : sat log_grows any_exn (generate_report env).
Proof. sat_log. Qed.

(** ** Hoare triples: partial correctness up to fuel *)

Lemma triple_ret {A} (P : State -> Prop) (X : exn -> State -> Prop) (a : A) :
  triple P (ret a) (fun _ => P) X.
Proof. intros s HP; exact HP. Qed.

Lemma triple_conseq {A} (P P' : State -> Prop) (m : M A)
    (Q Q' : A -> State -> Prop) (X X' : exn -> State -> Prop) :
  triple P m Q X ->
  (forall s, P' s -> P s) -> (forall a s, Q a s -> Q' a s) ->
  (forall e s, X e s -> X' e s) ->
  triple P' m Q' X'.
Proof.
  intros H HP HQ HX s Hs. specialize (H s (HP s Hs)).
  destruct (m s) as [[a|e|] s']; auto.
Qed.

Lemma triple_bind {A B} (P : State -> Prop) (m : M A) (k : A -> M B)
    (Q : A -> State -> Prop) (Q' : B -> State -> Prop)
    (X : exn -> State -> Prop) :
  triple P m Q X -> (forall a, triple (Q a) (k a) Q' X) ->
  triple P (bind m k) Q' X.
Proof.
  intros Hm Hk s HP. unfold bind. specialize (Hm s HP).
  destruct (m s) as [[a|e|] s1]; auto. now apply Hk.
Qed.

(** A computation specified by [sat] keeps every assertion that its
    relation transports. *)
Lemma triple_frame {A} (R : State -> State -> Prop) (E : exn -> Prop)
    (P Q : State -> Prop) (X : exn -> State -> Prop) (m : M A) :
  sat R E m ->
  (forall s s', R s s' -> P s -> Q s') ->
  (forall e s s', E e -> R s s' -> P s -> X e s') ->
  triple P m (fun _ => Q) X.
Proof.
  intros Hm HQ HX s HP. destruct (Hm s) as [H He].
  destruct (m s) as [[a|e|] s']; simpl in *; eauto.
Qed.

Lemma triple_try_finally {A} (P : State -> Prop) (body : M A) (fin : M unit)
    (Q : A -> State -> Prop) (X : exn -> State -> Prop)
    (Q' : A -> State -> Prop) (X' : exn -> State -> Prop) :
  triple P body Q X ->
  (forall a, triple (Q a) fin (fun _ => Q' a) X') ->
  (forall e, triple (X e) fin (fun _ => X' e) X') ->
  triple P (try_finally body fin) Q' X'.
Proof.
  intros Hb Hq Hx s HP. unfold try_finally. specialize (Hb s HP).
  destruct (body s) as [[a|e|] s1]; auto.
  - specialize (Hq a s1 Hb). destruct (fin s1) as [[[]|e'|] s2]; auto.
  - specialize (Hx e s1 Hb). destruct (fin s1) as [[[]|e'|] s2]; auto.
Qed.

(** ** C2: the process life cycle *)

Lemma lifecycle_snoc tr ev :
  lifecycle (tr ++ [ev]) = lifecycle_step (lifecycle tr) ev.
Proof. unfold lifecycle. now rewrite fold_left_app. Qed.

Lemma released_proc s s' : same_proc s s' -> released s -> released s'.
Proof. intros [Ht Hp] [H1 H2]. split; congruence. Qed.

Lemma supervised_proc s s' : same_proc s s' -> supervised s -> supervised s'.
Proof. intros [Ht Hp]. unfold supervised. now rewrite Ht, Hp. Qed.

Lemma launched_proc h s s' : same_proc s s' -> launched h s -> launched h s'.
Proof. intros [Ht Hp] [H1 H2]. split; congruence. Qed.

Lemma released_supervised s : released s -> supervised s.
Proof. intros [H1 H2]. unfold supervised. now rewrite H1. Qed.

Lemma at_rest_popen tr h :
  at_rest tr -> lifecycle (tr ++ [EvPopen h]) = Some (Running h).
Proof.
  unfold at_rest. rewrite lifecycle_snoc.
  destruct (lifecycle tr) as [[| |]|]; simpl; intros H; try reflexivity; destruct H.
Qed.

Lemma running_terminate tr h :
  lifecycle tr = Some (Running h) ->
  lifecycle (tr ++ [EvTerminate h]) = Some (Stopped h).
Proof.
  intros H. rewrite lifecycle_snoc, H. simpl. now rewrite Nat.eqb_refl.
Qed.

Lemma stopped_kill tr h :
  lifecycle tr = Some (Stopped h) ->
  lifecycle (tr ++ [EvKill h]) = Some (Stopped h).
Proof.
  intros H. rewrite lifecycle_snoc, H. simpl. now rewrite Nat.eqb_refl.
Qed.

Lemma Popen_launches env exe :
  triple released (Popen env exe) launched (fun _ => released).
Proof.
  intros s [Hp Hr]. unfold Popen, interact, bind, gets, modify, ret, raise; simpl.
  destruct (popen_ok env (step (world s))); simpl.
  - split; [exact Hp | now apply at_rest_popen].
  - split; [exact Hp | exact Hr].
Qed.

(** Whether it returns or is interrupted while waiting, the shutdown
    sequence has sent [terminate] to the process. *)
Lemma terminate_and_wait_stops env h s :
  lifecycle (trace (world s)) = Some (Running h) ->
  lifecycle (trace (world (snd (terminate_and_wait env h s)))) = Some (Stopped h)
  /\ filter_process (snd (terminate_and_wait env h s)) = filter_process s
  /\ fst (terminate_and_wait env h s) <> OutOfFuel.
Proof.
  intros H.
  unfold terminate_and_wait, process_terminate, process_wait_timeout,
    process_kill, process_wait, emit, blocking, interact, bind, gets, modify,
    ret, raise; simpl.
  destruct (interrupted env (S (step (world s)))); simpl.
  - split; [now apply running_terminate | split; [reflexivity | discriminate]].
  - destruct (wait_exits env (S (step (world s)))); simpl.
    + split; [now apply running_terminate | split; [reflexivity | discriminate]].
    + destruct (interrupted env (S (S (S (step (world s)))))); simpl;
        (split; [now apply stopped_kill, running_terminate
                | split; [reflexivity | discriminate]]).
Qed.

Lemma stop_filter_releases env :
  triple supervised (stop_filter env) (fun _ => released) (fun _ => released).
Proof.
  intros s Hs. unfold stop_filter, bind, gets at 1. simpl.
  unfold supervised in Hs. destruct (filter_process s) as [h|] eqn:Hp.
  - destruct (terminate_and_wait_stops env h s Hs) as (Hl & _ & Hf).
    unfold try_finally.
    destruct (terminate_and_wait env h s) as [[[]|e|] s']; simpl in *;
      try (now destruct Hf);
      (split; [reflexivity|]); simpl; unfold at_rest; now rewrite Hl.
  - simpl. split; assumption.
Qed.

Lemma start_filter_supervises env fuel :
  triple released (start_filter env fuel) (fun _ => supervised)
         (fun _ => supervised).
Proof.
  unfold start_filter.
  eapply triple_bind with (Q := fun _ => released).
  { eapply triple_frame with (R := same_proc) (E := any_exn).
    - apply clock_as_proc; [exact I | apply find_filter_executable_clock].
    - apply released_proc.
    - intros e s s' _ HR HP. eapply released_supervised, released_proc; eauto. }
  intros [exe|].
  - eapply triple_bind with (Q := launched).
    { intros s H. pose proof (Popen_launches env exe s H) as HP.
      destruct (Popen env exe s) as [[h|e|] s']; auto.
      now apply released_supervised. }
    intros h. simpl.
    eapply triple_bind with (Q := fun _ => supervised).
    { intros s [H1 H2]. simpl. unfold supervised. simpl. exact H2. }
    intros ?. eapply triple_bind with (Q := fun _ => supervised).
    { eapply triple_frame with (R := same_proc) (E := any_exn).
      - apply clock_as_proc; [exact I | apply time_time_clock].
      - apply supervised_proc.
      - intros e s s' _. apply supervised_proc. }
    intros start_time.
    eapply triple_frame with (R := same_proc) (E := any_exn).
    + eapply sat_weaken; [apply only_clock_same_proc | | apply wait_listening_clock].
      intros; exact I.
    + apply supervised_proc.
    + intros e s s' _. apply supervised_proc.
  - intros s H. simpl. now apply released_supervised.
Qed.

(** Every phase that brackets its body with [start_filter] and
    [stop_filter]. *)
Lemma scoped_phase_releases env fuel (header : log_msg) (rest : M unit) :
  sat same_proc any_exn rest ->
  triple released
    (log_test header ;; try_finally (start_filter env fuel ;; rest) (stop_filter env))
    (fun _ => released) (fun _ => released).
Proof.
  intros Hrest.
  eapply triple_bind with (Q := fun _ => released).
  { eapply triple_frame with (R := same_proc) (E := any_exn).
    - unfold log_test. sat_proc.
    - apply released_proc.
    - intros e s s' _. apply released_proc. }
  intros ?.
  eapply triple_try_finally
    with (Q := fun _ => supervised) (X := fun _ => supervised).
  - eapply triple_bind; [apply start_filter_supervises|].
    intros ?. eapply triple_frame; [exact Hrest | |].
    + apply supervised_proc.
    + intros e s s' _. apply supervised_proc.
  - intros ?. apply stop_filter_releases.
  - intros ?. apply stop_filter_releases.
Qed.

Lemma memory_loop_proc env range readings :
  sat same_proc any_exn (memory_loop env range readings).
Proof. revert readings; induction range; intros; simpl; sat_proc. Qed.

Lemma accuracy_loop_proc env cases c :
  sat same_proc any_exn (accuracy_loop env cases c).
Proof.
  revert c; induction cases as [|[[url sb] d] rest IH]; intros; simpl; sat_proc.
Qed.
#[local] Hint Resolve memory_loop_proc accuracy_loop_proc : sat_db.

Lemma measure_memory_usage_releases env fuel :
  triple released (measure_memory_usage env fuel)
         (fun _ => released) (fun _ => released).
Proof.
  unfold measure_memory_usage, memory_body.
  apply scoped_phase_releases. sat_proc.
Qed.

Lemma measure_filtering_performance_releases env fuel :
  triple released (measure_filtering_performance env fuel)
         (fun _ => released) (fun _ => released).
Proof.
  unfold measure_filtering_performance, filtering_body.
  apply scoped_phase_releases. sat_proc.
Qed.

Lemma test_blocking_accuracy_releases env fuel :
  triple released (test_blocking_accuracy env fuel)
         (fun _ => released) (fun _ => released).
Proof.
  unfold test_blocking_accuracy, accuracy_body.
  apply scoped_phase_releases. sat_proc.
Qed.

Lemma test_concurrent_load_releases env fuel :
  triple released (test_concurrent_load env fuel)
         (fun _ => released) (fun _ => released).
Proof.
  unfold test_concurrent_load, concurrent_body.
  apply scoped_phase_releases. sat_proc.
Qed.

Lemma scoped_phases_release env fuel p :
  p <> Startup ->
  triple released (run_phase env fuel p) (fun _ => released) (fun _ => released).
Proof.
  destruct p; simpl; intros Hp.
  - now destruct Hp.
  - apply measure_memory_usage_releases.
  - apply measure_filtering_performance_releases.
  - apply test_blocking_accuracy_releases.
  - apply test_concurrent_load_releases.
Qed.

Lemma terminate_and_wait_releases env h :
  triple (launched h) (terminate_and_wait env h)
         (fun _ => released) (fun _ => released).
Proof.
  intros s [Hp Hl].
  destruct (terminate_and_wait_stops env h s Hl) as (Hl' & Hp' & _).
  assert (Hrel : released (snd (terminate_and_wait env h s))).
  { split; [congruence|]. unfold at_rest. now rewrite Hl'. }
  destruct (terminate_and_wait env h s) as [[[]|e|] s']; simpl in *; auto.
Qed.

Ltac frame_released :=
  eapply triple_frame with (R := same_proc) (E := any_exn);
  [ unfold store, log_test; sat_proc
  | apply released_proc
  | intros e s s' _ HR HP _; eapply released_proc; eauto ].

Ltac frame_launched h :=
  eapply triple_frame with (R := same_proc) (E := interrupt_only)
                           (Q := launched h);
  [ unfold log_test; sat_proc
  | apply launched_proc
  | intros e s s' He _ _ Hne; now destruct Hne ].

(** The startup phase has no [finally]: between [Popen] and
    [terminate] only an interrupted sleep can raise. *)
Lemma startup_cycle_releases env fuel exe i times :
  triple released (startup_cycle env fuel exe i times)
         (fun _ => released) released_unless_interrupted.
Proof.
  unfold startup_cycle.
  eapply triple_bind with (Q := fun _ => released); [frame_released|].
  intros ?. eapply triple_bind with (Q := fun _ => released); [frame_released|].
  intros start_time. eapply triple_bind with (Q := launched).
  { eapply triple_conseq; [apply Popen_launches | auto | auto |].
    intros e s H _. exact H. }
  intros process.
  eapply triple_bind with (Q := fun _ => launched process);
    [frame_launched process|].
  intros t0. cbv zeta.
  eapply triple_bind with (Q := fun _ => launched process);
    [frame_launched process|].
  intros ready_time.
  eapply triple_bind with (Q := fun _ => launched process);
    [frame_launched process|].
  intros times'. eapply triple_bind with (Q := fun _ => released).
  { eapply triple_conseq; [apply terminate_and_wait_releases | auto | auto |].
    intros e s H _. exact H. }
  intros ?. eapply triple_bind with (Q := fun _ => released); [frame_released|].
  intros ?. intros s H. exact H.
Qed.

Lemma startup_cycles_releases env fuel exe range times :
  triple released (startup_cycles env fuel exe range times)
         (fun _ => released) released_unless_interrupted.
Proof.
  revert times. induction range as [|i rest IH]; intros times; simpl.
  - intros s H. exact H.
  - eapply triple_bind; [apply startup_cycle_releases|]. intros times'. apply IH.
Qed.

Lemma measure_startup_performance_releases env fuel :
  triple released (measure_startup_performance env fuel)
         (fun _ => released) released_unless_interrupted.
Proof.
  unfold measure_startup_performance.
  eapply triple_bind with (Q := fun _ => released); [frame_released|].
  intros ?. eapply triple_bind with (Q := fun _ => released); [frame_released|].
  intros [exe|].
  - eapply triple_bind; [apply startup_cycles_releases|].
    intros times. frame_released.
  - frame_released.
Qed.

(** In a well-formed trace the stops of a process match its starts. *)
Lemma popens_app h tr1 tr2 : popens h (tr1 ++ tr2) = (popens h tr1 + popens h tr2)%nat.
Proof. induction tr1 as [|[]]; simpl; auto. rewrite IHtr1. lia. Qed.

Lemma terminates_app h tr1 tr2 :
  terminates h (tr1 ++ tr2) = (terminates h tr1 + terminates h tr2)%nat.
Proof. induction tr1 as [|[]]; simpl; auto. rewrite IHtr1. lia. Qed.

Lemma lifecycle_counts tr : forall st h,
  lifecycle tr = Some st ->
  popens h tr = (terminates h tr + running_as h st)%nat.
Proof.
  induction tr as [|ev tr IH] using rev_ind; intros st h H.
  - injection H as <-. reflexivity.
  - rewrite lifecycle_snoc in H. rewrite popens_app, terminates_app.
    destruct (lifecycle tr) as [st0|]; [|discriminate H].
    specialize (IH st0 h eq_refl).
    destruct st0 as [|h0|h0], ev as [h1|h1|h1]; simpl in H; try discriminate H;
      try (destruct (Nat.eqb_spec h1 h0); [subst h1|discriminate H]);
      injection H as <-; simpl in *;
      try destruct (Nat.eqb_spec h h0); try destruct (Nat.eqb_spec h h1); lia.
Qed.

Lemma at_rest_counts tr h : at_rest tr -> terminates h tr = popens h tr.
Proof.
  unfold at_rest. destruct (lifecycle tr) as [st|] eqn:E; [|intros []].
  pose proof (lifecycle_counts tr st h E) as H.
  destruct st; simpl in *; intros Hr; try lia; destruct Hr.
Qed.

Lemma terminate_and_wait_returns env h s :
  fst (terminate_and_wait env h s) <> OutOfFuel.
Proof.
  unfold terminate_and_wait, process_terminate, process_wait_timeout,
    process_kill, process_wait, emit, blocking, interact, bind, gets, modify,
    ret, raise; simpl.
  destruct (interrupted env (S (step (world s)))); simpl; [discriminate|].
  destruct (wait_exits env (S (step (world s)))); simpl; [discriminate|].
  destruct (interrupted env (S (S (S (step (world s)))))); simpl; discriminate.
Qed.

Lemma stop_filter_clears env s :
  filter_process (snd (stop_filter env s)) = None.
Proof.
  unfold stop_filter, bind, gets at 1. simpl.
  destruct (filter_process s) as [h|] eqn:Hp; [|exact Hp].
  unfold try_finally.
  pose proof (terminate_and_wait_returns env h s) as Hf.
  destruct (terminate_and_wait env h s) as [[[]|e|] s']; simpl in *;
    [reflexivity | reflexivity | now destruct Hf].
Qed.

Lemma stop_filter_noop env s :
  filter_process s = None -> stop_filter env s = (Ok tt, s).
Proof. intros H. unfold stop_filter, bind, gets. simpl. now rewrite H. Qed.

Lemma released_counts s :
  released s ->
  filter_process s = None
  /\ at_rest (trace (world s))
  /\ forall h, terminates h (trace (world s)) = popens h (trace (world s)).
Proof.
  intros [H1 H2]. repeat split; auto. intros h. now apply at_rest_counts.
Qed.

(** C2.  Every phase that brackets its body with [try]/[finally]
    (memory, throughput, accuracy, concurrency) leaves no process held or
    running on every exit, normal or exceptional, interrupts included: in
    the event trace each [Popen] is followed by exactly one [terminate] of
    that process.  [stop_filter] without a live handle changes nothing and
    raises nothing, also right after a first [stop_filter].  The startup
    phase has no [finally]: it stops each process it starts on every exit
    except an interrupt, but a SIGINT during the readiness polling sleep
    leaves the launched process running and never stopped. *)
Theorem process_leak_invariant :
  (let r := run_phase env_interrupt_6 101 Startup tester0 in
   fst r = Raise KeyboardInterrupt
   /\ trace (world (snd r)) = [EvPopen 0%nat]
   /\ lifecycle (trace (world (snd r))) = Some (Running 0%nat)
   /\ popens 0%nat (trace (world (snd r))) = 1%nat
   /\ terminates 0%nat (trace (world (snd r))) = 0%nat)
  /\ (let r := run_phase env_interrupt_5 101 Memory tester0 in
      fst r = Raise KeyboardInterrupt
      /\ trace (world (snd r)) = [EvPopen 0%nat; EvTerminate 0%nat]
      /\ filter_process (snd r) = None)
  /\ (forall (env : Env) (fuel : nat) (p : phase) (s : State),
         p <> Startup ->
         filter_process s = None -> at_rest (trace (world s)) ->
         fst (run_phase env fuel p s) <> OutOfFuel ->
         let s' := snd (run_phase env fuel p s) in
         filter_process s' = None
         /\ at_rest (trace (world s'))
         /\ forall h, terminates h (trace (world s')) = popens h (trace (world s')))
  /\ (forall (env : Env) (fuel : nat) (s : State),
         filter_process s = None -> at_rest (trace (world s)) ->
         fst (run_phase env fuel Startup s) <> OutOfFuel ->
         fst (run_phase env fuel Startup s) <> Raise KeyboardInterrupt ->
         let s' := snd (run_phase env fuel Startup s) in
         filter_process s' = None
         /\ at_rest (trace (world s'))
         /\ forall h, terminates h (trace (world s')) = popens h (trace (world s')))
  /\ (forall (env : Env) (s : State),
         filter_process s = None -> stop_filter env s = (Ok tt, s))
  /\ (forall (env : Env) (s : State),
         let s1 := snd (stop_filter env s) in
         filter_process s1 = None /\ stop_filter env s1 = (Ok tt, s1)).
Proof.
  split; [|split; [|split; [|split; [|split]]]].
  - vm_compute. repeat split; reflexivity.
  - vm_compute. repeat split; reflexivity.
  - intros env fuel p s Hphase Hp Hr Hfuel s'.
    pose proof (scoped_phases_release env fuel p Hphase s (conj Hp Hr)) as H.
    subst s'. destruct (run_phase env fuel p s) as [[[]|e|] s1]; simpl in *.
    + now apply released_counts.
    + now apply released_counts.
    + now destruct Hfuel.
  - intros env fuel s Hp Hr Hfuel Hint s'.
    pose proof (measure_startup_performance_releases env fuel s (conj Hp Hr)) as H.
    subst s'. simpl run_phase in *.
    destruct (measure_startup_performance env fuel s) as [[[]|e|] s1]; simpl in *.
    + now apply released_counts.
    + apply released_counts, H. intros ->. now apply Hint.
    + now destruct Hfuel.
  - intros env s. apply stop_filter_noop.
  - intros env s s1. subst s1. split.
    + apply stop_filter_clears.
    + apply stop_filter_noop, stop_filter_clears.
Qed.

Lemma process_leak_invariant_witness :
  let s' := snd (run_phase env_coarse_clock 1 Memory tester0) in
  filter_process s' = None
  /\ at_rest (trace (world s'))
  /\ forall h, terminates h (trace (world s')) = popens h (trace (world s')).
Proof.
  destruct process_leak_invariant as (_ & _ & Hscoped & _).
  apply (Hscoped env_coarse_clock 1%nat Memory tester0).
  - discriminate.
  - reflexivity.
  - vm_compute. exact I.
  - vm_compute. discriminate.
Defined.

(** ** C1: what a failing phase does to the run *)

Lemma run_body_run_list env fuel :
  run_body env fuel = run_list env fuel (phases_from Startup).
Proof. reflexivity. Qed.

Lemma phases_from_next p q : next_phase p = Some q -> phases_from p = p :: phases_from q.
Proof. destruct p; simpl; intros H; try discriminate H; injection H as <-; reflexivity. Qed.

Lemma phases_from_head p : exists rest, phases_from p = p :: rest.
Proof. destruct p; simpl; eauto. Qed.

Lemma reaches_run_list env fuel s0 p s :
  reaches env fuel s0 p s ->
  run_list env fuel (phases_from Startup) s0 = run_list env fuel (phases_from p) s.
Proof.
  induction 1 as [|p q s1 s2 Hreach IH Hrun Hnext]; [reflexivity|].
  rewrite IH, (phases_from_next p q Hnext). simpl. unfold bind. now rewrite Hrun.
Qed.

Lemma run_all_tests_after_preflight env fuel s sc ok :
  preflight env s = (Ok ok, sc) ->
  run_all_tests env fuel s =
    if ok then try_except (run_body env fuel) is_Exception run_handler sc
    else (Ok false, sc).
Proof.
  intros H. unfold run_all_tests, bind. rewrite H. destruct ok; reflexivity.
Qed.

(** C1, as the code has it.  After a passed pre-flight check, a
    failure raised inside a phase (any exception deriving from
    [Exception]) is caught by the one handler around the whole [try]
    block: it is logged, the run returns [False], and its final state is
    the failing phase's exit state with that one log line added, so no
    later phase and no report ran.  A failed pre-flight check returns
    [False] before any phase. *)
Theorem phase_failure_ends_run :
  forall (env : Env) (fuel : nat) (s sc : State),
    (preflight env s = (Ok true, sc) ->
     forall (p : phase) (sp sf : State) (e : exn),
       reaches env fuel sc p sp ->
       run_phase env fuel p sp = (Raise e, sf) ->
       is_Exception e = true ->
       run_all_tests env fuel s
       = (Ok false, set_log (fun l => l ++ [MsgTestFailed e]) sf))
    /\ (preflight env s = (Ok false, sc) ->
        run_all_tests env fuel s = (Ok false, sc)).
Proof.
  intros env fuel s sc. split.
  - intros Hpre p sp sf e Hreach Hraise Hexc.
    rewrite (run_all_tests_after_preflight env fuel s sc true Hpre).
    unfold try_except. rewrite run_body_run_list.
    rewrite (reaches_run_list env fuel sc p sp Hreach).
    destruct (phases_from_head p) as [rest ->]. simpl.
    unfold bind at 1. rewrite Hraise, Hexc. reflexivity.
  - intros Hpre. now rewrite (run_all_tests_after_preflight env fuel s sc false Hpre).
Qed.

Lemma phase_failure_ends_run_witness :
  run_all_tests env_no_executable 1 tester0
  = (Ok false,
     set_log (fun l => l ++ [MsgTestFailed FileNotFoundError])
             (snd (run_phase env_no_executable 1 Memory
                     (snd (run_phase env_no_executable 1 Startup
                             (snd (preflight env_no_executable tester0))))))).
Proof.
  refine (proj1 (phase_failure_ends_run env_no_executable 1 tester0
                   (snd (preflight env_no_executable tester0)))
            _ Memory
            (snd (run_phase env_no_executable 1 Startup
                    (snd (preflight env_no_executable tester0))))
            _ FileNotFoundError _ _ _).
  - vm_compute. reflexivity.
  - eapply reaches_next; [apply reaches_first | vm_compute; reflexivity | reflexivity].
  - vm_compute. reflexivity.
  - reflexivity.
Defined.

(** C1, counterexample.  With no filter executable the pre-flight check
    passes and the startup phase returns; the memory phase then raises
    [FileNotFoundError], and the throughput, accuracy and concurrency
    phases never run: their headers are absent from the log. *)
Lemma later_phases_skipped_after_failure :
  let s := snd (run_all_tests env_no_executable 1 tester0) in
  fst (run_all_tests env_no_executable 1 tester0) = Ok false
  /\ In MsgDepsOk (test_log s)
  /\ In (phase_header Memory) (test_log s)
  /\ In (MsgTestFailed FileNotFoundError) (test_log s)
  /\ ~ In (phase_header Throughput) (test_log s)
  /\ ~ In (phase_header Accuracy) (test_log s)
  /\ ~ In (phase_header Concurrency) (test_log s).
Proof.
  vm_compute. repeat split; auto 10.
  all: intros H; repeat (destruct H as [H|H]; [discriminate H|]); exact H.
Qed.

(** ** C3: the accuracy buckets *)

Lemma request_failures_app l1 l2 :
  request_failures (l1 ++ l2) = request_failures l1 + request_failures l2.
Proof. induction l1 as [|[] l1 IH]; simpl; try rewrite IH; lia. Qed.

Lemma acc_on_response_bucket should_block description text c :
  fst (acc_on_response should_block description text c) =
    match should_block, is_blocked text with
    | true, true => mkCounts (correct_blocks c + 1) (correct_allows c)
                             (false_positives c) (false_negatives c)
    | false, false => mkCounts (correct_blocks c) (correct_allows c + 1)
                               (false_positives c) (false_negatives c)
    | true, false => mkCounts (correct_blocks c) (correct_allows c)
                              (false_positives c) (false_negatives c + 1)
    | false, true => mkCounts (correct_blocks c) (correct_allows c)
                              (false_positives c + 1) (false_negatives c)
    end.
Proof.
  unfold acc_on_response. destruct should_block, (is_blocked text); reflexivity.
Qed.

Lemma acc_on_response_total should_block description text c :
  bucket_total (fst (acc_on_response should_block description text c))
  = bucket_total c + 1
  /\ request_failures [snd (acc_on_response should_block description text c)] = 0.
Proof.
  unfold acc_on_response, bucket_total.
  destruct should_block, (is_blocked text); simpl; split; lia.
Qed.

(** ** C5: the score as a function of the results map *)

Lemma contribution_agree (m : metric) (d1 d2 : gmap string Q) :
  d1 !! metric_key m = d2 !! metric_key m -> contribution m d1 = contribution m d2.
Proof. unfold contribution. now intros ->. Qed.

Lemma calculate_grade_spec (d : gmap string Q) :
  calculate_performance_grade d = (spec_score d, grade_of_score (spec_score d)).
Proof.
  rewrite <- calculate_score_spec.
  unfold calculate_performance_grade. reflexivity.
Qed.

Lemma spec_score_insert_pass (d : gmap string Q) (m : metric) (v : Q) :
  passes m v ->
  spec_score (<[metric_key m := v]> d)
  = spec_score d - contribution m d + metric_points m.
Proof.
  intros Hp. unfold spec_score.
  destruct m;
    repeat match goal with
           | |- context [contribution ?k (<[metric_key ?k := _]> _)] =>
               rewrite (contribution_insert_pass k) by exact Hp
           | |- context [contribution ?j (<[metric_key ?k := _]> _)] =>
               rewrite (contribution_insert_ne j k) by discriminate
           end; simpl; lia.
Qed.

(** C5.  The score calculator reads nothing but the five metric entries
    of the map it is given, so equal maps (even maps that merely agree on
    those entries) give the same score and grade; and putting a passing
    value in place of any one metric, all other entries fixed, never
    lowers the score: it raises it by that metric's points when the old
    value was failing. *)
Theorem score_pure_and_monotone :
  (forall d1 d2 : gmap string Q,
      (forall m, d1 !! metric_key m = d2 !! metric_key m) ->
      calculate_performance_grade d1 = calculate_performance_grade d2)
  /\ (forall (d : gmap string Q) (m : metric) (v' : Q),
         passes m v' ->
         fst (calculate_performance_grade d)
         <= fst (calculate_performance_grade (<[metric_key m := v']> d)))
  /\ (forall (d : gmap string Q) (m : metric) (v v' : Q),
         d !! metric_key m = Some v -> ~ passes m v -> passes m v' ->
         fst (calculate_performance_grade (<[metric_key m := v']> d))
         = fst (calculate_performance_grade d) + metric_points m).
Proof.
  split; [|split].
  - intros d1 d2 H. rewrite !calculate_grade_spec.
    assert (Hs : spec_score d1 = spec_score d2).
    { unfold spec_score.
      rewrite (contribution_agree MStartup d1 d2), (contribution_agree MMemory d1 d2),
        (contribution_agree MThroughput d1 d2), (contribution_agree MAccuracy d1 d2),
        (contribution_agree MConcurrency d1 d2) by apply H.
      reflexivity. }
    now rewrite Hs.
  - intros d m v' Hp. rewrite !calculate_score_spec, spec_score_insert_pass by exact Hp.
    pose proof (contribution_range m d). lia.
  - intros d m v v' Hv Hfail Hp.
    rewrite !calculate_score_spec, spec_score_insert_pass by exact Hp.
    assert (Hc : contribution m d = 0).
    { unfold contribution. rewrite Hv.
      destruct (passesb m v) eqn:E; [|reflexivity].
      apply passesb_iff in E. contradiction. }
    lia.
Qed.

Lemma score_pure_and_monotone_witness :
  fst (calculate_performance_grade {["avg_startup_time"%string := 2500%Q]})
  <= fst (calculate_performance_grade
            (<[metric_key MStartup := 1500%Q]> {["avg_startup_time"%string := 2500%Q]}))
  /\ fst (calculate_performance_grade
            (<[metric_key MStartup := 1500%Q]> {["avg_startup_time"%string := 2500%Q]}))
     = fst (calculate_performance_grade {["avg_startup_time"%string := 2500%Q]})
       + metric_points MStartup.
Proof.
  destruct score_pure_and_monotone as (_ & Hmono & Hstep). split.
  - apply (Hmono _ MStartup 1500%Q). reflexivity.
  - apply (Hstep _ MStartup 2500%Q 1500%Q).
    + reflexivity.
    + vm_compute. discriminate.
    + reflexivity.
Defined.

(** ** C6: the blocked predicate *)

Lemma prefix_spec (needle haystack : string) :
  String.prefix needle haystack = true
  <-> exists after, haystack = String.append needle after.
Proof.
  revert haystack. induction needle as [|a needle IH]; intros haystack; simpl.
  - split; [intros _; exists haystack; reflexivity | now destruct haystack].
  - destruct haystack as [|b haystack].
    + split; [discriminate | intros [after H]; discriminate H].
    + simpl. destruct (Ascii.ascii_dec a b) as [->|Hne].
      * rewrite IH. split; intros [after H]; exists after.
        -- now rewrite H.
        -- now injection H.
      * split; [discriminate|]. intros [after H]. injection H as H1 H2.
        now destruct Hne.
Qed.

Lemma str_contains_spec (needle haystack : string) :
  str_contains needle haystack = true <-> Substring needle haystack.
Proof.
  unfold Substring. induction haystack as [|a rest IH].
  - change (str_contains needle "")
      with (if String.prefix needle "" then true else false).
    destruct (String.prefix needle "") eqn:E.
    + split; [|reflexivity]. intros _. apply prefix_spec in E as [after H].
      exists ""%string, after. exact H.
    + split; [discriminate|]. intros (before & after & H).
      destruct before; [|discriminate H].
      assert (String.prefix needle "" = true) by (apply prefix_spec; eauto).
      congruence.
  - change (str_contains needle (String a rest))
      with (if String.prefix needle (String a rest) then true
            else str_contains needle rest).
    destruct (String.prefix needle (String a rest)) eqn:E.
    + split; [|reflexivity]. intros _. apply prefix_spec in E as [after H].
      exists ""%string, after. exact H.
    + rewrite IH. split.
      * intros (before & after & H). exists (String a before), after.
        simpl. now rewrite H.
      * intros (before & after & H). destruct before as [|b before].
        -- assert (String.prefix needle (String a rest) = true)
             by (apply prefix_spec; eauto).
           congruence.
        -- injection H as _ H. eauto.
Qed.

(** ** C7: the throughput phase with duration 0 *)

Lemma block_rate_of_guarded (a : perf_acc) (s : State) :
  exists q, block_rate_of a s = (Ok q, s)
            /\ (request_count a <= 0 -> q = 0%Q).
Proof.
  unfold block_rate_of. destruct (Z.ltb_spec 0 (request_count a)) as [Hpos|Hle].
  - unfold py_div.
    assert (Hnz : Qeq_bool (inject_Z (request_count a)) 0 = false).
    { destruct (Qeq_bool (inject_Z (request_count a)) 0) eqn:E; [|reflexivity].
      apply Qeq_bool_eq in E. unfold Qeq in E. simpl in E. lia. }
    rewrite Hnz. eexists. split; [reflexivity | lia].
  - exists 0%Q. split; [reflexivity | reflexivity].
Qed.

(** With a deadline that has already passed the [while] loop is not
    entered. *)
Lemma perf_loop_deadline_passed env n end_time a s :
  (0 <= cost env (step (world s)))%Q ->
  (end_time <= now (world s))%Q ->
  exists s', perf_loop env (S n) end_time a s = (Ok a, s')
             /\ only_clock s s'.
Proof.
  intros Hcost Hend. simpl.
  unfold time_time, interact, bind, gets, modify, ret. simpl.
  assert (Hlt : Qlt_bool (now (world s) + cost env (step (world s))) end_time = false).
  { destruct (Qlt_bool _ end_time) eqn:E; [|reflexivity].
    apply Qlt_bool_iff in E. lra. }
  rewrite Hlt. eexists. split; [reflexivity|].
  destruct s as [? ? ? ? ? ? []]. reflexivity.
Qed.

(** C7.  The blocked-rate expression never divides by zero and is 0
    when no request was counted; on a clock that advances between the
    readings, duration 0 records 0 requests and blocked rate 0.  But the
    requests-per-second division one line earlier is unguarded: on a clock
    too coarse to separate the readings the elapsed time is 0.0, the phase
    raises [ZeroDivisionError], and neither the request total nor the
    blocked rate is recorded. *)
Theorem zero_duration_throughput :
  (forall (a : perf_acc) (s : State),
      exists q, block_rate_of a s = (Ok q, s)
                /\ (request_count a <= 0 -> q = 0%Q))
  /\ (let s' := snd (measure_filtering_performance env_fine_clock 1
                       (FilterPerformanceTest 0 50 None world0)) in
      fst (measure_filtering_performance env_fine_clock 1
             (FilterPerformanceTest 0 50 None world0)) = Ok tt
      /\ test_results s' !! "total_requests" = Some 0%Q
      /\ test_results s' !! "block_rate" = Some 0%Q)
  /\ (let s' := snd (measure_filtering_performance env_coarse_clock 1
                       (FilterPerformanceTest 0 50 None world0)) in
      fst (measure_filtering_performance env_coarse_clock 1
             (FilterPerformanceTest 0 50 None world0)) = Raise ZeroDivisionError
       /\ test_results s' !! "total_requests" = None
       /\ test_results s' !! "block_rate" = None).
Proof.
  split; [exact block_rate_of_guarded | split].
  - vm_compute. repeat split; reflexivity.
  - vm_compute. repeat split; reflexivity.
Qed.

(** ** C9: the configuration and the concurrency division *)

Lemma Qeq_bool_inject_nonzero (n : Z) : n <> 0 -> Qeq_bool (inject_Z n) 0 = false.
Proof.
  intros Hn. destruct (Qeq_bool (inject_Z n) 0) eqn:E; [|reflexivity].
  apply Qeq_bool_eq in E. unfold Qeq in E. simpl in E. lia.
Qed.

Lemma sat_bind_raise {A B} (R : State -> State -> Prop) (E : exn -> Prop)
    (e : exn) (k : A -> M B) :
  (forall s, R s s) -> E e -> sat R E (bind (raise e) k).
Proof.
  intros Hrefl He s. unfold bind, raise. simpl. split; [apply Hrefl|].
  intros e' H. injection H as <-. exact He.
Qed.

Lemma concurrent_measure_no_zero_division env n :
  sat any_state not_zero_division (concurrent_measure env n).
Proof.
  unfold concurrent_measure, thread_pool_results.
  destruct (Z.leb_spec n 0) as [Hle|Hpos].
  - apply (sat_bind _ _ any_state_trans); [unfold log_test; sat_any|]. intros ?.
    apply (sat_bind _ _ any_state_trans); [sat_any|]. intros start_time.
    apply sat_bind_raise; [apply any_state_refl | discriminate].
  - assert (Hdiv : forall x, sat any_state not_zero_division (py_div x (inject_Z n))).
    { intros x. unfold py_div. rewrite Qeq_bool_inject_nonzero by lia.
      apply (sat_ret _ _ any_state_refl). }
    unfold store, log_test. sat_any.
Qed.

Lemma concurrent_measure_rejects env n s :
  n <= 0 -> exists s', concurrent_measure env n s = (Raise ValueError, s').
Proof.
  intros Hle. unfold concurrent_measure, thread_pool_results.
  rewrite (proj2 (Z.leb_le n 0) Hle).
  unfold log_test, time_time, interact, bind, gets, modify, ret, raise. simpl.
  eexists. reflexivity.
Qed.

Lemma start_filter_no_zero_division env fuel :
  sat any_state not_zero_division (start_filter env fuel).
Proof.
  eapply sat_weaken; [| |apply start_filter_self].
  - intros; exact I.
  - intros e [->|[->|[->| ->]]]; discriminate.
Qed.

Lemma stop_filter_no_zero_division env :
  sat any_state not_zero_division (stop_filter env).
Proof.
  eapply sat_weaken; [| |apply stop_filter_self].
  - intros; exact I.
  - intros e ->; discriminate.
Qed.

Lemma test_concurrent_load_no_zero_division env fuel :
  sat any_state not_zero_division (test_concurrent_load env fuel).
Proof.
  pose proof (start_filter_no_zero_division env fuel).
  pose proof (stop_filter_no_zero_division env).
  pose proof (concurrent_measure_no_zero_division env).
  unfold test_concurrent_load, concurrent_body, log_test. sat_any.
Qed.

Lemma test_concurrent_load_needs_worker env fuel s s' :
  test_concurrent_load env fuel s = (Ok tt, s') -> 1 <= concurrent_connections s.
Proof.
  unfold test_concurrent_load, concurrent_body, try_finally.
  unfold bind at 1. unfold log_test at 1, modify at 1.
  set (s1 := set_log _ s).
  unfold bind at 1.
  destruct (start_filter_self env fuel s1) as [(_ & Hc1 & _) _].
  destruct (start_filter env fuel s1) as [[[]|e|] s2]; simpl in Hc1.
  - unfold bind at 1.
    destruct (time_sleep_clock env 3 s2) as [Hc2 _].
    apply only_clock_same_self in Hc2. destruct Hc2 as (_ & Hc2 & _).
    destruct (time_sleep env 3 s2) as [[[]|e|] s3]; simpl in Hc2.
    + unfold bind at 1, gets at 1.
      destruct (Z_le_gt_dec (concurrent_connections s3) 0) as [Hle|Hgt].
      * destruct (concurrent_measure_rejects env _ s3 Hle) as [s4 ->].
        destruct (stop_filter env s4) as [[[]|?|] ?]; discriminate.
      * intros _. rewrite Hc2, Hc1 in Hgt. subst s1. simpl in Hgt. lia.
    + destruct (stop_filter env s3) as [[[]|?|] ?]; discriminate.
    + discriminate.
  - destruct (stop_filter env s2) as [[[]|?|] ?]; discriminate.
  - discriminate.
Qed.

(** C9, as the code has it.  The configuration stores the two integers
    of the command line as given, 30 and 50 when a flag is absent, with no
    range check.  The concurrency phase still never divides by zero: a
    normal return of the phase needs a concurrency level of at least 1,
    because the worker pool refuses a smaller one with [ValueError] before
    the success-rate division is reached. *)
Theorem configuration_unchecked_division_unreachable :
  (forall (cl : command_line) (w : World),
      let a := parse_args cl in
      let tester := FilterPerformanceTest (duration a) (connections a) (output a) w in
      test_duration tester = default 30 (flag_duration cl)
      /\ concurrent_connections tester = default 50 (flag_connections cl))
  /\ (forall (env : Env) (fuel : nat) (s : State),
         fst (test_concurrent_load env fuel s) <> Raise ZeroDivisionError)
  /\ (forall (env : Env) (fuel : nat) (s s' : State),
         test_concurrent_load env fuel s = (Ok tt, s') ->
         1 <= concurrent_connections s)
  /\ (forall (env : Env) (n : Z) (s : State),
         n <= 0 ->
         exists s', concurrent_measure env n s = (Raise ValueError, s')).
Proof.
  split; [|split; [|split]].
  - intros cl w. split; reflexivity.
  - intros env fuel s H.
    destruct (test_concurrent_load_no_zero_division env fuel s) as [_ He].
    now apply (He ZeroDivisionError).
  - apply test_concurrent_load_needs_worker.
  - apply concurrent_measure_rejects.
Qed.

Lemma configuration_unchecked_division_unreachable_witness :
  1 <= concurrent_connections tester0
  /\ exists s', concurrent_measure env_coarse_clock 0 tester0 = (Raise ValueError, s').
Proof.
  destruct configuration_unchecked_division_unreachable as (_ & _ & Hok & Hrej).
  split.
  - apply (Hok env_coarse_clock 1%nat tester0
             (snd (test_concurrent_load env_coarse_clock 1 tester0))).
    vm_compute. reflexivity.
  - apply (Hrej env_coarse_clock 0 tester0). lia.
Defined.

(** C9, counterexample.  [--duration 0 --connections 0] is accepted
    and stored: the configuration has duration 0 and concurrency 0. *)
Lemma zero_flags_accepted :
  let a := parse_args (mkCommandLine (Some 0) (Some 0) None) in
  let tester := FilterPerformanceTest (duration a) (connections a) (output a) world0 in
  test_duration tester = 0
  /\ concurrent_connections tester = 0
  /\ ~ (test_duration tester > 0 /\ concurrent_connections tester >= 1).
Proof. simpl. repeat split. lia. Qed.

(** ** C10: the pre-flight check *)

Lemma import_world_loaded found name w w1 :
  import_world found name w = Some w1 ->
  existsb (String.eqb name) (sys_modules w1) = true.
Proof.
  unfold import_world.
  destruct (existsb (String.eqb name) (sys_modules w)) eqn:E.
  - intros H; injection H as <-. exact E.
  - destruct (found name); [|discriminate].
    intros H; injection H as <-. simpl. now rewrite String.eqb_refl.
Qed.

Lemma import_world_keeps found name other w w1 :
  import_world found name w = Some w1 ->
  existsb (String.eqb other) (sys_modules w) = true ->
  existsb (String.eqb other) (sys_modules w1) = true.
Proof.
  unfold import_world.
  destruct (existsb (String.eqb name) (sys_modules w)).
  - intros H; injection H as <-. auto.
  - destruct (found name); [|discriminate].
    intros H; injection H as <-. simpl. intros ->. apply orb_true_r.
Qed.

Lemma module_level_requests env w w' :
  module_level env w = Ok w' ->
  existsb (String.eqb "requests") (sys_modules w') = true.
Proof.
  unfold module_level.
  destruct (import_world (import_found env) "requests" w) as [w1|] eqn:E1;
    [|discriminate].
  pose proof (import_world_loaded _ _ _ _ E1) as H1.
  destruct (import_world (import_found env) "psutil" w1) as [w2|] eqn:E2;
    intros H; injection H as <-; cbn [sys_modules].
  - eapply import_world_keeps; eauto.
  - exact H1.
Qed.

Lemma check_dependencies_passes env s :
  existsb (String.eqb "requests") (sys_modules (world s)) = true ->
  exists s', check_dependencies env s = (Ok true, s')
             /\ world s' = world s
             /\ filter_process s' = filter_process s
             /\ test_results s' = test_results s.
Proof.
  intros H.
  unfold check_dependencies, try_except, import_module, import_world, log_test,
    bind, gets, modify, ret. cbn -[String.eqb existsb]. rewrite H.
  cbn -[String.eqb existsb].
  destruct (HAS_PSUTIL (world s)); simpl; eexists; repeat split;
    destruct s as [? ? ? ? ? ? []]; reflexivity.
Qed.

Lemma preflight_passes env s :
  existsb (String.eqb "requests") (sys_modules (world s)) = true ->
  exists s', preflight env s = (Ok true, s').
Proof.
  intros H. unfold preflight. unfold bind at 1, log_test at 1, modify at 1.
  unfold bind at 1, gets at 1. unfold bind at 1, gets at 1.
  unfold bind at 1, log_test at 1, modify at 1.
  match goal with
  | |- context [check_dependencies env ?s1] =>
      destruct (check_dependencies_passes env s1 H) as (s' & E & _)
  end.
  exists s'. exact E.
Qed.

Lemma sat_log_in {A} (E : exn -> Prop) (m : M A) (s : State) (x : log_msg) :
  sat log_grows E m -> In x (test_log s) -> In x (test_log (snd (m s))).
Proof.
  intros Hm Hx. destruct (Hm s) as [[l Hl] _]. rewrite Hl.
  apply in_or_app. now left.
Qed.

(** A line logged first stays in the log whatever follows. *)
Lemma bind_log_established {A B} (msg : log_msg) (k : unit -> M A)
    (K : A -> M B) (s : State) :
  (forall u, sat log_grows any_exn (k u)) ->
  (forall a, sat log_grows any_exn (K a)) ->
  In msg (test_log (snd (bind (bind (log_test msg) k) K s))).
Proof.
  intros Hk HK.
  change (bind (bind (log_test msg) k) K s)
    with (bind (k tt) K (set_log (fun l => l ++ [msg]) s)).
  apply (sat_log_in any_exn).
  - apply (sat_bind _ _ log_grows_trans); auto.
  - simpl. apply in_or_app. right. now left.
Qed.

Lemma run_handler_keeps_log env fuel (x : log_msg) (s : State) :
  In x (test_log (snd (run_body env fuel s))) ->
  In x (test_log (snd (try_except (run_body env fuel) is_Exception
                                  run_handler s))).
Proof.
  unfold try_except. destruct (run_body env fuel s) as [[b|e|] s1]; simpl; auto.
  destruct (is_Exception e); simpl; auto.
  intros H. apply in_or_app. now left.
Qed.

Lemma measure_memory_usage_log env fuel :
  sat log_grows any_exn (measure_memory_usage env fuel).
Proof. apply (run_phase_log env fuel Memory). Qed.

Lemma measure_filtering_performance_log env fuel :
  sat log_grows any_exn (measure_filtering_performance env fuel).
Proof. apply (run_phase_log env fuel Throughput). Qed.

Lemma test_blocking_accuracy_log env fuel :
  sat log_grows any_exn (test_blocking_accuracy env fuel).
Proof. apply (run_phase_log env fuel Accuracy). Qed.

Lemma test_concurrent_load_log env fuel :
  sat log_grows any_exn (test_concurrent_load env fuel).
Proof. apply (run_phase_log env fuel Concurrency). Qed.

#[local] Hint Resolve measure_memory_usage_log measure_filtering_performance_log
  test_blocking_accuracy_log test_concurrent_load_log generate_report_log : sat_db.

Lemma run_body_logs_startup_header env fuel s :
  In MsgStartupHeader (test_log (snd (run_body env fuel s))).
Proof.
  unfold run_body, measure_startup_performance.
  apply bind_log_established.
  - intros ?. unfold store, log_test. sat_log.
  - intros ?. sat_log.
Qed.

(** C10.  Once the module body has run, [requests] is in
    [sys.modules], so the import inside [check_dependencies] finds it and
    the check returns [True] whatever [psutil] did; the pre-flight check
    of every run passes, and the run goes on into the startup phase. *)
Theorem preflight_check_always_passes :
  forall (env : Env) (w w' : World),
    module_level env w = Ok w' ->
    forall (fuel : nat) (cl : command_line),
      let a := parse_args cl in
      let tester := FilterPerformanceTest (duration a) (connections a) (output a) w' in
      (exists s', check_dependencies env tester = (Ok true, s'))
      /\ (exists s', preflight env tester = (Ok true, s'))
      /\ In (phase_header Startup) (test_log (snd (main env fuel cl w'))).
Proof.
  intros env w w' Hmod fuel cl a tester.
  pose proof (module_level_requests env w w' Hmod) as Hreq.
  assert (Hw : existsb (String.eqb "requests") (sys_modules (world tester)) = true)
    by exact Hreq.
  split; [|split].
  - destruct (check_dependencies_passes env tester Hw) as (s' & E & _). eauto.
  - apply preflight_passes, Hw.
  - destruct (preflight_passes env tester Hw) as [sc Hpre].
    unfold main. fold a. fold tester.
    rewrite (run_all_tests_after_preflight env fuel tester sc true Hpre).
    pose proof (run_handler_keeps_log env fuel MsgStartupHeader sc
                  (run_body_logs_startup_header env fuel sc)) as Hin.
    destruct (try_except (run_body env fuel) is_Exception run_handler sc)
      as [[b|e|] sf]; exact Hin.
Qed.

Lemma preflight_check_always_passes_witness :
  In (phase_header Startup)
     (test_log (snd (main env_no_executable 1 (mkCommandLine None None None)
                          (mkWorld true ["psutil"%string; "requests"%string] 0%Q O O [])))).
Proof.
  apply (preflight_check_always_passes env_no_executable (boot 0%Q)
           (mkWorld true ["psutil"%string; "requests"%string] 0%Q O O [])
           ltac:(vm_compute; reflexivity) 1%nat (mkCommandLine None None None)).
Defined.

(** ** C8: a filter that never becomes ready *)

Lemma poll_ready_times_out env n : forall timeout s,
  (forall i, (0 <= cost env i)%Q) ->
  (forall i, ready_resp env i = false) ->
  (forall i, interrupted env i = false) ->
  ((timeout - now (world s)) * 10 <= inject_Z (Z.of_nat n))%Q ->
  exists s', poll_ready env (S n) timeout s = (Ok None, s').
Proof.
  induction n as [|n IH]; intros timeout s Hcost Hready Hquiet Hleft.
  - simpl. unfold time_time, interact, bind, gets, modify, ret. simpl.
    pose proof (Hcost (step (world s))) as H0.
    assert (Hlt : Qlt_bool (now (world s) + cost env (step (world s))) timeout = false).
    { destruct (Qlt_bool _ timeout) eqn:E; [|reflexivity].
      apply Qlt_bool_iff in E.
      change (inject_Z (Z.of_nat 0)) with 0%Q in Hleft. lra. }
    rewrite Hlt. eexists. reflexivity.
  - change (poll_ready env (S (S n)) timeout)
      with (t <- time_time env ;;
            if Qlt_bool t timeout then
              answered <- get_ready env ;;
              if answered then ready_time <- time_time env ;; ret (Some ready_time)
              else time_sleep env (1 # 10) ;; poll_ready env (S n) timeout
            else ret None).
    set (rec := poll_ready env (S n) timeout).
    unfold time_time at 1, get_ready, time_sleep, blocking, interact, bind, gets,
      modify, ret.
    simpl.
    destruct (Qlt_bool (now (world s) + cost env (step (world s))) timeout) eqn:E;
      [|eexists; reflexivity].
    rewrite Hready. simpl. rewrite !Hquiet. simpl.
    match goal with
    | |- context [rec ?s1] =>
        destruct (IH timeout s1 Hcost Hready Hquiet) as [s' Hs']
    end.
    + simpl.
      pose proof (Hcost (step (world s))) as H0.
      pose proof (Hcost (S (step (world s)))) as H1.
      pose proof (Hcost (S (S (step (world s))))) as H2.
      rewrite Nat2Z.inj_succ in Hleft. unfold Z.succ in Hleft.
      rewrite inject_Z_plus in Hleft. change (inject_Z 1) with 1%Q in Hleft.
      lra.
    + subst rec. rewrite Hs'. eexists. reflexivity.
Qed.

Lemma startup_cycle_times_out env fuel exe i times s :
  (forall i, (0 <= cost env i)%Q) ->
  (forall i, ready_resp env i = false) ->
  (forall i, interrupted env i = false) ->
  (forall i, popen_ok env i = true) ->
  (101 <= fuel)%nat ->
  exists s1, startup_cycle env fuel exe i times s = (Ok times, s1)
             /\ test_log s1 = test_log s ++ [MsgStartupTest i; MsgStartupTimeout]
             /\ test_results s1 = test_results s.
Proof.
  intros Hcost Hready Hquiet Hpopen Hfuel.
  destruct fuel as [|n]; [lia|].
  unfold startup_cycle.
  set (poll := poll_ready env (S n)).
  unfold terminate_and_wait, process_terminate, process_wait_timeout,
    process_kill, process_wait, emit, time_sleep, log_test, time_time, Popen,
    blocking, interact, bind, gets, modify, ret.
  simpl. rewrite Hpopen. simpl.
  match goal with
  | |- context [poll ?timeout ?s0] =>
      destruct (poll_ready_times_out env n timeout s0 Hcost Hready Hquiet)
        as [s' Hs'];
      [ | pose proof (proj1 (poll_ready_clock env (S n) timeout s0)) as Hclk ]
  end.
  - simpl.
    assert (H100 : (100 <= inject_Z (Z.of_nat n))%Q).
    { change 100%Q with (inject_Z 100). rewrite <- Zle_Qle. lia. }
    lra.
  - subst poll. rewrite Hs' in *. simpl in Hclk. unfold only_clock in Hclk.
    simpl.
    assert (Hlog : test_log s' = test_log s ++ [MsgStartupTest i])
      by (rewrite Hclk; reflexivity).
    assert (Hres : test_results s' = test_results s)
      by (rewrite Hclk; reflexivity).
    rewrite !Hquiet. simpl.
    destruct (wait_exits env _); simpl; rewrite ?Hquiet; simpl;
      eexists; (split; [reflexivity|]); simpl;
      rewrite Hlog, Hres, <- app_assoc; split; reflexivity.
Qed.

Lemma startup_cycles_time_out env fuel exe :
  (forall i, (0 <= cost env i)%Q) ->
  (forall i, ready_resp env i = false) ->
  (forall i, interrupted env i = false) ->
  (forall i, popen_ok env i = true) ->
  (101 <= fuel)%nat ->
  forall range times s,
  exists s1, startup_cycles env fuel exe range times s = (Ok times, s1)
             /\ test_log s1
                = test_log s
                  ++ flat_map (fun i => [MsgStartupTest i; MsgStartupTimeout]) range
             /\ test_results s1 = test_results s.
Proof.
  intros Hcost Hready Hquiet Hpopen Hfuel range.
  induction range as [|i rest IH]; intros times s.
  - exists s. simpl. rewrite app_nil_r. repeat split.
  - destruct (startup_cycle_times_out env fuel exe i times s Hcost Hready Hquiet Hpopen Hfuel)
      as (s1 & E1 & Hl1 & Hr1).
    destruct (IH times s1) as (s2 & E2 & Hl2 & Hr2).
    exists s2. simpl startup_cycles. unfold bind. rewrite E1. split; [exact E2|].
    split; [|congruence].
    rewrite Hl2, Hl1, <- app_assoc. reflexivity.
Qed.

Lemma measure_startup_never_ready env fuel s :
  (forall i, (0 <= cost env i)%Q) ->
  (forall i, ready_resp env i = false) ->
  (forall i, interrupted env i = false) ->
  (forall i, popen_ok env i = true) ->
  (101 <= fuel)%nat ->
  exists s', measure_startup_performance env fuel s = (Ok tt, s')
             /\ test_results s' = test_results s.
Proof.
  intros Hcost Hready Hquiet Hpopen Hfuel.
  unfold measure_startup_performance.
  unfold bind at 1, log_test at 1, modify at 1.
  unfold bind at 1, find_filter_executable, interact, bind, gets, modify, ret.
  cbn [fst snd].
  destruct (exe_found env _) as [exe|].
  - match goal with
    | |- context [startup_cycles env fuel exe ?range ?times ?s0] =>
        destruct (startup_cycles_time_out env fuel exe Hcost Hready Hquiet Hpopen Hfuel
                    range times s0) as (s1 & E & _ & Hr)
    end.
    rewrite E. exists s1. split; [reflexivity | exact Hr].
  - eexists. split; reflexivity.
Qed.

Lemma run_body_logs_memory_header env fuel s s' :
  measure_startup_performance env fuel s = (Ok tt, s') ->
  In MsgMemoryHeader (test_log (snd (run_body env fuel s))).
Proof.
  intros H. unfold run_body. unfold bind at 1. rewrite H.
  unfold measure_memory_usage.
  apply bind_log_established.
  - intros ?. sat_log.
  - intros ?. sat_log.
Qed.

(** C8.  When the filter never answers the readiness probe (and the
    run is not interrupted), every startup cycle runs into its 10-second
    deadline: the cycle logs the timeout and leaves the list of startup
    times as it was (nothing, in particular no zero, is appended).  The phase returns normally and
    records no startup metric, so startup adds nothing to the score, and
    the [try] block goes on into the memory phase. *)
Theorem never_ready_startup_degrades :
  forall (env : Env) (fuel : nat) (s : State),
    (forall i, (0 <= cost env i)%Q) ->
    (forall i, ready_resp env i = false) ->
    (forall i, interrupted env i = false) ->
    (forall i, popen_ok env i = true) ->
    (101 <= fuel)%nat ->
    (forall (exe : string) (i : Z) (times : list Q) (s0 : State),
        exists s1, startup_cycle env fuel exe i times s0 = (Ok times, s1)
                   /\ test_log s1
                      = test_log s0 ++ [MsgStartupTest i; MsgStartupTimeout]
                   /\ test_results s1 = test_results s0)
    /\ (exists s', measure_startup_performance env fuel s = (Ok tt, s')
                   /\ test_results s' = test_results s
                   /\ (test_results s !! "avg_startup_time" = None ->
                       test_results s' !! "avg_startup_time" = None
                       /\ contribution MStartup (test_results s') = 0))
    /\ In (phase_header Memory) (test_log (snd (run_body env fuel s)))
    /\ In (phase_header Memory)
          (test_log (snd (try_except (run_body env fuel) is_Exception
                                     run_handler s))).
Proof.
  intros env fuel s Hcost Hready Hquiet Hpopen Hfuel.
  destruct (measure_startup_never_ready env fuel s Hcost Hready Hquiet Hpopen Hfuel)
    as (s' & E & Hr).
  pose proof (run_body_logs_memory_header env fuel s s' E) as Hin.
  split; [|split; [|split]].
  - intros exe i times s0. now apply startup_cycle_times_out.
  - exists s'. split; [exact E|]. split; [exact Hr|].
    intros Hnone. rewrite Hr. split; [exact Hnone|].
    unfold contribution. simpl metric_key. now rewrite Hnone.
  - exact Hin.
  - now apply run_handler_keeps_log.
Qed.

Lemma never_ready_startup_degrades_witness :
  (exists s', measure_startup_performance env_never_ready 101 tester0 = (Ok tt, s')
              /\ test_results s' = test_results tester0
              /\ (test_results tester0 !! "avg_startup_time" = None ->
                  test_results s' !! "avg_startup_time" = None
                  /\ contribution MStartup (test_results s') = 0))
  /\ In (phase_header Memory)
        (test_log (snd (run_body env_never_ready 101 tester0))).
Proof.
  destruct (never_ready_startup_degrades env_never_ready 101 tester0)
    as (_ & H1 & H2 & _).
  - intros i. simpl. apply Qle_refl.
  - intros i. reflexivity.
  - intros i. reflexivity.
  - intros i. reflexivity.
  - lia.
  - split; [exact H1 | exact H2].
Defined.

(** ** Minimum, mean and maximum of a list of measurements *)

Lemma Qleast_le_l (a b : Q) : (Qleast a b <= a)%Q.
Proof.
  unfold Qleast. destruct (Qle_bool a b) eqn:E; [apply Qle_refl|].
  destruct (Qlt_le_dec b a) as [H|H]; [now apply Qlt_le_weak|].
  apply Qle_bool_iff in H. congruence.
Qed.

Lemma Qleast_le_r (a b : Q) : (Qleast a b <= b)%Q.
Proof.
  unfold Qleast. destruct (Qle_bool a b) eqn:E; [|apply Qle_refl].
  now apply Qle_bool_iff.
Qed.

Lemma Qmost_ge_l (a b : Q) : (a <= Qmost a b)%Q.
Proof.
  unfold Qmost. destruct (Qle_bool a b) eqn:E; [|apply Qle_refl].
  now apply Qle_bool_iff.
Qed.

Lemma Qmost_ge_r (a b : Q) : (b <= Qmost a b)%Q.
Proof.
  unfold Qmost. destruct (Qle_bool a b) eqn:E; [apply Qle_refl|].
  destruct (Qlt_le_dec b a) as [H|H]; [now apply Qlt_le_weak|].
  apply Qle_bool_iff in H. congruence.
Qed.

Lemma fold_least_le (xs : list Q) : forall x,
  (fold_left Qleast xs x <= x)%Q
  /\ forall y, In y xs -> (fold_left Qleast xs x <= y)%Q.
Proof.
  induction xs as [|z xs IH]; intros x; simpl.
  - split; [apply Qle_refl | intros y []].
  - destruct (IH (Qleast x z)) as [H1 H2]. split.
    + eapply Qle_trans; [exact H1 | apply Qleast_le_l].
    + intros y [<-|Hy].
      * eapply Qle_trans; [exact H1 | apply Qleast_le_r].
      * now apply H2.
Qed.

Lemma fold_most_ge (xs : list Q) : forall x,
  (x <= fold_left Qmost xs x)%Q
  /\ forall y, In y xs -> (y <= fold_left Qmost xs x)%Q.
Proof.
  induction xs as [|z xs IH]; intros x; simpl.
  - split; [apply Qle_refl | intros y []].
  - destruct (IH (Qmost x z)) as [H1 H2]. split.
    + eapply Qle_trans; [apply Qmost_ge_l | exact H1].
    + intros y [<-|Hy].
      * eapply Qle_trans; [apply Qmost_ge_r | exact H1].
      * now apply H2.
Qed.

Lemma list_min_le (l : list Q) (y : Q) : In y l -> (list_min l <= y)%Q.
Proof.
  destruct l as [|x xs]; [intros []|]. simpl.
  destruct (fold_least_le xs x) as [H1 H2]. intros [<-|Hy]; auto.
Qed.

Lemma list_max_ge (l : list Q) (y : Q) : In y l -> (y <= list_max l)%Q.
Proof.
  destruct l as [|x xs]; [intros []|]. simpl.
  destruct (fold_most_ge xs x) as [H1 H2]. intros [<-|Hy]; auto.
Qed.

Lemma inject_length_cons {A} (x : A) (l : list A) :
  (inject_Z (Z.of_nat (length (x :: l))) == inject_Z (Z.of_nat (length l)) + 1)%Q.
Proof.
  simpl length. rewrite Nat2Z.inj_succ. unfold Z.succ. rewrite inject_Z_plus.
  reflexivity.
Qed.

Lemma Qsum_lower (l : list Q) (m : Q) :
  (forall y, In y l -> (m <= y)%Q) ->
  (m * inject_Z (Z.of_nat (length l)) <= Qsum l)%Q.
Proof.
  induction l as [|x l IH]; intros H.
  - change (inject_Z (Z.of_nat (length (@nil Q)))) with 0%Q.
    change (Qsum []) with 0%Q. lra.
  - rewrite inject_length_cons. change (Qsum (x :: l)) with (x + Qsum l)%Q.
    assert (H1 : (m <= x)%Q) by (apply H; now left).
    assert (H2 : (m * inject_Z (Z.of_nat (length l)) <= Qsum l)%Q)
      by (apply IH; intros y Hy; apply H; now right).
    lra.
Qed.

Lemma Qsum_upper (l : list Q) (m : Q) :
  (forall y, In y l -> (y <= m)%Q) ->
  (Qsum l <= m * inject_Z (Z.of_nat (length l)))%Q.
Proof.
  induction l as [|x l IH]; intros H.
  - change (inject_Z (Z.of_nat (length (@nil Q)))) with 0%Q.
    change (Qsum []) with 0%Q. lra.
  - rewrite inject_length_cons. change (Qsum (x :: l)) with (x + Qsum l)%Q.
    assert (H1 : (x <= m)%Q) by (apply H; now left).
    assert (H2 : (Qsum l <= m * inject_Z (Z.of_nat (length l)))%Q)
      by (apply IH; intros y Hy; apply H; now right).
    lra.
Qed.

Lemma mean_between (l : list Q) :
  l <> [] -> (list_min l <= mean l)%Q /\ (mean l <= list_max l)%Q.
Proof.
  intros Hne. unfold mean.
  assert (Hlen : (0 < inject_Z (Z.of_nat (length l)))%Q).
  { change 0%Q with (inject_Z 0). rewrite <- Zlt_Qlt.
    destruct l; [contradiction | simpl; lia]. }
  split.
  - apply Qle_shift_div_l; [exact Hlen|]. apply Qsum_lower.
    intros y Hy. now apply list_min_le.
  - apply Qle_shift_div_r; [exact Hlen|]. apply Qsum_upper.
    intros y Hy. now apply list_max_ge.
Qed.

Lemma is_nonempty_true {A} (l : list A) : is_nonempty l = true -> l <> [].
Proof. destruct l; [discriminate | discriminate]. Qed.

(** ** Rates are percentages *)

Lemma percent_bounds (a b : Z) :
  0 <= a <= b -> 0 < b ->
  (0 <= inject_Z a / inject_Z b * 100 <= 100)%Q.
Proof.
  intros [Ha Hab] Hb.
  assert (HbQ : (0 < inject_Z b)%Q).
  { change 0%Q with (inject_Z 0). rewrite <- Zlt_Qlt. exact Hb. }
  assert (H0 : (0 <= inject_Z a / inject_Z b)%Q).
  { apply Qle_shift_div_l; [exact HbQ|]. rewrite Qmult_0_l.
    change 0%Q with (inject_Z 0). rewrite <- Zle_Qle. exact Ha. }
  assert (H1 : (inject_Z a / inject_Z b <= 1)%Q).
  { apply Qle_shift_div_r; [exact HbQ|]. rewrite Qmult_1_l.
    rewrite <- Zle_Qle. exact Hab. }
  set (x := (inject_Z a / inject_Z b)%Q) in *. clearbody x. clear HbQ.
  split; lra.
Qed.

Lemma percent_full (n : Z) : 0 < n -> (inject_Z n / inject_Z n * 100 == 100)%Q.
Proof.
  intros Hn. assert (~ (inject_Z n == 0)%Q).
  { intros H. unfold Qeq in H. simpl in H. lia. }
  field. exact H.
Qed.

Lemma percent_none (b : Z) : (inject_Z 0 / inject_Z b * 100 == 0)%Q.
Proof. unfold Qdiv. change (inject_Z 0) with 0%Q. rewrite !Qmult_0_l. reflexivity. Qed.

(** ** Runs that return: what the request loops received *)

Lemma bind_ok {A B} (m : M A) (k : A -> M B) (s : State) (b : B) (s' : State) :
  bind m k s = (Ok b, s') ->
  exists a s1, m s = (Ok a, s1) /\ k a s1 = (Ok b, s').
Proof.
  unfold bind. destruct (m s) as [[a|e|] s1]; intros H; try discriminate H.
  eauto.
Qed.

Lemma try_finally_ok {A} (body : M A) (fin : M unit) (s : State) (a : A)
    (s' : State) :
  try_finally body fin s = (Ok a, s') ->
  exists s1, body s = (Ok a, s1) /\ fin s1 = (Ok tt, s').
Proof.
  unfold try_finally.
  destruct (body s) as [[a0|e|] s1]; [| |discriminate];
    destruct (fin s1) as [[[]|e'|] s2] eqn:Ef; intros H; try discriminate H.
  injection H as <- <-. exists s1. split; [reflexivity | exact Ef].
Qed.

Lemma log_test_ok msg s u s' :
  log_test msg s = (Ok u, s') -> s' = set_log (fun l => l ++ [msg]) s.
Proof. intros H. injection H as _ <-. reflexivity. Qed.

Lemma time_time_step env s r s' :
  time_time env s = (r, s') ->
  step (world s') = S (step (world s))
  /\ test_results s' = test_results s /\ test_log s' = test_log s.
Proof.
  intros H. apply (f_equal snd) in H. cbn [snd] in H. subst s'.
  repeat split.
Qed.

Lemma requests_get_ok env url s r s' :
  requests_get env url s = (Ok r, s') ->
  r = proxy_resp env (step (world s)) url
  /\ step (world s') = S (step (world s))
  /\ test_results s' = test_results s /\ test_log s' = test_log s.
Proof.
  unfold requests_get, blocking, interact, bind, gets, modify, ret, raise.
  simpl. destruct (interrupted env (step (world s))); intros H;
    [discriminate H|].
  injection H as <- <-. repeat split.
Qed.

(** *** The accuracy loop *)

Lemma in_bucket_cons b r rs :
  in_bucket b (r :: rs) = (if has_verdict b r then 1 else 0) + in_bucket b rs.
Proof.
  unfold in_bucket. simpl. destruct (has_verdict b r); simpl length; lia.
Qed.

Lemma failed_probes_cons r rs :
  failed_probes (r :: rs)
  = (if body_answered (snd r) then 0 else 1) + failed_probes rs.
Proof.
  unfold failed_probes. simpl. destruct (body_answered (snd r));
    simpl length; lia.
Qed.

Lemma blocked_answers_cons r rs :
  blocked_answers (r :: rs)
  = (if body_blocked (snd r) then 1 else 0) + blocked_answers rs.
Proof.
  unfold blocked_answers. simpl. destruct (body_blocked (snd r));
    simpl length; lia.
Qed.

Lemma allowed_answers_cons r rs :
  allowed_answers (r :: rs)
  = (if body_allowed (snd r) then 1 else 0) + allowed_answers rs.
Proof.
  unfold allowed_answers. simpl. destruct (body_allowed (snd r));
    simpl length; lia.
Qed.

Lemma length_probe_responses env i0 cases :
  length (probe_responses env i0 cases) = length cases.
Proof.
  revert i0. induction cases as [|[[url sb] d] rest IH]; intros i0; simpl;
    [reflexivity | now rewrite IH].
Qed.

(** Every probe has one verdict or failed: the buckets and the failures
    partition the probes, and the block pages are the correct blocks and
    the false positives. *)
Lemma verdicts_partition rs :
  in_bucket CorrectBlock rs + in_bucket CorrectAllow rs
  + in_bucket FalsePositive rs + in_bucket FalseNegative rs
  + failed_probes rs = Z.of_nat (length rs)
  /\ in_bucket CorrectBlock rs + in_bucket FalsePositive rs = blocked_answers rs
  /\ in_bucket CorrectAllow rs + in_bucket FalseNegative rs = allowed_answers rs.
Proof.
  induction rs as [|[sb [body|]] rs IH].
  - repeat split.
  - rewrite !in_bucket_cons, failed_probes_cons, blocked_answers_cons,
      allowed_answers_cons.
    unfold has_verdict, probe_verdict, body_blocked, body_allowed,
      body_answered. cbn [fst snd].
    simpl length. destruct sb, (is_blocked body); simpl; lia.
  - rewrite !in_bucket_cons, failed_probes_cons, blocked_answers_cons,
      allowed_answers_cons.
    unfold has_verdict, probe_verdict, body_blocked, body_allowed,
      body_answered. cbn [fst snd].
    simpl length. lia.
Qed.

(** What the loop returns is the tally of the proxy's answers to its
    probes, one per fixture, made in consecutive interactions. *)
Lemma accuracy_loop_exact env cases : forall c s c' s',
  accuracy_loop env cases c s = (Ok c', s') ->
  let rs := probe_responses env (step (world s)) cases in
  correct_blocks c' = correct_blocks c + in_bucket CorrectBlock rs
  /\ correct_allows c' = correct_allows c + in_bucket CorrectAllow rs
  /\ false_positives c' = false_positives c + in_bucket FalsePositive rs
  /\ false_negatives c' = false_negatives c + in_bucket FalseNegative rs
  /\ request_failures (test_log s')
     = request_failures (test_log s) + failed_probes rs
  /\ test_results s' = test_results s.
Proof.
  induction cases as [|[[url sb] d] rest IH]; intros c s c' s' H; cbv zeta.
  - injection H as <- <-. unfold in_bucket, failed_probes. simpl.
    repeat split; lia.
  - cbn [accuracy_loop] in H.
    apply bind_ok in H as (resp & s1 & Hget & H).
    apply requests_get_ok in Hget as (-> & Hstep & Hres & Hlog).
    cbn [probe_responses].
    rewrite !in_bucket_cons, failed_probes_cons.
    unfold has_verdict, probe_verdict, body_answered. cbn [fst snd].
    destruct (proxy_resp env (step (world s)) url) as [body|].
    + pose proof (acc_on_response_bucket sb d body c) as Hb.
      pose proof (acc_on_response_total sb d body c) as [_ Hf].
      destruct (acc_on_response sb d body c) as [c1 msg].
      cbn [fst snd] in Hb, Hf.
      apply bind_ok in H as (u & s2 & Hl & H).
      apply log_test_ok in Hl. subst s2.
      apply IH in H. cbv zeta in H.
      change (step (world (set_log (fun l => l ++ [msg]) s1)))
        with (step (world s1)) in H.
      rewrite Hstep in H.
      destruct H as (H1 & H2 & H3 & H4 & H5 & H6).
      change (test_log (set_log (fun l => l ++ [msg]) s1))
        with (test_log s1 ++ [msg]) in H5.
      rewrite request_failures_app, Hf, Hlog in H5.
      change (test_results (set_log (fun l => l ++ [msg]) s1))
        with (test_results s1) in H6.
      rewrite Hres in H6.
      rewrite H1, H2, H3, H4, H5, H6, Hb.
      destruct sb, (is_blocked body); simpl; repeat split; lia.
    + unfold acc_on_failure in H.
      apply bind_ok in H as (u & s2 & Hl & H).
      apply log_test_ok in Hl. subst s2.
      apply IH in H. cbv zeta in H.
      change (step (world (set_log (fun l => l ++ [MsgRequestFailed d]) s1)))
        with (step (world s1)) in H.
      rewrite Hstep in H.
      destruct H as (H1 & H2 & H3 & H4 & H5 & H6).
      change (test_log (set_log (fun l => l ++ [MsgRequestFailed d]) s1))
        with (test_log s1 ++ [MsgRequestFailed d]) in H5.
      rewrite request_failures_app, Hlog in H5. simpl in H5.
      change (test_results (set_log (fun l => l ++ [MsgRequestFailed d]) s1))
        with (test_results s1) in H6.
      rewrite Hres in H6.
      rewrite H1, H2, H3, H4, H5, H6.
      repeat split; lia.
Qed.

(** The entries of the accuracy phase are the tallies of the proxy's
    answers to the eight probes; each failure left one log line. *)
Lemma accuracy_phase_exact env fuel s s' :
  test_blocking_accuracy env fuel s = (Ok tt, s') ->
  let rs := probe_responses env (accuracy_first_probe env fuel s) test_cases in
  test_results s' !! "correct_blocks" = Some (inject_Z (in_bucket CorrectBlock rs))
  /\ test_results s' !! "correct_allows" = Some (inject_Z (in_bucket CorrectAllow rs))
  /\ test_results s' !! "false_positives" = Some (inject_Z (in_bucket FalsePositive rs))
  /\ test_results s' !! "false_negatives" = Some (inject_Z (in_bucket FalseNegative rs))
  /\ request_failures (test_log s')
     = request_failures (test_log s) + failed_probes rs.
Proof.
  intros H. cbv zeta. unfold test_blocking_accuracy in H.
  apply bind_ok in H as (u & s0 & Hh & H). apply log_test_ok in Hh. subst s0.
  apply try_finally_ok in H as (s2 & Hbody & Hstop).
  unfold accuracy_body in Hbody.
  apply bind_ok in Hbody as (u1 & sa & Hsf & Hbody).
  apply bind_ok in Hbody as (u2 & s1 & Hsl & Hbody).
  apply bind_ok in Hbody as (c & s3 & Hloop & Htail).
  assert (Hi0 : accuracy_first_probe env fuel s = step (world s1)).
  { unfold accuracy_first_probe, bind. rewrite Hsf, Hsl. reflexivity. }
  rewrite Hi0.
  apply accuracy_loop_exact in Hloop. cbv zeta in Hloop.
  destruct Hloop as (H1 & H2 & H3 & H4 & H5 & H6).
  cbn [correct_blocks correct_allows false_positives false_negatives] in H1, H2, H3, H4.
  rewrite Z.add_0_l in H1, H2, H3, H4.
  pose proof (proj1 (start_filter_self env fuel
                      (set_log (fun l => l ++ [MsgAccHeader]) s))) as Hsa.
  rewrite Hsf in Hsa.
  destruct Hsa as (_ & _ & _ & _ & Hla).
  pose proof (proj1 (time_sleep_clock env 3 sa)) as Hs1. rewrite Hsl in Hs1.
  apply only_clock_same_self in Hs1. destruct Hs1 as (_ & _ & _ & _ & Hl1).
  pose proof (proj1 (stop_filter_self env s2)) as Hs'. rewrite Hstop in Hs'.
  destruct Hs' as (_ & _ & _ & Hr' & Hl').
  cbn [snd] in Hla, Hl1, Hr', Hl'.
  cbv zeta in Htail. unfold accuracy_of, py_div in Htail.
  change (0 <? Z.of_nat (length test_cases)) with true in Htail.
  cbv iota in Htail.
  change (Qeq_bool (inject_Z (Z.of_nat (length test_cases))) 0) with false
    in Htail.
  cbv iota in Htail.
  unfold store, log_test, bind, modify, ret in Htail.
  apply (f_equal snd) in Htail. cbn [snd] in Htail. subst s2.
  rewrite Hr', Hl'. cbn [test_results test_log set_results set_log].
  rewrite <- H1, <- H2, <- H3, <- H4.
  split; [simplify_map_eq; reflexivity|].
  split; [simplify_map_eq; reflexivity|].
  split; [simplify_map_eq; reflexivity|].
  split; [simplify_map_eq; reflexivity|].
  rewrite request_failures_app, H5, Hl1, Hla.
  cbn [test_log set_log]. rewrite request_failures_app. simpl. lia.
Qed.

(** *** The throughput loop *)

Lemma probes_between_weaken urls ps : forall lo lo' hi hi',
  (lo' <= lo)%nat -> (hi <= hi')%nat ->
  probes_between urls lo hi ps -> probes_between urls lo' hi' ps.
Proof.
  induction ps as [|[i url] ps IH]; intros lo lo' hi hi' Hlo Hhi; simpl.
  - lia.
  - intros (H1 & H2 & H3). split; [lia|]. split; [exact H2|].
    eapply IH; [| |exact H3]; lia.
Qed.

Lemma probes_between_le urls ps : forall lo hi,
  probes_between urls lo hi ps -> (lo <= hi)%nat.
Proof.
  induction ps as [|[i url] ps IH]; intros lo hi; simpl; [lia|].
  intros (H1 & _ & H3). apply IH in H3. lia.
Qed.

Lemma probes_between_app urls ps1 ps2 : forall lo mid hi,
  probes_between urls lo mid ps1 -> probes_between urls mid hi ps2 ->
  probes_between urls lo hi (ps1 ++ ps2).
Proof.
  induction ps1 as [|[i url] ps1 IH]; intros lo mid hi; simpl.
  - intros H1 H2. eapply probes_between_weaken; [exact H1| |exact H2]. lia.
  - intros (H1 & H2 & H3) H4. split; [exact H1|]. split; [exact H2|].
    eapply IH; eauto.
Qed.

Lemma probes_between_incl urls urls' ps : forall lo hi,
  (forall u, In u urls -> In u urls') ->
  probes_between urls lo hi ps -> probes_between urls' lo hi ps.
Proof.
  induction ps as [|[i url] ps IH]; intros lo hi Hin; simpl; [auto|].
  intros (H1 & H2 & H3). split; [exact H1|]. split; [now apply Hin|].
  now apply IH.
Qed.

Lemma count_probes_app f env ps1 ps2 :
  count_probes f env (ps1 ++ ps2) = count_probes f env ps1 + count_probes f env ps2.
Proof.
  unfold count_probes. rewrite List.filter_app, length_app. lia.
Qed.

Lemma count_probes_range f env ps :
  0 <= count_probes f env ps <= Z.of_nat (length ps).
Proof.
  unfold count_probes. split; [lia|]. apply Nat2Z.inj_le.
  induction ps as [|p ps IH]; simpl; [lia|].
  destruct (f (probe_body env p)); simpl; lia.
Qed.

Lemma blocked_le_answered env ps : blocked_probes env ps <= answered_probes env ps.
Proof.
  unfold blocked_probes, answered_probes, count_probes. apply Nat2Z.inj_le.
  induction ps as [|p ps IH]; simpl; [lia|].
  destruct (probe_body env p) as [body|]; simpl; [|exact IH].
  destruct (is_blocked body); simpl; lia.
Qed.

Lemma perf_extends_nil env a : perf_extends env [] a a.
Proof.
  unfold perf_extends, blocked_probes, answered_probes, count_probes. simpl.
  lia.
Qed.

Lemma perf_extends_app env ps1 ps2 a1 a2 a3 :
  perf_extends env ps1 a1 a2 -> perf_extends env ps2 a2 a3 ->
  perf_extends env (ps1 ++ ps2) a1 a3.
Proof.
  unfold perf_extends, blocked_probes, answered_probes.
  rewrite !count_probes_app, length_app, Nat2Z.inj_add. lia.
Qed.

(** One request of the loop: the counters move by the proxy's answer in
    that interaction. *)
Lemma perf_extends_response env i url text t a :
  proxy_resp env i url = Some text ->
  perf_extends env [(i, url)]%list a (perf_on_response text t a).
Proof.
  intros Hr.
  unfold perf_extends, blocked_probes, answered_probes, count_probes,
    probe_body, perf_on_response.
  cbn [List.filter fst snd]. rewrite Hr.
  cbn [body_blocked body_answered request_count blocked_count response_times].
  rewrite length_app. destruct (is_blocked text); simpl; lia.
Qed.

Lemma perf_extends_failure env i url a :
  proxy_resp env i url = None ->
  perf_extends env [(i, url)]%list a (perf_on_failure a).
Proof.
  intros Hr.
  unfold perf_extends, blocked_probes, answered_probes, count_probes,
    probe_body, perf_on_failure.
  cbn [List.filter fst snd]. rewrite Hr. simpl. lia.
Qed.

Lemma perf_urls_history env end_time urls : forall a s a' s',
  perf_urls env urls end_time a s = (Ok a', s') ->
  exists ps,
    probes_between urls (step (world s)) (step (world s')) ps
    /\ perf_extends env ps a a'
    /\ test_results s' = test_results s.
Proof.
  induction urls as [|url rest IH]; intros a s a' s' H.
  - injection H as <- <-. exists []. simpl. split; [lia|].
    split; [apply perf_extends_nil | reflexivity].
  - cbn [perf_urls] in H.
    apply bind_ok in H as (t0 & s1 & H1 & H).
    apply time_time_step in H1 as (Hs1 & Hr1 & _).
    apply bind_ok in H as (resp & s2 & H2 & H).
    apply requests_get_ok in H2 as (-> & Hs2 & Hr2 & _).
    apply bind_ok in H as (a1 & s3 & H3 & H).
    assert (Hmid : perf_extends env [(step (world s1), url)]%list a a1
                   /\ (step (world s2) <= step (world s3))%nat
                   /\ test_results s3 = test_results s2).
    { destruct (proxy_resp env (step (world s1)) url) as [text|] eqn:Er.
      - apply bind_ok in H3 as (t & s2' & Ht & H3).
        apply time_time_step in Ht as (Hst & Hrt & _).
        injection H3 as <- <-.
        split; [now apply perf_extends_response|]. split; [lia | exact Hrt].
      - injection H3 as <- <-.
        split; [now apply perf_extends_failure|]. split; [lia|reflexivity]. }
    destruct Hmid as (Hext & Hstep & Hres).
    apply bind_ok in H as (t & s4 & H4 & H).
    apply time_time_step in H4 as (Hs4 & Hr4 & _).
    destruct (Qle_bool end_time t).
    + injection H as <- <-. exists [(step (world s1), url)]%list.
      split; [|split; [exact Hext | congruence]].
      simpl. split; [lia|]. split; [now left | lia].
    + apply IH in H as (ps & Hpb & Hext' & Hres').
      exists ((step (world s1), url) :: ps).
      split; [|split].
      * simpl. split; [lia|]. split; [now left|].
        apply probes_between_incl with (urls := rest); [intros u Hu; now right|].
        eapply probes_between_weaken; [| |exact Hpb]; lia.
      * apply (perf_extends_app env [(step (world s1), url)]%list ps a a1 a');
          assumption.
      * congruence.
Qed.

Lemma perf_loop_history env end_time n : forall a s a' s',
  perf_loop env n end_time a s = (Ok a', s') ->
  exists ps,
    probes_between test_urls (step (world s)) (step (world s')) ps
    /\ perf_extends env ps a a'
    /\ test_results s' = test_results s.
Proof.
  induction n as [|n IH]; intros a s a' s' H.
  - discriminate H.
  - cbn [perf_loop] in H.
    apply bind_ok in H as (t & s1 & H1 & H).
    apply time_time_step in H1 as (Hs1 & Hr1 & _).
    destruct (Qlt_bool t end_time).
    + apply bind_ok in H as (a1 & s2 & H2 & H).
      apply perf_urls_history in H2 as (ps1 & Hpb1 & Hext1 & Hres1).
      apply IH in H as (ps2 & Hpb2 & Hext2 & Hres2).
      exists (ps1 ++ ps2). split; [|split].
      * eapply probes_between_weaken with (lo := step (world s1));
          [lia | apply Nat.le_refl |].
        eapply probes_between_app; eauto.
      * eapply perf_extends_app; eauto.
      * congruence.
    + injection H as <- <-. exists []. simpl. split; [lia|].
      split; [apply perf_extends_nil | exact Hr1].
Qed.

(** *** The interaction counter only moves forward *)

Lemma later_refl s : later s s.
Proof. unfold later. lia. Qed.

Lemma later_trans s1 s2 s3 : later s1 s2 -> later s2 s3 -> later s1 s3.
Proof. unfold later. lia. Qed.

Lemma interact_later env : sat later any_exn (interact env).
Proof.
  intros s. unfold interact, bind, gets, modify, ret, later. simpl.
  split; [lia | discriminate].
Qed.
#[local] Hint Resolve interact_later : sat_db.

#[local] Hint Extern 1 (sat later _ (modify _)) =>
  apply sat_modify; intros ?; unfold later; simpl; lia : sat_db.

Ltac sat_later := sat_go later_refl later_trans.

Lemma time_time_later env : sat later any_exn (time_time env).
Proof. sat_later. Qed.

Lemma blocking_later env : sat later any_exn (blocking env).
Proof. sat_later. Qed.
#[local] Hint Resolve time_time_later blocking_later : sat_db.

Lemma time_sleep_later env d : sat later any_exn (time_sleep env d).
Proof. sat_later. Qed.

Lemma get_ready_later env : sat later any_exn (get_ready env).
Proof. sat_later. Qed.
#[local] Hint Resolve time_sleep_later get_ready_later : sat_db.

Lemma wait_listening_later env n start_time max_wait :
  sat later any_exn (wait_listening env n start_time max_wait).
Proof. induction n; simpl; sat_later. Qed.
#[local] Hint Resolve wait_listening_later : sat_db.

Lemma start_filter_later env fuel : sat later any_exn (start_filter env fuel).
Proof. sat_later. Qed.

Lemma stop_filter_later env : sat later any_exn (stop_filter env).
Proof. sat_later. Qed.

Lemma py_div_ok x y s q s' :
  py_div x y s = (Ok q, s') -> s' = s /\ q = (x / y)%Q.
Proof.
  unfold py_div. destruct (Qeq_bool y 0); intros H; [discriminate H|].
  injection H as <- <-. split; reflexivity.
Qed.

Lemma sat_step {A} (R : State -> State -> Prop) (E : exn -> Prop) (m : M A)
    (s : State) (r : result A) (s' : State) :
  sat R E m -> m s = (r, s') -> R s s'.
Proof. intros Hm H. destruct (Hm s) as [HR _]. now rewrite H in HR. Qed.

(** The entries of the throughput phase are the totals of the probes its
    loop made. *)
Lemma throughput_phase_history env fuel s s' :
  measure_filtering_performance env fuel s = (Ok tt, s') ->
  throughput_recorded env s s'.
Proof.
  intros H. unfold measure_filtering_performance in H.
  apply bind_ok in H as (u & s0 & Hh & H). apply log_test_ok in Hh. subst s0.
  apply try_finally_ok in H as (s2 & Hbody & Hstop).
  unfold filtering_body in Hbody.
  apply bind_ok in Hbody as (u1 & sa & Hsf & Hbody).
  apply bind_ok in Hbody as (u2 & sb & Hsl & Hbody).
  apply bind_ok in Hbody as (start_time & sc & Htt & Hbody).
  apply bind_ok in Hbody as (duration & sd & Hg & Hbody).
  injection Hg as _ <-.
  apply bind_ok in Hbody as (u3 & se & Hlg & Hbody).
  apply log_test_ok in Hlg. subst se.
  apply bind_ok in Hbody as (t & sf & Htt2 & Hbody).
  cbv zeta in Hbody.
  apply bind_ok in Hbody as (a & sg & Hloop & Hbody).
  apply bind_ok in Hbody as (t' & sh & Htt3 & Hbody).
  apply bind_ok in Hbody as (rps & si & Hdiv & Htail).
  apply py_div_ok in Hdiv as (-> & Hrps).
  (* the state before the loop *)
  pose proof (sat_step _ _ _ _ _ _ (start_filter_self env fuel) Hsf)
    as (_ & _ & _ & Hra & _).
  pose proof (sat_step _ _ _ _ _ _ (start_filter_later env fuel) Hsf) as Hla.
  pose proof (sat_step _ _ _ _ _ _ (time_sleep_clock env 3) Hsl) as Hcb.
  apply only_clock_same_self in Hcb. destruct Hcb as (_ & _ & _ & Hrb & _).
  pose proof (sat_step _ _ _ _ _ _ (time_sleep_later env 3) Hsl) as Hlb.
  apply time_time_step in Htt as (Hsc & Hrc & _).
  apply time_time_step in Htt2 as (Hsf2 & Hrf & _).
  apply time_time_step in Htt3 as (Hsh & Hrh & _).
  apply perf_loop_history in Hloop as (ps & Hpb & Hext & Hrg).
  pose proof (sat_step _ _ _ _ _ _ (stop_filter_self env) Hstop)
    as (_ & _ & _ & Hr' & _).
  pose proof (sat_step _ _ _ _ _ _ (stop_filter_later env) Hstop) as Hl'.
  unfold later in Hla, Hlb, Hl'.
  cbn [step world set_log test_results] in Hla, Hra, Hsf2, Hrf.
  assert (Hres : test_results sh = test_results s) by congruence.
  destruct Hext as (Hrc' & Hbc & Hlen).
  cbn [request_count blocked_count response_times length] in Hrc', Hbc, Hlen.
  rewrite Z.add_0_l in Hrc', Hbc, Hlen.
  pose proof (blocked_le_answered env ps) as Hba.
  pose proof (count_probes_range body_answered env ps) as Han.
  pose proof (count_probes_range body_blocked env ps) as Hbl.
  fold (answered_probes env ps) in Han. fold (blocked_probes env ps) in Hbl.
  assert (Hrange : probes_between test_urls (step (world s)) (step (world s2)) ps
                   -> probes_between test_urls (step (world s)) (step (world s')) ps).
  { intros Hp. eapply probes_between_weaken; [| |exact Hp]; lia. }
  (* the entries *)
  unfold block_rate_of, py_div in Htail.
  destruct (Z.ltb_spec 0 (request_count a)) as [Hpos|Hzero].
  - rewrite Qeq_bool_inject_nonzero in Htail by lia.
    destruct (response_times a) as [|x xs] eqn:Hrt.
    + unfold store, log_test, bind, gets, modify, ret, raise in Htail.
      apply (f_equal snd) in Htail. cbn [snd is_nonempty] in Htail. subst s2.
      exists ps, (inject_Z (blocked_count a) / inject_Z (request_count a) * 100)%Q.
      cbv zeta. rewrite Hr'.
      cbn [test_results set_results set_log step world] in *.
      simpl in Hlen.
      split; [apply Hrange; eapply probes_between_weaken; [| |exact Hpb]; lia|].
      split; [lia|]. split; [lia|].
      split; [simplify_map_eq; eauto|].
      split; [rewrite <- Hrc'; simplify_map_eq; reflexivity|].
      split; [rewrite <- Hbc; simplify_map_eq; reflexivity|].
      split; [simplify_map_eq; reflexivity|].
      split; [apply percent_bounds; lia|].
      split; [intros Hb0; rewrite Hbc, Hb0; apply percent_none|].
      split; [intros _ Hbt; rewrite Hbc, Hrc', Hbt; apply percent_full; lia|].
      split; [|lia].
      intros _. unfold summary_untouched. rewrite <- Hres.
      simplify_map_eq. auto.
    + assert (Hne : response_times a <> []) by (rewrite Hrt; discriminate).
      unfold store, log_test, bind, gets, modify, ret, raise in Htail.
      apply (f_equal snd) in Htail. cbn [snd is_nonempty] in Htail. subst s2.
      exists ps, (inject_Z (blocked_count a) / inject_Z (request_count a) * 100)%Q.
      cbv zeta. rewrite Hr'.
      cbn [test_results set_results set_log step world] in *.
      simpl length in Hlen.
      split; [apply Hrange; eapply probes_between_weaken; [| |exact Hpb]; lia|].
      split; [lia|]. split; [lia|].
      split; [simplify_map_eq; eauto|].
      split; [rewrite <- Hrc'; simplify_map_eq; reflexivity|].
      split; [rewrite <- Hbc; simplify_map_eq; reflexivity|].
      split; [simplify_map_eq; reflexivity|].
      split; [apply percent_bounds; lia|].
      split; [intros Hb0; rewrite Hbc, Hb0; apply percent_none|].
      split; [intros _ Hbt; rewrite Hbc, Hrc', Hbt; apply percent_full; lia|].
      split; [lia|].
      intros _. rewrite <- Hrt.
      destruct (mean_between (response_times a) Hne) as [Hlo Hhi].
      exists (mean (response_times a)), (list_min (response_times a)),
        (list_max (response_times a)).
      split; [simplify_map_eq; reflexivity|].
      split; [simplify_map_eq; reflexivity|].
      split; [simplify_map_eq; reflexivity|].
      split; assumption.
  - assert (Hrt : response_times a = []).
    { destruct (response_times a); [reflexivity | simpl in Hlen; lia]. }
    rewrite Hrt in *.
    unfold store, log_test, bind, gets, modify, ret, raise in Htail.
    apply (f_equal snd) in Htail. cbn [snd is_nonempty] in Htail. subst s2.
    exists ps, 0%Q.
    cbv zeta. rewrite Hr'.
    cbn [test_results set_results set_log step world] in *.
    simpl in Hlen.
    split; [apply Hrange; eapply probes_between_weaken; [| |exact Hpb]; lia|].
    split; [lia|]. split; [lia|].
    split; [simplify_map_eq; eauto|].
    split; [rewrite <- Hrc'; simplify_map_eq; reflexivity|].
    split; [rewrite <- Hbc; simplify_map_eq; reflexivity|].
    split; [simplify_map_eq; reflexivity|].
    split; [split; [apply Qle_refl | discriminate]|].
    split; [intros _; reflexivity|].
    split; [intros; lia|].
    split; [|lia].
    intros _. unfold summary_untouched. rewrite <- Hres.
    simplify_map_eq. auto.
Qed.

(** ** C3: the accuracy buckets *)

Lemma verdict_unique (r : bool * option string) :
  if body_answered (snd r)
  then exists b, forall b', has_verdict b' r = true <-> b' = b
  else forall b', has_verdict b' r = false.
Proof.
  destruct r as [sb [body|]]; unfold has_verdict, probe_verdict; cbn [fst snd body_answered].
  - exists (bucket_of sb (is_blocked body)). intros b'.
    destruct b', sb, (is_blocked body); simpl; split; congruence.
  - reflexivity.
Qed.

(** C3, as the code has it.  The accuracy loop probes each of the eight
    fixtures once.  A fixture whose probe gets a response goes to exactly
    one bucket, chosen by what the fixture expects and by the blocked test
    on the body the proxy sent; a probe that fails at the network level
    goes to none and only leaves a "Request failed" log line.  The four
    counts recorded are the numbers of probes with each verdict, so they
    add up to the number of fixtures minus the number of failed probes. *)
Theorem accuracy_buckets_partition_answered_probes :
  forall (env : Env) (fuel : nat) (s s' : State),
    test_blocking_accuracy env fuel s = (Ok tt, s') ->
    let rs := probe_responses env (accuracy_first_probe env fuel s) test_cases in
    length rs = length test_cases
    /\ (forall r, In r rs ->
          if body_answered (snd r)
          then exists b, forall b', has_verdict b' r = true <-> b' = b
          else forall b', has_verdict b' r = false)
    /\ test_results s' !! "correct_blocks"
       = Some (inject_Z (in_bucket CorrectBlock rs))
    /\ test_results s' !! "correct_allows"
       = Some (inject_Z (in_bucket CorrectAllow rs))
    /\ test_results s' !! "false_positives"
       = Some (inject_Z (in_bucket FalsePositive rs))
    /\ test_results s' !! "false_negatives"
       = Some (inject_Z (in_bucket FalseNegative rs))
    /\ in_bucket CorrectBlock rs + in_bucket CorrectAllow rs
       + in_bucket FalsePositive rs + in_bucket FalseNegative rs
       = Z.of_nat (length test_cases) - failed_probes rs
    /\ request_failures (test_log s') - request_failures (test_log s)
       = failed_probes rs.
Proof.
  intros env fuel s s' Hrun rs.
  pose proof (accuracy_phase_exact env fuel s s' Hrun) as H. cbv zeta in H.
  fold rs in H. destruct H as (H1 & H2 & H3 & H4 & H5).
  pose proof (verdicts_partition rs) as (Hsum & _ & _).
  assert (Hlen : length rs = length test_cases)
    by apply length_probe_responses.
  split; [exact Hlen|].
  split; [intros r _; apply verdict_unique|].
  split; [exact H1|]. split; [exact H2|]. split; [exact H3|].
  split; [exact H4|].
  split; [rewrite <- Hlen; lia | lia].
Qed.

Lemma accuracy_buckets_partition_answered_probes_witness :
  test_results (snd (test_blocking_accuracy env_blocks_all 1 tester0))
    !! "correct_blocks"
  = Some (inject_Z
            (in_bucket CorrectBlock
               (probe_responses env_blocks_all
                  (accuracy_first_probe env_blocks_all 1 tester0) test_cases)))
  /\ test_results (snd (test_blocking_accuracy env_blocks_all 1 tester0))
       !! "false_positives"
     = Some (inject_Z
               (in_bucket FalsePositive
                  (probe_responses env_blocks_all
                     (accuracy_first_probe env_blocks_all 1 tester0) test_cases))).
Proof.
  destruct (accuracy_buckets_partition_answered_probes env_blocks_all 1 tester0
              (snd (test_blocking_accuracy env_blocks_all 1 tester0))
              ltac:(vm_compute; reflexivity))
    as (_ & _ & H1 & _ & H3 & _).
  split; [exact H1 | exact H3].
Defined.

(** C3, counterexample.  The filter is up but every proxied request
    fails: the phase returns normally, all eight fixtures leave a
    "Request failed" line, and all four counters are recorded as 0.  The
    counts sum to 0, not 8, and no failed probe of an expect-allow fixture
    was counted as a correct allow. *)
Lemma failed_probes_land_in_no_bucket :
  let s' := snd (test_blocking_accuracy env_probes_fail 1 tester0) in
  fst (test_blocking_accuracy env_probes_fail 1 tester0) = Ok tt
  /\ request_failures (test_log s') = 8
  /\ test_results s' !! "correct_blocks" = Some 0%Q
  /\ test_results s' !! "correct_allows" = Some 0%Q
  /\ test_results s' !! "false_positives" = Some 0%Q
  /\ test_results s' !! "false_negatives" = Some 0%Q
  /\ Z.of_nat (length test_cases) = 8.
Proof. vm_compute. repeat split; reflexivity. Qed.

(** ** C6: what counts as blocked *)

Lemma body_blocked_spec (r : option string) :
  body_blocked r = true
  <-> exists body, r = Some body
                   /\ Substring "PocketFence" body
                   /\ Substring "Content Blocked" body.
Proof.
  destruct r as [body|]; simpl.
  - unfold is_blocked. rewrite andb_true_iff, !str_contains_spec. split.
    + intros [H1 H2]. exists body. auto.
    + intros (b & Hb & H1 & H2). injection Hb as ->. auto.
  - split; [discriminate|]. intros (b & Hb & _). discriminate Hb.
Qed.

Lemma body_allowed_spec (r : option string) :
  body_allowed r = true
  <-> exists body, r = Some body
                   /\ ~ (Substring "PocketFence" body
                         /\ Substring "Content Blocked" body).
Proof.
  destruct r as [body|]; simpl.
  - rewrite negb_true_iff. split.
    + intros H. exists body. split; [reflexivity|]. intros Hb.
      assert (body_blocked (Some body) = true)
        by (apply body_blocked_spec; exists body; tauto).
      simpl in *. congruence.
    + intros (b & Hb & Hn). injection Hb as <-.
      destruct (is_blocked body) eqn:E; [|reflexivity].
      exfalso. apply Hn.
      destruct (proj1 (body_blocked_spec (Some body)) E) as (b' & Hb' & H).
      injection Hb' as ->. exact H.
  - split; [discriminate|]. intros (b & Hb & _). discriminate Hb.
Qed.



(** ** Locating the executable *)

Lemma find_first {A} (f : A -> bool) (l : list A) (x : A) :
  List.find f l = Some x ->
  exists l1 l2, l = l1 ++ x :: l2 /\ f x = true /\ forall y, In y l1 -> f y = false.
Proof.
  induction l as [|a l IH]; simpl; [discriminate|].
  destruct (f a) eqn:E.
  - intros H; injection H as <-. exists [], l. repeat split; auto. intros y [].
  - intros H. destruct (IH H) as (l1 & l2 & -> & Hx & Hl1).
    exists (a :: l1), l2. repeat split; auto.
    intros y [<-|Hy]; auto.
Qed.

Lemma find_none_iff {A} (f : A -> bool) (l : list A) :
  List.find f l = None <-> forall y, In y l -> f y = false.
Proof.
  induction l as [|a l IH]; simpl.
  - split; [intros _ y [] | reflexivity].
  - destruct (f a) eqn:E.
    + split; [discriminate|]. intros H. rewrite (H a) in E by now left. discriminate.
    + rewrite IH. split.
      * intros H y [<-|Hy]; auto.
      * intros H y Hy. apply H. now right.
Qed.

Lemma name_in_iff (files : list string) (name : string) :
  name_in files name = true <-> In name files.
Proof.
  unfold name_in. rewrite existsb_exists. split.
  - intros (x & Hx & Heq). apply String.eqb_eq in Heq. now subst.
  - intros H. exists name. split; [exact H | apply String.eqb_refl].
Qed.

Lemma name_in_false (files : list string) (name : string) :
  name_in files name = false <-> ~ In name files.
Proof.
  rewrite <- name_in_iff. destruct (name_in files name); split; congruence.
Qed.

Lemma search_walk_none sep dirs :
  search_walk sep dirs = None <->
  forall root files name,
    In (root, files) dirs -> In name possible_names -> ~ In name files.
Proof.
  induction dirs as [|[root files] rest IH]; cbn [search_walk].
  - split; [intros _ ? ? ? [] | reflexivity].
  - destruct (List.find (name_in files) possible_names) as [name|] eqn:E.
    + split; [discriminate|]. intros H.
      destruct (find_first _ _ _ E) as (l1 & l2 & Hl & Hin & _).
      apply name_in_iff in Hin. exfalso.
      apply (H root files name); [now left | | exact Hin].
      rewrite Hl. apply in_or_app. right. now left.
    + rewrite IH. rewrite find_none_iff in E. split.
      * intros H r f n [Heq|Hin] Hn.
        -- injection Heq as <- <-. apply name_in_false. now apply E.
        -- now apply (H r f n).
      * intros H r f n Hin. apply (H r f n). now right.
Qed.

Lemma search_walk_some sep dirs p :
  search_walk sep dirs = Some p ->
  exists before root files after earlier name later,
    dirs = before ++ (root, files) :: after
    /\ possible_names = earlier ++ name :: later
    /\ p = path_join sep root name
    /\ In name files
    /\ (forall n, In n earlier -> ~ In n files)
    /\ (forall r f n, In (r, f) before -> In n possible_names -> ~ In n f).
Proof.
  induction dirs as [|[root files] rest IH]; cbn [search_walk]; [discriminate|].
  destruct (List.find (name_in files) possible_names) as [name|] eqn:E.
  - intros H; injection H as <-.
    destruct (find_first _ _ _ E) as (l1 & l2 & Hl & Hin & Hfirst).
    exists [], root, files, rest, l1, name, l2.
    split; [reflexivity|]. split; [exact Hl|]. split; [reflexivity|].
    split; [now apply name_in_iff|]. split.
    + intros n Hn. apply name_in_false. now apply Hfirst.
    + intros r f n [].
  - intros H. destruct (IH H) as (before & r & f & after & earlier & name & later
                                 & -> & Hn & -> & Hin & Hfirst & Hbefore).
    exists ((root, files) :: before), r, f, after, earlier, name, later.
    split; [reflexivity|]. split; [exact Hn|]. split; [reflexivity|].
    split; [exact Hin|]. split; [exact Hfirst|].
    rewrite find_none_iff in E.
    intros r' f' n [Heq|Hin'] Hposs.
    + injection Heq as <- <-. apply name_in_false. now apply E.
    + now apply (Hbefore r' f' n).
Qed.

(** X1.  [find_filter_executable] returns [None] exactly when no
    candidate name exists in the working directory and no walked
    directory lists one.  A candidate in the working directory always wins,
    and among several the one earliest in the candidate list; otherwise the
    result is the join of the first walked directory that lists a
    candidate with the earliest candidate it lists. *)
Theorem find_executable_priority :
  forall fs : file_system,
    (find_executable_in fs = None <->
       (forall name, In name possible_names -> path_exists fs name = false)
       /\ (forall root files name,
              In (root, files) (walk fs) -> In name possible_names ->
              ~ In name files))
    /\ (forall name,
           In name possible_names -> path_exists fs name = true ->
           exists earlier best later,
             possible_names = earlier ++ best :: later
             /\ find_executable_in fs = Some best
             /\ path_exists fs best = true
             /\ (forall n, In n earlier -> path_exists fs n = false))
    /\ (forall p,
           (forall name, In name possible_names -> path_exists fs name = false) ->
           find_executable_in fs = Some p ->
           exists before root files after earlier name later,
             walk fs = before ++ (root, files) :: after
             /\ possible_names = earlier ++ name :: later
             /\ p = path_join (path_sep fs) root name
             /\ In name files
             /\ (forall n, In n earlier -> ~ In n files)
             /\ (forall r f n, In (r, f) before -> In n possible_names ->
                               ~ In n f)).
Proof.
  intros fs. unfold find_executable_in. split; [|split].
  - destruct (List.find (path_exists fs) possible_names) as [name|] eqn:E.
    + split; [discriminate|]. intros [H _].
      destruct (find_first _ _ _ E) as (l1 & l2 & Hl & Hex & _).
      rewrite H in Hex; [discriminate|].
      rewrite Hl. apply in_or_app. right. now left.
    + rewrite search_walk_none. rewrite find_none_iff in E. tauto.
  - intros name Hin Hex.
    destruct (List.find (path_exists fs) possible_names) as [best|] eqn:E.
    + destruct (find_first _ _ _ E) as (l1 & l2 & Hl & Hb & Hfirst).
      exists l1, best, l2. auto.
    + rewrite find_none_iff in E. rewrite (E name Hin) in Hex. discriminate.
  - intros p Hnone.
    destruct (List.find (path_exists fs) possible_names) as [name|] eqn:E.
    + destruct (find_first _ _ _ E) as (l1 & l2 & Hl & Hex & _).
      rewrite Hnone in Hex; [discriminate|].
      rewrite Hl. apply in_or_app. right. now left.
    + apply search_walk_some.
Qed.

Lemma find_executable_priority_witness :
  exists earlier best later,
    possible_names = earlier ++ best :: later
    /\ find_executable_in
         (mkFs (fun n => String.eqb n "filter" || String.eqb n "pocketfence-filter")
               [] "/") = Some best
    /\ (forall n, In n earlier ->
          (String.eqb n "filter" || String.eqb n "pocketfence-filter") = false).
Proof.
  destruct (proj1 (proj2 (find_executable_priority
              (mkFs (fun n => String.eqb n "filter" || String.eqb n "pocketfence-filter")
                    [] "/")))
              "filter"%string)
    as (earlier & best & later & H1 & H2 & _ & H4).
  - vm_compute. tauto.
  - reflexivity.
  - exists earlier, best, later. auto.
Defined.

(** ** The score and its bands *)

Lemma contribution_cases (m : metric) (d : gmap string Q) :
  (contribution m d = metric_points m
   /\ exists v, d !! metric_key m = Some v /\ passes m v)
  \/ (contribution m d = 0
      /\ ~ exists v, d !! metric_key m = Some v /\ passes m v).
Proof.
  unfold contribution. destruct (d !! metric_key m) as [v|] eqn:E.
  - destruct (passesb m v) eqn:Ep.
    + left. split; [reflexivity|]. exists v. split; [reflexivity|].
      now apply passesb_iff.
    + right. split; [reflexivity|]. intros (v' & Hv & Hp).
      injection Hv as <-. apply passesb_iff in Hp. congruence.
  - right. split; [reflexivity|]. intros (v' & Hv & _). discriminate.
Qed.

(** X2.  The score is always between 0 and 100; it reaches 100, and
    the grade is A+, exactly when all five metrics are recorded and meet
    their thresholds; and with no passing metric at all the score is 0 and
    the grade F. *)
Theorem score_range_and_top_grade :
  forall d : gmap string Q,
    0 <= fst (calculate_performance_grade d) <= 100
    /\ (snd (calculate_performance_grade d) = GradeAplus
        <-> forall m, exists v, d !! metric_key m = Some v /\ passes m v)
    /\ (fst (calculate_performance_grade d) = 100
        <-> forall m, exists v, d !! metric_key m = Some v /\ passes m v)
    /\ ((forall m v, d !! metric_key m = Some v -> ~ passes m v) ->
        calculate_performance_grade d = (0, GradeF)).
Proof.
  intros d. rewrite calculate_grade_spec. cbn [fst snd]. unfold spec_score.
  destruct (contribution_cases MStartup d) as [[E1 H1]|[E1 H1]];
  destruct (contribution_cases MMemory d) as [[E2 H2]|[E2 H2]];
  destruct (contribution_cases MThroughput d) as [[E3 H3]|[E3 H3]];
  destruct (contribution_cases MAccuracy d) as [[E4 H4]|[E4 H4]];
  destruct (contribution_cases MConcurrency d) as [[E5 H5]|[E5 H5]];
  rewrite E1, E2, E3, E4, E5; cbn [metric_points];
  (split; [cbn; lia|]);
  (split; [|split]);
  try (split; [intros Hg; first [discriminate Hg | cbn in Hg; lia]
              | intros Hall;
                first [ specialize (Hall MStartup); contradiction
                      | specialize (Hall MMemory); contradiction
                      | specialize (Hall MThroughput); contradiction
                      | specialize (Hall MAccuracy); contradiction
                      | specialize (Hall MConcurrency); contradiction ]]);
  try (split; [intros _ [] ; assumption | intros _; reflexivity]);
  try (intros Hnone;
       first [ destruct H1 as (v & Hv & Hp); now destruct (Hnone _ _ Hv)
             | destruct H2 as (v & Hv & Hp); now destruct (Hnone _ _ Hv)
             | destruct H3 as (v & Hv & Hp); now destruct (Hnone _ _ Hv)
             | destruct H4 as (v & Hv & Hp); now destruct (Hnone _ _ Hv)
             | destruct H5 as (v & Hv & Hp); now destruct (Hnone _ _ Hv)
             | reflexivity ]).
Qed.

Lemma score_range_and_top_grade_witness :
  calculate_performance_grade
    {["avg_startup_time"%string := 2500%Q; "filter_accuracy"%string := 50%Q]}
  = (0, GradeF).
Proof.
  apply (proj2 (proj2 (proj2 (score_range_and_top_grade _)))).
  intros m v Hv. destruct m; vm_compute in Hv; try discriminate Hv;
    injection Hv as <-; vm_compute; discriminate.
Defined.

(** ** Rates are percentages *)

Lemma successes_range (results : list bool) :
  0 <= successes results <= Z.of_nat (length results).
Proof.
  unfold successes. split; [lia|]. apply Nat2Z.inj_le. apply length_filter.
Qed.

Lemma successes_all (results : list bool) :
  (forall b, In b results -> b = true) ->
  successes results = Z.of_nat (length results).
Proof.
  unfold successes. intros H. f_equal.
  induction results as [|b results IH]; [reflexivity|].
  rewrite filter_cons_True by (apply H; now left).
  simpl. f_equal. apply IH. intros b' Hb'. apply H. now right.
Qed.

(** A postcondition on the object's data carries over from the body to
    the whole bracketed phase. *)
Lemma scoped_phase_triple env fuel (header : log_msg) (rest : M unit)
    (P Q : State -> Prop) :
  (forall s, P s -> P (set_log (fun l => l ++ [header]) s)) ->
  (forall s s', same_self s s' -> P s -> P s') ->
  (forall s s', same_self s s' -> Q s -> Q s') ->
  triple P rest (fun _ => Q) (fun _ _ => True) ->
  triple P
    (log_test header ;; try_finally (start_filter env fuel ;; rest) (stop_filter env))
    (fun _ => Q) (fun _ _ => True).
Proof.
  intros Hlog HP HQ Hrest.
  eapply triple_bind with (Q := fun _ => P).
  { intros s H. simpl. now apply Hlog. }
  intros ?.
  eapply triple_try_finally with (Q := fun _ => Q) (X := fun _ _ => True).
  - eapply triple_bind with (Q := fun _ => P); [|intros ?; exact Hrest].
    eapply triple_frame with (R := same_self); [apply start_filter_self | exact HP |].
    intros; exact I.
  - intros ?. eapply triple_frame with (R := same_self);
      [apply stop_filter_self | exact HQ | intros; exact I].
  - intros e s _. destruct (stop_filter env s) as [[[]|?|] ?]; exact I.
Qed.

(** ** The concurrency phase *)

Lemma concurrent_measure_records env n :
  triple (fun _ => True) (concurrent_measure env n)
         (fun _ => concurrency_recorded env n) (fun _ _ => True).
Proof.
  intros s _. unfold concurrent_measure, thread_pool_results.
  destruct (Z.leb_spec n 0) as [Hle|Hpos].
  - unfold log_test, time_time, interact, bind, gets, modify, ret, raise. simpl.
    exact I.
  - unfold py_div. rewrite Qeq_bool_inject_nonzero by lia.
    unfold store, log_test, time_time, blocking, interact, bind, gets, modify,
      ret, raise. simpl.
    destruct (interrupted env (S (step (world s)))); simpl; [exact I|].
    set (results := map (pool_resp env (S (step (world s)))) (seq 0 (Z.to_nat n))).
    assert (Hlen : Z.of_nat (length results) = n).
    { subst results. rewrite length_map, length_seq. lia. }
    pose proof (successes_range results) as Hrange. rewrite Hlen in Hrange.
    exists (S (step (world s))), (inject_Z (successes results) / inject_Z n * 100)%Q.
    fold results. cbv zeta. unfold successes at 3 4.
    rewrite Hlen.
    split; [lia|]. split; [exact Hrange|].
    split; [simplify_map_eq; reflexivity|].
    split; [simplify_map_eq; reflexivity|].
    split; [simplify_map_eq; reflexivity|].
    split; [simplify_map_eq; reflexivity|].
    split; [apply percent_bounds; lia|].
    split; [intros Hnone; rewrite Hnone; apply percent_none|].
    intros Hall.
    assert (Hok : successes results = n).
    { rewrite successes_all, Hlen; [reflexivity|].
      intros b Hb. subst results. apply in_map_iff in Hb as (j & <- & _).
      apply Hall. }
    split; [exact Hok|]. rewrite Hok. apply percent_full. lia.
Qed.

(** X3.  When the concurrency phase returns normally it has filed, for
    the configured number [n >= 1] of connections, the number of workers
    that succeeded, between 0 and [n], the failed requests as the rest,
    and a success rate between 0 and 100, which is 0 if no worker
    succeeded and 100 if every worker did. *)
Theorem concurrency_phase_records :
  forall (env : Env) (fuel : nat) (s s' : State),
    test_concurrent_load env fuel s = (Ok tt, s') ->
    concurrency_recorded env (concurrent_connections s) s'.
Proof.
  intros env fuel s s' Hrun.
  assert (Hphase :
    triple (fun s0 => concurrent_connections s0 = concurrent_connections s)
      (test_concurrent_load env fuel)
      (fun _ => concurrency_recorded env (concurrent_connections s))
      (fun _ _ => True)).
  { unfold test_concurrent_load, concurrent_body.
    apply scoped_phase_triple.
    - intros s0 H. exact H.
    - intros s0 s1 (_ & Hc & _) H. congruence.
    - intros s0 s1 (_ & _ & _ & Hr & _) (i & q & H). exists i, q.
      rewrite Hr. exact H.
    - eapply triple_bind
        with (Q := fun _ s0 => concurrent_connections s0 = concurrent_connections s).
      { eapply triple_frame with (R := same_self) (E := any_exn).
        - apply clock_as_self; [exact I | apply time_sleep_clock].
        - intros s0 s1 (_ & Hc & _) H. congruence.
        - intros; exact I. }
      intros ?.
      eapply triple_bind
        with (Q := fun n _ => n = concurrent_connections s).
      { intros s0 H. exact H. }
      intros n. intros s0 ->. apply concurrent_measure_records. exact I. }
  specialize (Hphase s eq_refl). rewrite Hrun in Hphase. exact Hphase.
Qed.

Lemma concurrency_phase_records_witness :
  concurrency_recorded env_coarse_clock (concurrent_connections tester0)
    (snd (test_concurrent_load env_coarse_clock 1 tester0)).
Proof.
  apply (concurrency_phase_records env_coarse_clock 1 tester0).
  vm_compute. reflexivity.
Defined.

(** ** The throughput phase *)

Lemma triple_any {A} (P : State -> Prop) (m : M A) :
  triple P m (fun _ _ => True) (fun _ _ => True).
Proof. intros s _. destruct (m s) as [[?|?|] ?]; exact I. Qed.

(** A fact that does not mention the state survives any computation. *)
Lemma triple_pure {A} (F : Prop) (m : M A) :
  triple (fun _ => F) m (fun _ _ => F) (fun _ _ => True).
Proof. intros s H. destruct (m s) as [[?|?|] ?]; [exact H | exact I | exact I]. Qed.

Lemma triple_conj {A} (P P' : State -> Prop) (m : M A)
    (Q Q' : A -> State -> Prop) :
  triple P m Q (fun _ _ => True) -> triple P' m Q' (fun _ _ => True) ->
  triple (fun s => P s /\ P' s) m (fun a s => Q a s /\ Q' a s)
         (fun _ _ => True).
Proof.
  intros H H' s [HP HP']. specialize (H s HP). specialize (H' s HP').
  destruct (m s) as [[?|?|] ?]; [split; assumption | exact I | exact I].
Qed.

Lemma triple_same_results {A} (E : exn -> Prop) (d0 : gmap string Q)
    (m : M A) :
  sat only_clock E m ->
  triple (fun s => test_results s = d0) m (fun _ s => test_results s = d0)
         (fun _ _ => True).
Proof.
  intros Hm. eapply triple_frame with (R := only_clock) (E := E);
    [exact Hm | | intros; exact I].
  intros s s' H <-. apply only_clock_same_self in H. apply H.
Qed.



(** ** The accuracy phase *)

Lemma fixtures_expecting_cons b url should_block description rest :
  fixtures_expecting b ((url, should_block, description) :: rest)
  = (if Bool.eqb should_block b then 1 else 0) + fixtures_expecting b rest.
Proof.
  unfold fixtures_expecting. simpl.
  destruct (Bool.eqb should_block b); simpl length; lia.
Qed.

Lemma fixtures_expecting_nonneg b cases : 0 <= fixtures_expecting b cases.
Proof. unfold fixtures_expecting. lia. Qed.

Lemma acc_on_response_bounded should_block description text kb ka c :
  acc_bounded kb ka c ->
  acc_bounded (kb + (if Bool.eqb should_block true then 1 else 0))
              (ka + (if Bool.eqb should_block false then 1 else 0))
              (fst (acc_on_response should_block description text c)).
Proof.
  unfold acc_bounded, acc_on_response.
  destruct should_block, (is_blocked text); simpl; lia.
Qed.

Lemma acc_bounded_weaken kb ka kb' ka' c :
  kb <= kb' -> ka <= ka' -> acc_bounded kb ka c -> acc_bounded kb' ka' c.
Proof. unfold acc_bounded. lia. Qed.

Lemma accuracy_loop_bounded env cases : forall c kb ka,
  acc_bounded kb ka c ->
  triple (fun _ => True) (accuracy_loop env cases c)
    (fun c' _ => acc_bounded (kb + fixtures_expecting true cases)
                             (ka + fixtures_expecting false cases) c')
    (fun _ _ => True).
Proof.
  induction cases as [|[[url should_block] description] rest IH];
    intros c kb ka Hc.
  - intros s _. simpl. unfold fixtures_expecting. simpl.
    now rewrite !Z.add_0_r.
  - cbn [accuracy_loop]. rewrite !fixtures_expecting_cons.
    eapply triple_bind; [apply triple_any | intros [text|]].
    + pose proof (acc_on_response_bounded should_block description text _ _ _ Hc)
        as Hc'.
      destruct (acc_on_response should_block description text c) as [c' msg].
      simpl fst in Hc'.
      eapply triple_bind; [apply triple_any | intros u].
      eapply triple_conseq; [apply (IH c' _ _ Hc') | auto | | auto].
      intros c2 s H. simpl in H.
      now rewrite !Z.add_assoc.
    + unfold acc_on_failure.
      eapply triple_bind; [apply triple_any | intros u].
      eapply triple_conseq; [apply (IH c _ _ Hc) | auto | | auto].
      intros c2 s H. simpl in H.
      eapply acc_bounded_weaken; [| |exact H];
        destruct should_block; simpl; lia.
Qed.

(** The accuracy criterion of the score is met from seven correct
    verdicts out of eight. *)
Lemma accuracy_threshold (correct : Z) :
  (80 < inject_Z correct / inject_Z 8 * 100)%Q <-> 7 <= correct.
Proof.
  unfold Qlt, Qdiv, Qmult, Qinv, inject_Z. simpl. lia.
Qed.

Lemma accuracy_tail_records env :
  triple (fun _ => True)
    (time_sleep env 3 ;;
     c <- accuracy_loop env test_cases (mkCounts 0 0 0 0) ;;
     let total_tests := Z.of_nat (length test_cases) in
     let correct_results := correct_blocks c + correct_allows c in
     acc <- accuracy_of correct_results total_tests ;;
     store "filter_accuracy" acc ;;
     store "correct_blocks" (inject_Z (correct_blocks c)) ;;
     store "correct_allows" (inject_Z (correct_allows c)) ;;
     store "false_positives" (inject_Z (false_positives c)) ;;
     store "false_negatives" (inject_Z (false_negatives c)) ;;
     log_test (MsgAccuracy acc correct_results total_tests))
    (fun _ => accuracy_recorded) (fun _ _ => True).
Proof.
  eapply triple_bind; [apply triple_any | intros u].
  eapply triple_bind.
  { apply (accuracy_loop_bounded env test_cases (mkCounts 0 0 0 0) 0 0).
    unfold acc_bounded. simpl. lia. }
  intros c s H. cbv zeta. rewrite !Z.add_0_l in H.
  unfold accuracy_of, py_div.
  change (0 <? Z.of_nat (length test_cases)) with true. cbv iota.
  change (Qeq_bool (inject_Z (Z.of_nat (length test_cases))) 0) with false.
  cbv iota.
  unfold store, log_test, bind, modify, ret.
  cbn [fst snd test_results set_results set_log].
  exists c, (inject_Z (correct_blocks c + correct_allows c)
             / inject_Z (Z.of_nat (length test_cases)) * 100)%Q.
  cbv zeta.
  split; [exact H|].
  split; [simplify_map_eq; reflexivity|].
  split; [simplify_map_eq; reflexivity|].
  split; [simplify_map_eq; reflexivity|].
  split; [simplify_map_eq; reflexivity|].
  split; [simplify_map_eq; reflexivity|].
  split; [reflexivity|].
  assert (Hfix : fixtures_expecting true test_cases
                 + fixtures_expecting false test_cases
                 = Z.of_nat (length test_cases)) by reflexivity.
  split.
  { apply percent_bounds; [|reflexivity].
    unfold acc_bounded in H. lia. }
  unfold present_above. simplify_map_eq.
  rewrite Qlt_bool_iff.
  change (Z.of_nat (length test_cases)) with 8.
  apply accuracy_threshold.
Qed.

(** X5.  When the accuracy phase returns normally, the four verdict
    counters it files are non-negative and bounded by the fixtures of
    their class (correct blocks + false negatives by the fixtures to
    block, correct allows + false positives by the fixtures to allow);
    the accuracy filed is the percentage of correct verdicts among all
    eight fixtures, between 0 and 100; and it passes the accuracy test of
    the score exactly when at least seven verdicts were correct. *)
Theorem accuracy_phase_records :
  forall (env : Env) (fuel : nat) (s s' : State),
    test_blocking_accuracy env fuel s = (Ok tt, s') ->
    accuracy_recorded s'.
Proof.
  intros env fuel s s' Hrun.
  assert (Hphase :
    triple (fun _ => True) (test_blocking_accuracy env fuel)
      (fun _ => accuracy_recorded) (fun _ _ => True)).
  { unfold test_blocking_accuracy, accuracy_body.
    apply scoped_phase_triple.
    - intros s0 H. exact H.
    - intros s0 s1 _ H. exact H.
    - intros s0 s1 (_ & _ & _ & Hr & _) H. unfold accuracy_recorded.
      rewrite Hr. exact H.
    - apply accuracy_tail_records. }
  specialize (Hphase s I). rewrite Hrun in Hphase. exact Hphase.
Qed.

Lemma accuracy_phase_records_witness :
  accuracy_recorded (snd (test_blocking_accuracy env_coarse_clock 1 tester0)).
Proof.
  apply (accuracy_phase_records env_coarse_clock 1 tester0).
  vm_compute. reflexivity.
Defined.

(** ** Which entries of the results a phase writes *)

Lemma quiet_refl s : quiet s s.
Proof. split; reflexivity. Qed.

Lemma quiet_trans s1 s2 s3 : quiet s1 s2 -> quiet s2 s3 -> quiet s1 s3.
Proof. intros [H1 H2] [H3 H4]. split; congruence. Qed.

Lemma only_clock_quiet s s' : only_clock s s' -> quiet s s'.
Proof. intros ->. split; reflexivity. Qed.

Lemma clock_as_quiet {A} (E : exn -> Prop) (m : M A) :
  E KeyboardInterrupt -> sat only_clock interrupt_only m -> sat quiet E m.
Proof.
  intros H. apply sat_weaken; [apply only_clock_quiet|].
  now apply interrupt_only_weaken.
Qed.
#[local] Hint Resolve clock_as_quiet : sat_db.

Ltac sat_quiet := sat_go quiet_refl quiet_trans.

Lemma wait_listening_quiet env n start_time max_wait :
  sat quiet any_exn (wait_listening env n start_time max_wait).
Proof.
  eapply sat_weaken; [apply only_clock_quiet | | apply wait_listening_clock].
  intros; exact I.
Qed.

Lemma py_div_quiet x y : sat quiet any_exn (py_div x y).
Proof.
  eapply sat_weaken; [apply only_clock_quiet | | apply py_div_clock].
  intros; exact I.
Qed.
#[local] Hint Resolve wait_listening_quiet py_div_quiet : sat_db.

Lemma log_test_quiet msg : sat quiet any_exn (log_test msg).
Proof. apply sat_modify. intros s. split; reflexivity. Qed.
#[local] Hint Resolve log_test_quiet : sat_db.

Lemma Popen_quiet env exe : sat quiet any_exn (Popen env exe).
Proof. sat_quiet. Qed.

Lemma terminate_and_wait_quiet env h : sat quiet any_exn (terminate_and_wait env h).
Proof. sat_quiet. Qed.
#[local] Hint Resolve Popen_quiet terminate_and_wait_quiet : sat_db.

Lemma start_filter_quiet env fuel : sat quiet any_exn (start_filter env fuel).
Proof. sat_quiet. Qed.

Lemma stop_filter_quiet env : sat quiet any_exn (stop_filter env).
Proof. sat_quiet. Qed.
#[local] Hint Resolve start_filter_quiet stop_filter_quiet : sat_db.

Lemma startup_cycles_quiet env fuel exe range times :
  sat quiet any_exn (startup_cycles env fuel exe range times).
Proof. revert times; induction range; intros; simpl; sat_quiet. Qed.

Lemma memory_loop_quiet env range readings :
  sat quiet any_exn (memory_loop env range readings).
Proof. revert readings; induction range; intros; simpl; sat_quiet. Qed.

Lemma accuracy_loop_quiet env cases c :
  sat quiet any_exn (accuracy_loop env cases c).
Proof.
  revert c; induction cases as [|[[url sb] d] rest IH]; intros; simpl; sat_quiet.
Qed.
#[local] Hint Resolve startup_cycles_quiet memory_loop_quiet accuracy_loop_quiet
  : sat_db.

Lemma generate_report_quiet env : sat quiet any_exn (generate_report env).
Proof. sat_quiet. Qed.

Lemma writes_only_refl keys s : writes_only keys s s.
Proof. intros k _. reflexivity. Qed.

Lemma writes_only_trans keys s1 s2 s3 :
  writes_only keys s1 s2 -> writes_only keys s2 s3 -> writes_only keys s1 s3.
Proof. intros H1 H2 k Hk. rewrite (H2 k Hk). now apply H1. Qed.

Lemma quiet_as_writes {A} keys (m : M A) :
  sat quiet any_exn m -> sat (writes_only keys) any_exn m.
Proof.
  apply sat_weaken; [|intros; exact I].
  intros s s' [H _] k _. now rewrite H.
Qed.

Lemma store_writes keys key v :
  In key keys -> sat (writes_only keys) any_exn (store key v).
Proof.
  intros Hin. apply sat_modify. intros s k Hk. simpl.
  apply lookup_insert_ne. intros ->. now apply Hk.
Qed.

#[local] Hint Extern 1 (sat (writes_only _) _ (store _ _)) =>
  apply store_writes; simpl; tauto : sat_db.
#[local] Hint Extern 2 (sat (writes_only _) any_exn _) =>
  apply quiet_as_writes; solve [auto with sat_db] : sat_db.

Ltac sat_writes p :=
  sat_go (writes_only_refl (phase_keys p)) (writes_only_trans (phase_keys p)).

Lemma run_phase_writes env fuel p :
  sat (writes_only (phase_keys p)) any_exn (run_phase env fuel p).
Proof.
  destruct p; cbn [run_phase].
  - sat_writes Startup.
  - sat_writes Memory.
  - sat_writes Throughput.
  - sat_writes Accuracy.
  - sat_writes Concurrency.
Qed.

(** X6.  A phase assigns only its own keys of the results, whatever its
    outcome (return, exception or interruption); no key belongs to two
    phases, so no phase overwrites what another has filed; and writing the
    report changes no entry. *)
Theorem phases_write_their_own_entries :
  forall (env : Env) (fuel : nat),
    (forall (p : phase) (s : State) (k : string),
        ~ In k (phase_keys p) ->
        test_results (snd (run_phase env fuel p s)) !! k = test_results s !! k)
    /\ (forall (p q : phase) (k : string),
           In k (phase_keys p) -> In k (phase_keys q) -> p = q)
    /\ (forall s : State,
           test_results (snd (generate_report env s)) = test_results s).
Proof.
  intros env fuel. split; [|split].
  - intros p s k Hk. destruct (run_phase_writes env fuel p s) as [H _].
    now apply H.
  - intros p q k Hp Hq.
    destruct p, q; try reflexivity; exfalso; simpl in Hp, Hq;
      intuition (subst; discriminate).
  - intros s. destruct (generate_report_quiet env s) as [[H _] _]. exact H.
Qed.

Lemma phases_write_their_own_entries_witness :
  test_results (snd (run_phase env_coarse_clock 1 Memory tester0))
    !! "avg_startup_time"
  = test_results tester0 !! "avg_startup_time".
Proof.
  apply (proj1 (phases_write_their_own_entries env_coarse_clock 1)).
  simpl. intros [H|[H|[H|[]]]]; discriminate H.
Defined.

(** ** The memory phase *)

(** The bracket of a phase, for any relation its start and stop keep. *)
Lemma scoped_phase_triple_rel env fuel (R : State -> State -> Prop)
    (header : log_msg) (rest : M unit) (P Q : State -> Prop) :
  sat R any_exn (start_filter env fuel) ->
  sat R any_exn (stop_filter env) ->
  (forall s, P s -> P (set_log (fun l => l ++ [header]) s)) ->
  (forall s s', R s s' -> P s -> P s') ->
  (forall s s', R s s' -> Q s -> Q s') ->
  triple P rest (fun _ => Q) (fun _ _ => True) ->
  triple P
    (log_test header ;; try_finally (start_filter env fuel ;; rest) (stop_filter env))
    (fun _ => Q) (fun _ _ => True).
Proof.
  intros Hstart Hstop Hlog HP HQ Hrest.
  eapply triple_bind with (Q := fun _ => P).
  { intros s H. simpl. now apply Hlog. }
  intros ?.
  eapply triple_try_finally with (Q := fun _ => Q) (X := fun _ _ => True).
  - eapply triple_bind with (Q := fun _ => P); [|intros ?; exact Hrest].
    eapply triple_frame with (R := R); [exact Hstart | exact HP |].
    intros; exact I.
  - intros ?. eapply triple_frame with (R := R);
      [exact Hstop | exact HQ | intros; exact I].
  - intros e s _. destruct (stop_filter env s) as [[[]|?|] ?]; exact I.
Qed.

Lemma memory_loop_no_psutil env range : forall readings,
  triple (fun s => HAS_PSUTIL (world s) = false)
    (memory_loop env range readings)
    (fun r _ => r = readings) (fun _ _ => True).
Proof.
  induction range as [|i rest IH]; intros readings.
  - intros s _. reflexivity.
  - cbn [memory_loop].
    eapply triple_bind
      with (Q := fun has s => has = false /\ HAS_PSUTIL (world s) = false).
    { intros s H. simpl. auto. }
    intros has. destruct has.
    { intros s [H _]. discriminate H. }
    eapply triple_bind with (Q := fun _ s => HAS_PSUTIL (world s) = false).
    { intros s [_ H]. exact H. }
    intros u.
    eapply triple_bind with (Q := fun _ s => HAS_PSUTIL (world s) = false).
    { eapply triple_frame with (R := quiet) (E := any_exn);
        [auto with sat_db | | intros; exact I].
      intros s s' [_ Hq] H. congruence. }
    intros u2. apply IH.
Qed.

Lemma triple_quiet {A} (d0 : gmap string Q) (m : M A) :
  sat quiet any_exn m ->
  triple (fun s => test_results s = d0) m (fun _ s => test_results s = d0)
         (fun _ _ => True).
Proof.
  intros Hm. eapply triple_frame with (R := quiet) (E := any_exn);
    [exact Hm | | intros; exact I].
  intros s s' [H _] <-. exact H.
Qed.

(** A non-empty list of measurements filed under three keys. *)
Lemma summary_stored (avg lo hi : string) (l : list Q) (d : gmap string Q) :
  l <> [] -> avg <> lo -> avg <> hi -> lo <> hi ->
  summary_recorded avg lo hi
    (<[hi := list_max l]> (<[lo := list_min l]> (<[avg := mean l]> d))).
Proof.
  intros Hne H1 H2 H3. destruct (mean_between l Hne) as [Hlo Hhi].
  exists (mean l), (list_min l), (list_max l).
  split; [simplify_map_eq; reflexivity|].
  split; [simplify_map_eq; reflexivity|].
  split; [simplify_map_eq; reflexivity|].
  split; assumption.
Qed.

Lemma memory_tail_records env (d0 : gmap string Q) (b : bool) :
  triple (fun s => test_results s = d0 /\ HAS_PSUTIL (world s) = b)
    (time_sleep env 3 ;;
     memory_readings <- memory_loop env [1; 2; 3; 4; 5; 6; 7; 8; 9; 10] [] ;;
     if is_nonempty memory_readings then
       store "avg_memory_mb" (mean memory_readings) ;;
       store "min_memory_mb" (list_min memory_readings) ;;
       store "max_memory_mb" (list_max memory_readings) ;;
       log_test (MsgMemAvg (mean memory_readings)) ;;
       log_test (MsgMemMinMax (list_min memory_readings)
                              (list_max memory_readings))
     else ret tt)
    (fun _ s =>
       (b = false -> test_results s = d0)
       /\ (test_results s = d0
           \/ summary_recorded "avg_memory_mb" "min_memory_mb" "max_memory_mb"
                (test_results s)))
    (fun _ _ => True).
Proof.
  eapply triple_bind
    with (Q := fun _ s => test_results s = d0 /\ HAS_PSUTIL (world s) = b).
  { eapply triple_frame with (R := quiet) (E := any_exn);
      [auto with sat_db | | intros; exact I].
    intros s s' [Hr Hp] [H1 H2]. split; congruence. }
  intros u.
  eapply triple_bind
    with (Q := fun r s => test_results s = d0 /\ (b = false -> r = [])).
  { apply triple_conj.
    - apply triple_quiet, memory_loop_quiet.
    - destruct b.
      + intros s _.
        destruct (memory_loop env [1; 2; 3; 4; 5; 6; 7; 8; 9; 10] [] s)
          as [[?|?|] ?]; [discriminate | exact I | exact I].
      + eapply triple_conseq; [apply memory_loop_no_psutil | auto | | auto].
        intros r s H _. exact H. }
  intros r s [Hd Hr]. destruct r as [|x xs].
  - simpl. split; [intros _; exact Hd | left; exact Hd].
  - unfold store, log_test, bind, modify, ret.
    cbn [is_nonempty fst snd test_results set_results set_log].
    split; [intros Hb; specialize (Hr Hb); discriminate Hr|].
    right. apply summary_stored; discriminate.
Qed.

(** X7.  When the memory phase returns normally: without psutil it has
    left the results exactly as they were (no memory figure is filed);
    in any case it has either left them as they were or filed the three
    memory figures, with minimum <= average <= maximum. *)
Theorem memory_phase_records :
  forall (env : Env) (fuel : nat) (s s' : State),
    measure_memory_usage env fuel s = (Ok tt, s') ->
    (HAS_PSUTIL (world s) = false -> test_results s' = test_results s)
    /\ (test_results s' = test_results s
        \/ summary_recorded "avg_memory_mb" "min_memory_mb" "max_memory_mb"
             (test_results s')).
Proof.
  intros env fuel s s' Hrun.
  assert (Hphase :
    triple (fun s0 => test_results s0 = test_results s
                      /\ HAS_PSUTIL (world s0) = HAS_PSUTIL (world s))
      (measure_memory_usage env fuel)
      (fun _ s0 =>
         (HAS_PSUTIL (world s) = false -> test_results s0 = test_results s)
         /\ (test_results s0 = test_results s
             \/ summary_recorded "avg_memory_mb" "min_memory_mb"
                  "max_memory_mb" (test_results s0)))
      (fun _ _ => True)).
  { unfold measure_memory_usage, memory_body.
    apply scoped_phase_triple_rel with (R := quiet).
    - apply start_filter_quiet.
    - apply stop_filter_quiet.
    - intros s0 H. exact H.
    - intros s0 s1 [Hr Hp] [H1 H2]. split; congruence.
    - intros s0 s1 [Hr _] H. rewrite Hr. exact H.
    - apply memory_tail_records. }
  specialize (Hphase s (conj eq_refl eq_refl)). rewrite Hrun in Hphase.
  exact Hphase.
Qed.

Lemma memory_phase_records_witness :
  (HAS_PSUTIL (world tester0) = false ->
   test_results (snd (measure_memory_usage env_coarse_clock 1 tester0))
   = test_results tester0)
  /\ (test_results (snd (measure_memory_usage env_coarse_clock 1 tester0))
      = test_results tester0
      \/ summary_recorded "avg_memory_mb" "min_memory_mb" "max_memory_mb"
           (test_results (snd (measure_memory_usage env_coarse_clock 1 tester0)))).
Proof.
  apply (memory_phase_records env_coarse_clock 1 tester0).
  vm_compute. reflexivity.
Defined.

(** ** The startup phase *)

Lemma find_filter_executable_quiet env :
  sat quiet any_exn (find_filter_executable env).
Proof. sat_quiet. Qed.

Lemma time_time_ok env s t s' :
  time_time env s = (Ok t, s') ->
  t = now (world s')
  /\ (now (world s') = now (world s) + cost env (step (world s)))%Q
  /\ step (world s') = S (step (world s)).
Proof.
  intros H. unfold time_time, interact, bind, gets, modify, ret in H.
  simpl in H. injection H as <- <-. repeat split.
Qed.

Lemma Popen_ok env exe s h s' :
  Popen env exe s = (Ok h, s') ->
  (now (world s') = now (world s) + cost env (step (world s)))%Q
  /\ step (world s') = S (step (world s)).
Proof.
  unfold Popen, interact, bind, gets, modify, ret, raise. simpl.
  destruct (popen_ok env (step (world s))); intros H; [|discriminate H].
  injection H as _ <-. split; reflexivity.
Qed.

Lemma get_ready_ok env s answered s' :
  get_ready env s = (Ok answered, s') ->
  answered = ready_resp env (step (world s))
             && negb (interrupted env (step (world s)))
  /\ (now (world s') = now (world s) + cost env (step (world s)))%Q
  /\ step (world s') = S (step (world s)).
Proof.
  unfold get_ready, interact, bind, gets, modify, ret. simpl.
  intros H. injection H as <- <-. repeat split.
Qed.

(** A filter that never answers gives no ready time. *)
Lemma poll_ready_never env n : forall timeout s r s',
  (forall i, ready_resp env i = false) ->
  poll_ready env n timeout s = (Ok r, s') -> r = None.
Proof.
  induction n as [|n IH]; intros timeout s r s' Hnever H.
  - discriminate H.
  - cbn [poll_ready] in H.
    apply bind_ok in H as (t & s1 & _ & H).
    destruct (Qlt_bool t timeout).
    + apply bind_ok in H as (answered & s2 & Hg & H).
      apply get_ready_ok in Hg as (-> & _). rewrite Hnever in H. simpl in H.
      apply bind_ok in H as (u & s3 & _ & H). eapply IH; eauto.
    + injection H as <- _. reflexivity.
Qed.

(** A filter that answers the first poll gives a ready time, a clock
    reading after the one the polling started at. *)
Lemma poll_ready_at_once env n timeout s r s' :
  (forall i, ready_resp env i = true) ->
  (forall i, interrupted env i = false) ->
  (forall i, 0 < cost env i)%Q ->
  (now (world s) + cost env (step (world s)) < timeout)%Q ->
  poll_ready env (S n) timeout s = (Ok r, s') ->
  exists rt, r = Some rt /\ (now (world s) < rt)%Q.
Proof.
  intros Hready Hint Hcost Hlt H. cbn [poll_ready] in H.
  apply bind_ok in H as (t & s1 & Ht & H).
  apply time_time_ok in Ht as (-> & Hn1 & Hs1).
  assert (Hb : Qlt_bool (now (world s1)) timeout = true).
  { apply Qlt_bool_iff. rewrite Hn1. exact Hlt. }
  rewrite Hb in H.
  apply bind_ok in H as (answered & s2 & Hg & H).
  apply get_ready_ok in Hg as (-> & Hn2 & Hs2).
  rewrite Hready, Hint in H. simpl in H.
  apply bind_ok in H as (rt & s3 & Hrt & H).
  apply time_time_ok in Hrt as (-> & Hn3 & Hs3).
  injection H as <- _. exists (now (world s3)). split; [reflexivity|].
  pose proof (Hcost (step (world s))). pose proof (Hcost (step (world s1))).
  pose proof (Hcost (step (world s2))).
  rewrite Hn3, Hn2, Hn1. lra.
Qed.

Lemma truthy_time_positive rt : (0 < rt)%Q -> truthy_time (Some rt) = Some rt.
Proof.
  intros H. unfold truthy_time.
  destruct (Qeq_bool rt 0) eqn:E; [|reflexivity].
  apply Qeq_bool_eq in E. rewrite E in H. now apply Qlt_irrefl in H.
Qed.

(** A cycle appends at most one time to the list. *)
Lemma startup_cycle_extends env fuel exe i times s times' s' :
  startup_cycle env fuel exe i times s = (Ok times', s') ->
  exists l, times' = times ++ l.
Proof.
  intros H. unfold startup_cycle in H.
  apply bind_ok in H as (u & s0 & _ & H).
  apply bind_ok in H as (start_time & s1 & _ & H).
  apply bind_ok in H as (process & s2 & _ & H).
  apply bind_ok in H as (t0 & s3 & _ & H).
  cbv zeta in H.
  apply bind_ok in H as (ready_time & s4 & _ & H).
  apply bind_ok in H as (times1 & s5 & Hm & H).
  apply bind_ok in H as (u1 & s6 & _ & H).
  apply bind_ok in H as (u2 & s7 & _ & H).
  injection H as <- _.
  destruct (truthy_time ready_time) as [rt|].
  - apply bind_ok in Hm as (u3 & s8 & _ & Hm). injection Hm as <- _. eauto.
  - apply bind_ok in Hm as (u3 & s8 & _ & Hm). injection Hm as <- _.
    exists []. now rewrite app_nil_r.
Qed.

Lemma startup_cycles_extend env fuel exe range : forall times s times' s',
  startup_cycles env fuel exe range times s = (Ok times', s') ->
  exists l, times' = times ++ l.
Proof.
  induction range as [|i range IH]; intros times s times' s' H.
  - injection H as <- _. exists []. now rewrite app_nil_r.
  - cbn [startup_cycles] in H.
    apply bind_ok in H as (times1 & s1 & Hc & H).
    apply startup_cycle_extends in Hc as (l1 & ->).
    apply IH in H as (l2 & ->). exists (l1 ++ l2). now rewrite app_assoc.
Qed.

(** With a filter that never answers, a cycle appends nothing. *)
Lemma startup_cycle_never env fuel exe i times s times' s' :
  (forall j, ready_resp env j = false) ->
  startup_cycle env fuel exe i times s = (Ok times', s') ->
  times' = times.
Proof.
  intros Hnever H. unfold startup_cycle in H.
  apply bind_ok in H as (u & s0 & _ & H).
  apply bind_ok in H as (start_time & s1 & _ & H).
  apply bind_ok in H as (process & s2 & _ & H).
  apply bind_ok in H as (t0 & s3 & _ & H).
  cbv zeta in H.
  apply bind_ok in H as (ready_time & s4 & Hp & H).
  apply poll_ready_never in Hp; [|exact Hnever]. subst ready_time.
  apply bind_ok in H as (times1 & s5 & Hm & H).
  apply bind_ok in H as (u1 & s6 & _ & H).
  apply bind_ok in H as (u2 & s7 & _ & H).
  injection H as <- _.
  cbn [truthy_time] in Hm.
  apply bind_ok in Hm as (u3 & s8 & _ & Hm). injection Hm as <- _.
  reflexivity.
Qed.

Lemma startup_cycles_never env fuel exe range : forall times s times' s',
  (forall j, ready_resp env j = false) ->
  startup_cycles env fuel exe range times s = (Ok times', s') ->
  times' = times.
Proof.
  induction range as [|i range IH]; intros times s times' s' Hnever H.
  - injection H as <- _. reflexivity.
  - cbn [startup_cycles] in H.
    apply bind_ok in H as (times1 & s1 & Hc & H).
    apply startup_cycle_never in Hc; [|exact Hnever]. subst times1.
    eapply IH; eauto.
Qed.

(** With a filter that answers every poll at once, on a clock that moves
    forward by less than the ten-second timeout per interaction, a cycle
    appends its startup time. *)
Lemma startup_cycle_measures env n exe i times s times' s' :
  (forall j, ready_resp env j = true) ->
  (forall j, interrupted env j = false) ->
  (forall j, 0 < cost env j /\ cost env j < 10)%Q ->
  (0 <= now (world s))%Q ->
  startup_cycle env (S n) exe i times s = (Ok times', s') ->
  exists t, times' = times ++ [t].
Proof.
  intros Hready Hint Hcost Hnow H. unfold startup_cycle in H.
  apply bind_ok in H as (u & s0 & Hl & H). apply log_test_ok in Hl. subst s0.
  apply bind_ok in H as (start_time & s1 & Ht1 & H).
  apply time_time_ok in Ht1 as (_ & Hn1 & _).
  apply bind_ok in H as (process & s2 & Hp & H).
  apply Popen_ok in Hp as (Hn2 & _).
  apply bind_ok in H as (t0 & s3 & Ht3 & H).
  apply time_time_ok in Ht3 as (-> & Hn3 & _).
  cbv zeta in H.
  apply bind_ok in H as (ready_time & s4 & Hpoll & H).
  change (now (world (set_log (fun l => l ++ [MsgStartupTest i]) s)))
    with (now (world s)) in Hn1.
  change (step (world (set_log (fun l => l ++ [MsgStartupTest i]) s)))
    with (step (world s)) in Hn1.
  pose proof (proj1 (Hcost (step (world s)))).
  pose proof (proj1 (Hcost (step (world s1)))).
  pose proof (proj1 (Hcost (step (world s2)))).
  pose proof (proj2 (Hcost (step (world s3)))).
  apply poll_ready_at_once in Hpoll as (rt & -> & Hrt);
    [| exact Hready | exact Hint | intros j; apply Hcost | lra].
  rewrite Hn3, Hn2, Hn1 in Hrt.
  rewrite truthy_time_positive in H by lra.
  apply bind_ok in H as (times1 & s5 & Hm & H).
  apply bind_ok in Hm as (u3 & s8 & _ & Hm). injection Hm as <- _.
  apply bind_ok in H as (u1 & s6 & _ & H).
  apply bind_ok in H as (u2 & s7 & _ & H).
  injection H as <- _. eauto.
Qed.

(** X8.  When the startup phase returns normally it has either left the
    results as they were or filed the three startup figures, with
    minimum <= average <= maximum.  It leaves them as they were when no
    executable is found and when the filter never answers a readiness
    poll; it files the figures when the executable is found and the filter
    answers every poll at once, no interrupt arriving, on a clock that
    starts non-negative and moves forward by less than ten seconds per
    interaction. *)
Theorem startup_phase_records :
  forall (env : Env) (fuel : nat) (s s' : State),
    measure_startup_performance env fuel s = (Ok tt, s') ->
    (test_results s' = test_results s
     \/ summary_recorded "avg_startup_time" "min_startup_time"
          "max_startup_time" (test_results s'))
    /\ (exe_found env (step (world s)) = None ->
        test_results s' = test_results s)
    /\ ((forall i, ready_resp env i = false) ->
        test_results s' = test_results s)
    /\ (exe_found env (step (world s)) <> None ->
        (forall i, ready_resp env i = true) ->
        (forall i, interrupted env i = false) ->
        (forall i, 0 < cost env i /\ cost env i < 10)%Q ->
        (0 <= now (world s))%Q ->
        fuel <> O ->
        summary_recorded "avg_startup_time" "min_startup_time"
          "max_startup_time" (test_results s')).
Proof.
  intros env fuel s s' H. unfold measure_startup_performance in H.
  apply bind_ok in H as (u & s0 & Hl & H). apply log_test_ok in Hl. subst s0.
  apply bind_ok in H as (exe & s1 & Hf & H).
  pose proof (sat_step _ _ _ _ _ _ (find_filter_executable_quiet env) Hf)
    as [Hr1 _].
  cbn [test_results set_log] in Hr1.
  assert (Hexe : exe = exe_found env (step (world s))
                 /\ (now (world s1) = now (world s) + cost env (step (world s)))%Q).
  { unfold find_filter_executable, interact, bind, gets, modify, ret in Hf.
    simpl in Hf. injection Hf as <- <-. split; reflexivity. }
  destruct Hexe as [Hexe Hn1].
  destruct exe as [exe|].
  - apply bind_ok in H as (times & s2 & Hc & H).
    pose proof (sat_step _ _ _ _ _ _
                  (startup_cycles_quiet env fuel exe [1; 2; 3; 4; 5] []) Hc)
      as [Hr2 _].
    assert (Hstored : times <> [] ->
              summary_recorded "avg_startup_time" "min_startup_time"
                "max_startup_time" (test_results s')).
    { intros Hne. destruct times as [|x xs]; [contradiction|].
      unfold store, log_test, bind, modify, ret in H.
      apply (f_equal snd) in H. cbn [snd is_nonempty] in H. subst s'.
      cbn [test_results set_results set_log].
      apply summary_stored; discriminate. }
    assert (Hkept : times = [] -> test_results s' = test_results s).
    { intros ->. injection H as <-. congruence. }
    split; [|split; [|split]].
    + destruct times as [|x xs]; [left; now apply Hkept|].
      right. apply Hstored. discriminate.
    + intros Hnone. rewrite Hnone in Hexe. discriminate Hexe.
    + intros Hnever. apply Hkept.
      eapply startup_cycles_never; eauto.
    + intros _ Hready Hint Hcost Hnow Hfuel. apply Hstored.
      destruct fuel as [|n]; [contradiction|].
      change (startup_cycles env (S n) exe [1; 2; 3; 4; 5] [] s1)
        with (bind (startup_cycle env (S n) exe 1 [])
                (fun t => startup_cycles env (S n) exe [2; 3; 4; 5] t) s1)
        in Hc.
      apply bind_ok in Hc as (times1 & sa & Hc1 & Hc).
      apply startup_cycle_measures in Hc1 as (t & ->); try assumption.
      * apply startup_cycles_extend in Hc as (l & ->). simpl. discriminate.
      * pose proof (proj1 (Hcost (step (world s)))). rewrite Hn1. lra.
  - apply (f_equal snd) in H. cbn [snd] in H.
    unfold log_test, modify in H. cbn [snd] in H. subst s'.
    cbn [test_results set_log].
    split; [left; exact Hr1|]. split; [intros _; exact Hr1|].
    split; [intros _; exact Hr1|].
    intros Hsome. symmetry in Hexe. contradiction.
Qed.

Lemma startup_phase_records_witness :
  summary_recorded "avg_startup_time" "min_startup_time" "max_startup_time"
    (test_results (snd (measure_startup_performance env_second_clock 3 tester0))).
Proof.
  refine (proj2 (proj2 (proj2
            (startup_phase_records env_second_clock 3 tester0
               (snd (measure_startup_performance env_second_clock 3 tester0)) _)))
            _ _ _ _ _ _).
  - vm_compute. reflexivity.
  - discriminate.
  - intros i. reflexivity.
  - intros i. reflexivity.
  - intros i. split; reflexivity.
  - vm_compute. discriminate.
  - discriminate.
Defined.

(** ** No filter executable *)

Lemma start_filter_missing env fuel s :
  exe_found env (step (world s)) = None ->
  exists s', start_filter env fuel s = (Raise FileNotFoundError, s')
             /\ only_logged [] s s'.
Proof.
  intros H.
  unfold start_filter, find_filter_executable, interact, bind, gets, modify,
    ret, raise. simpl. rewrite H.
  eexists. split; [reflexivity|].
  unfold only_logged. simpl. rewrite app_nil_r. auto.
Qed.

Lemma bracketed_missing env fuel (header : log_msg) (rest : M unit) s :
  (forall i, exe_found env i = None) ->
  filter_process s = None ->
  exists s',
    (log_test header ;;
     try_finally (start_filter env fuel ;; rest) (stop_filter env)) s
    = (Raise FileNotFoundError, s')
    /\ only_logged [header] s s'.
Proof.
  intros H Hp.
  destruct (start_filter_missing env fuel
              (set_log (fun l => l ++ [header]) s) (H _))
    as (s2 & E & Hl & Hr & Ht & Hf).
  exists s2. split.
  - unfold bind, log_test, modify, try_finally. rewrite E.
    rewrite stop_filter_noop; [reflexivity|].
    rewrite Hf. exact Hp.
  - unfold only_logged. rewrite Hl, Hr, Ht, Hf. simpl.
    rewrite app_nil_r. auto.
Qed.

Lemma startup_missing env fuel s :
  exe_found env (step (world s)) = None ->
  exists s', measure_startup_performance env fuel s = (Ok tt, s')
             /\ only_logged [MsgStartupHeader; MsgExeNotFound] s s'.
Proof.
  intros H.
  unfold measure_startup_performance, find_filter_executable, interact,
    log_test, bind, gets, modify, ret. simpl. rewrite H.
  eexists. split; [reflexivity|].
  unfold only_logged. simpl. rewrite <- app_assoc. auto.
Qed.

(** X9.  With no filter executable to be found, the startup phase logs
    that and returns normally, whereas each of the four other phases,
    entered with no process held, raises [FileNotFoundError] after its
    header line; none of them starts a process or touches the results. *)
Theorem phases_without_executable :
  forall (env : Env) (fuel : nat) (s : State),
    (forall i, exe_found env i = None) ->
    filter_process s = None ->
    (exists s', run_phase env fuel Startup s = (Ok tt, s')
                /\ only_logged [MsgStartupHeader; MsgExeNotFound] s s')
    /\ (forall p, p <> Startup ->
          exists s', run_phase env fuel p s = (Raise FileNotFoundError, s')
                     /\ only_logged [phase_header p] s s').
Proof.
  intros env fuel s H Hp. split.
  - apply startup_missing, H.
  - intros p Hne. destruct p; [contradiction| | | |];
      now apply bracketed_missing.
Qed.

Lemma phases_without_executable_witness :
  exists s',
    run_phase env_no_executable 1 Throughput tester0
    = (Raise FileNotFoundError, s')
    /\ only_logged [phase_header Throughput] tester0 s'.
Proof.
  refine (proj2 (phases_without_executable env_no_executable 1 tester0 _ _)
                Throughput _).
  - intros i. reflexivity.
  - reflexivity.
  - discriminate.
Defined.

Lemma preflight_keeps env s :
  existsb (String.eqb "requests") (sys_modules (world s)) = true ->
  exists s', preflight env s = (Ok true, s')
             /\ world s' = world s
             /\ filter_process s' = filter_process s
             /\ test_results s' = test_results s.
Proof.
  intros H. unfold preflight. unfold bind at 1, log_test at 1, modify at 1.
  unfold bind at 1, gets at 1. unfold bind at 1, gets at 1.
  unfold bind at 1, log_test at 1, modify at 1.
  match goal with
  | |- context [check_dependencies env ?s1] =>
      destruct (check_dependencies_passes env s1 H) as (s' & E & Hw & Hp & Hr)
  end.
  exists s'. split; [exact E|]. split; [exact Hw|]. split; [exact Hp|exact Hr].
Qed.

(** X10.  With no filter executable to be found, a run that passes the
    pre-flight check ends with exit code 1: after the pre-flight lines the
    log holds exactly the startup header, the executable-not-found line,
    the memory header and the failure line for [FileNotFoundError]; no
    process was started, no result filed and no report written. *)
Theorem run_without_executable :
  forall (env : Env) (fuel : nat) (cl : command_line) (w : World),
    (forall i, exe_found env i = None) ->
    existsb (String.eqb "requests") (sys_modules w) = true ->
    exists pre s',
      preflight env
        (FilterPerformanceTest (duration (parse_args cl))
           (connections (parse_args cl)) (output (parse_args cl)) w)
      = (Ok true, pre)
      /\ main env fuel cl w = (Ok 1, s')
      /\ test_log s' = test_log pre ++ [MsgStartupHeader; MsgExeNotFound;
                                        MsgMemoryHeader;
                                        MsgTestFailed FileNotFoundError]
      /\ test_results s' = ∅
      /\ trace (world s') = trace w
      /\ filter_process s' = None.
Proof.
  intros env fuel cl w H Hreq.
  set (tester := FilterPerformanceTest (duration (parse_args cl))
                   (connections (parse_args cl)) (output (parse_args cl)) w).
  destruct (preflight_keeps env tester Hreq) as (pre & Epre & Hw & Hp & Hr).
  destruct (startup_missing env fuel pre (H _))
    as (s1 & E1 & Hl1 & Hr1 & Ht1 & Hp1).
  destruct (bracketed_missing env fuel MsgMemoryHeader
              (time_sleep env 3 ;;
               memory_readings <- memory_loop env [1; 2; 3; 4; 5; 6; 7; 8; 9; 10] [] ;;
               if is_nonempty memory_readings then
                 store "avg_memory_mb" (mean memory_readings) ;;
                 store "min_memory_mb" (list_min memory_readings) ;;
                 store "max_memory_mb" (list_max memory_readings) ;;
                 log_test (MsgMemAvg (mean memory_readings)) ;;
                 log_test (MsgMemMinMax (list_min memory_readings)
                                        (list_max memory_readings))
               else ret tt) s1 H)
    as (s2 & E2 & Hl2 & Hr2 & Ht2 & Hp2).
  { rewrite Hp1, Hp. reflexivity. }
  change (measure_memory_usage env fuel s1 = (Raise FileNotFoundError, s2)) in E2.
  exists pre, (set_log (fun l => l ++ [MsgTestFailed FileNotFoundError]) s2).
  split; [exact Epre|]. split.
  - unfold main. fold tester.
    rewrite (run_all_tests_after_preflight env fuel tester pre true Epre).
    unfold try_except, run_body. unfold bind at 1. rewrite E1.
    unfold bind at 1. rewrite E2. reflexivity.
  - simpl. rewrite Hl2, Hl1, Hr2, Hr1, Hr, Ht2, Ht1, Hw, Hp2, Hp1, Hp.
    rewrite <- !app_assoc. simpl. repeat split; reflexivity.
Qed.

Lemma run_without_executable_witness :
  exists pre s',
    preflight env_no_executable
      (FilterPerformanceTest (duration (parse_args (mkCommandLine None None None)))
         (connections (parse_args (mkCommandLine None None None)))
         (output (parse_args (mkCommandLine None None None))) world0)
    = (Ok true, pre)
    /\ main env_no_executable 1 (mkCommandLine None None None) world0 = (Ok 1, s')
    /\ test_log s' = test_log pre ++ [MsgStartupHeader; MsgExeNotFound;
                                      MsgMemoryHeader;
                                      MsgTestFailed FileNotFoundError]
    /\ test_results s' = ∅
    /\ trace (world s') = trace world0
    /\ filter_process s' = None.
Proof.
  apply (run_without_executable env_no_executable 1
           (mkCommandLine None None None) world0).
  - intros i. reflexivity.
  - reflexivity.
Defined.

(** ** A whole run and the filter process *)

Lemma import_world_trace found name w w1 :
  import_world found name w = Some w1 -> trace w1 = trace w.
Proof.
  unfold import_world.
  destruct (existsb (String.eqb name) (sys_modules w)).
  - intros H; injection H as <-. reflexivity.
  - destruct (found name); [|discriminate].
    intros H; injection H as <-. reflexivity.
Qed.

Lemma import_module_proc env name : sat same_proc any_exn (import_module env name).
Proof.
  intros s. unfold import_module, bind, gets. simpl.
  destruct (import_world (import_found env) name (world s)) as [w1|] eqn:E.
  - unfold modify. simpl. split; [|discriminate].
    split; [simpl; now apply import_world_trace in E | reflexivity].
  - unfold raise. simpl. split; [apply same_proc_refl | intros; exact I].
Qed.
#[local] Hint Resolve import_module_proc : sat_db.

Lemma check_dependencies_proc env : sat same_proc any_exn (check_dependencies env).
Proof.
  unfold check_dependencies.
  apply (sat_bind _ _ same_proc_trans); [unfold log_test; sat_proc | intros u].
  apply (sat_try_except _ _ same_proc_trans).
  - apply sat_weaken with (R := same_proc) (E := any_exn);
      [auto | intros e _; destruct (match e with ImportError => true | _ => false end); exact I |].
    unfold log_test. sat_proc.
  - intros e. unfold log_test. sat_proc.
Qed.
#[local] Hint Resolve check_dependencies_proc : sat_db.

Lemma preflight_proc env : sat same_proc any_exn (preflight env).
Proof. unfold preflight, log_test. sat_proc. Qed.

Lemma generate_report_proc env : sat same_proc any_exn (generate_report env).
Proof. unfold generate_report, log_test. sat_proc. Qed.

Lemma triple_try_except {A} (P : State -> Prop) (body : M A)
    (catches : exn -> bool) (handler : exn -> M A)
    (Q : A -> State -> Prop) (X X' : exn -> State -> Prop) :
  triple P body Q X ->
  (forall e, catches e = true -> triple (X e) (handler e) Q X') ->
  (forall e s, catches e = false -> X e s -> X' e s) ->
  triple P (try_except body catches handler) Q X'.
Proof.
  intros Hb Hh Hx s HP. unfold try_except. specialize (Hb s HP).
  destruct (body s) as [[a|e|] s1]; auto.
  destruct (catches e) eqn:Ec.
  - now apply (Hh e Ec).
  - now apply Hx.
Qed.

Lemma run_body_releases env fuel :
  triple released (run_body env fuel) (fun _ => released)
         released_unless_interrupted.
Proof.
  unfold run_body.
  eapply triple_bind; [apply measure_startup_performance_releases | intros u1].
  assert (Hscoped : forall p, p <> Startup ->
            triple released (run_phase env fuel p) (fun _ => released)
                   released_unless_interrupted).
  { intros p Hp. eapply triple_conseq; [apply (scoped_phases_release env fuel p Hp) | auto | auto |].
    intros e s H _. exact H. }
  eapply triple_bind; [apply (Hscoped Memory); discriminate | intros u2].
  eapply triple_bind; [apply (Hscoped Throughput); discriminate | intros u3].
  eapply triple_bind; [apply (Hscoped Accuracy); discriminate | intros u4].
  eapply triple_bind; [apply (Hscoped Concurrency); discriminate | intros u5].
  eapply triple_bind with (Q := fun _ => released).
  { eapply triple_frame with (R := same_proc) (E := any_exn);
      [apply generate_report_proc | apply released_proc |].
    intros e s s' _ HR HP _. eapply released_proc; eauto. }
  intros r s H. exact H.
Qed.

Lemma run_all_tests_releases env fuel :
  triple released (run_all_tests env fuel) (fun _ => released) (fun _ _ => True).
Proof.
  unfold run_all_tests.
  eapply triple_bind with (Q := fun _ => released).
  { eapply triple_frame with (R := same_proc) (E := any_exn);
      [apply preflight_proc | apply released_proc | intros; exact I]. }
  intros ok. destruct ok; simpl.
  - eapply triple_try_except; [apply run_body_releases | | intros; exact I].
    intros e He s H. unfold run_handler, log_test, bind, modify, ret. simpl.
    assert (Hrel : released s) by (apply H; intros ->; discriminate He).
    exact Hrel.
  - intros s H. exact H.
Qed.

(** X11.  A run that comes back with a verdict leaves no filter process
    behind: started from a state holding no process, [run_all_tests]
    returning [True] or [False] ends holding none, with every [Popen] of
    the trace followed by a [terminate] of that process; so does the
    program whenever it reaches its exit code. *)
Theorem run_leaves_no_process :
  forall (env : Env) (fuel : nat),
    (forall (s s' : State) (b : bool),
        released s -> run_all_tests env fuel s = (Ok b, s') ->
        released s'
        /\ forall h, terminates h (trace (world s')) = popens h (trace (world s')))
    /\ (forall (cl : command_line) (w : World) (code : Z) (s' : State),
           at_rest (trace w) -> main env fuel cl w = (Ok code, s') ->
           released s' /\ (code = 0 \/ code = 1)).
Proof.
  intros env fuel.
  assert (Hrun : forall s s' b, released s ->
            run_all_tests env fuel s = (Ok b, s') -> released s').
  { intros s s' b Hs Hr. pose proof (run_all_tests_releases env fuel s Hs) as H.
    rewrite Hr in H. exact H. }
  split.
  - intros s s' b Hs Hr. pose proof (Hrun s s' b Hs Hr) as H.
    split; [exact H|]. intros h. now apply released_counts.
  - intros cl w code s' Hw. unfold main.
    set (tester := FilterPerformanceTest _ _ _ w).
    destruct (run_all_tests env fuel tester) as [[b|e|] s1] eqn:E;
      intros H; try discriminate H.
    injection H as <- <-. split.
    + apply (Hrun tester s1 b); [|exact E]. split; [reflexivity | exact Hw].
    + destruct b; auto.
Qed.

Lemma run_leaves_no_process_witness :
  released (snd (run_all_tests env_no_executable 1 tester0))
  /\ forall h,
       terminates h (trace (world (snd (run_all_tests env_no_executable 1 tester0))))
       = popens h (trace (world (snd (run_all_tests env_no_executable 1 tester0)))).
Proof.
  apply (proj1 (run_leaves_no_process env_no_executable 1) tester0 _ false).
  - split; [reflexivity | exact I].
  - vm_compute. reflexivity.
Defined.

(** ** A successful run *)

Lemma same_path_refl s : same_path s s.
Proof. reflexivity. Qed.

Lemma same_path_trans s1 s2 s3 :
  same_path s1 s2 -> same_path s2 s3 -> same_path s1 s3.
Proof. unfold same_path. congruence. Qed.

Lemma self_as_path {A} (E : exn -> Prop) (m : M A) :
  sat same_self E m -> sat same_path any_exn m.
Proof.
  apply sat_weaken; [|intros; exact I].
  intros s s' (_ & _ & H & _). exact H.
Qed.

Lemma clock_as_path {A} (E : exn -> Prop) (m : M A) :
  sat only_clock E m -> sat same_path any_exn m.
Proof.
  intros H. eapply self_as_path, sat_weaken; [apply only_clock_same_self | | exact H].
  intros e He. exact He.
Qed.

Ltac sat_path := sat_go same_path_refl same_path_trans.

Lemma modify_path (f : State -> State) :
  (forall s, output_path (f s) = output_path s) ->
  sat same_path any_exn (modify f).
Proof. intros H. apply sat_modify. exact H. Qed.

Lemma log_test_path msg : sat same_path any_exn (log_test msg).
Proof. apply modify_path. reflexivity. Qed.

Lemma store_path key v : sat same_path any_exn (store key v).
Proof. apply modify_path. reflexivity. Qed.

Lemma start_filter_path env fuel : sat same_path any_exn (start_filter env fuel).
Proof. eapply self_as_path, start_filter_self. Qed.

Lemma stop_filter_path env : sat same_path any_exn (stop_filter env).
Proof. eapply self_as_path, stop_filter_self. Qed.

Lemma Popen_path env exe : sat same_path any_exn (Popen env exe).
Proof. eapply self_as_path, Popen_self. Qed.

Lemma terminate_and_wait_path env h :
  sat same_path any_exn (terminate_and_wait env h).
Proof. eapply self_as_path, terminate_and_wait_self. Qed.

Lemma py_div_path x y : sat same_path any_exn (py_div x y).
Proof. eapply clock_as_path, py_div_clock. Qed.

Lemma time_time_path env : sat same_path any_exn (time_time env).
Proof. eapply clock_as_path, time_time_clock. Qed.

Lemma time_sleep_path env d : sat same_path any_exn (time_sleep env d).
Proof. eapply clock_as_path, time_sleep_clock. Qed.

Lemma blocking_path env : sat same_path any_exn (blocking env).
Proof. eapply clock_as_path, blocking_clock. Qed.

Lemma interact_path env : sat same_path any_exn (interact env).
Proof. eapply clock_as_path, interact_clock. Qed.

Lemma requests_get_path env url : sat same_path any_exn (requests_get env url).
Proof. eapply clock_as_path, requests_get_clock. Qed.

Lemma memory_info_path env : sat same_path any_exn (memory_info env).
Proof. eapply clock_as_path, memory_info_clock. Qed.

Lemma find_filter_executable_path env :
  sat same_path any_exn (find_filter_executable env).
Proof. eapply clock_as_path, find_filter_executable_clock. Qed.

Lemma poll_ready_path env n timeout :
  sat same_path any_exn (poll_ready env n timeout).
Proof. eapply clock_as_path, poll_ready_clock. Qed.

Lemma perf_loop_path env n end_time a :
  sat same_path any_exn (perf_loop env n end_time a).
Proof. eapply clock_as_path, perf_loop_clock. Qed.

#[local] Hint Resolve log_test_path store_path start_filter_path
  stop_filter_path Popen_path terminate_and_wait_path py_div_path
  time_time_path time_sleep_path blocking_path interact_path
  requests_get_path memory_info_path find_filter_executable_path
  poll_ready_path perf_loop_path : sat_db.

Lemma startup_cycles_path env fuel exe range times :
  sat same_path any_exn (startup_cycles env fuel exe range times).
Proof. revert times; induction range; intros; simpl; sat_path. Qed.

Lemma memory_loop_path env range readings :
  sat same_path any_exn (memory_loop env range readings).
Proof. revert readings; induction range; intros; simpl; sat_path. Qed.

Lemma accuracy_loop_path env cases c :
  sat same_path any_exn (accuracy_loop env cases c).
Proof.
  revert c; induction cases as [|[[url sb] d] rest IH]; intros; simpl; sat_path.
Qed.
#[local] Hint Resolve startup_cycles_path memory_loop_path accuracy_loop_path
  : sat_db.

Lemma run_phase_path env fuel p : sat same_path any_exn (run_phase env fuel p).
Proof. destruct p; simpl; sat_path. Qed.

Lemma import_module_path env name : sat same_path any_exn (import_module env name).
Proof.
  intros s. unfold import_module, bind, gets. simpl.
  destruct (import_world (import_found env) name (world s)) as [w1|].
  - unfold modify. simpl. split; [reflexivity | discriminate].
  - unfold raise. simpl. split; [reflexivity | intros; exact I].
Qed.
#[local] Hint Resolve import_module_path : sat_db.

Lemma check_dependencies_path env : sat same_path any_exn (check_dependencies env).
Proof.
  unfold check_dependencies.
  apply (sat_bind _ _ same_path_trans); [auto with sat_db | intros u].
  apply (sat_try_except _ _ same_path_trans).
  - apply sat_weaken with (R := same_path) (E := any_exn);
      [auto | intros e _; destruct (match e with ImportError => true | _ => false end); exact I |].
    sat_path.
  - intros e. sat_path.
Qed.
#[local] Hint Resolve check_dependencies_path : sat_db.

Lemma preflight_path env : sat same_path any_exn (preflight env).
Proof. unfold preflight. sat_path. Qed.

(** A phase logs its header before anything else. *)
Lemma header_logged {A} (msg : log_msg) (k : unit -> M A) (s : State) :
  sat log_grows any_exn (k tt) ->
  In msg (test_log (snd (bind (log_test msg) k s))).
Proof.
  intros Hk.
  change (bind (log_test msg) k s)
    with (k tt (set_log (fun l => l ++ [msg]) s)).
  apply (sat_log_in any_exn); [exact Hk|].
  simpl. apply in_or_app. right. now left.
Qed.

Lemma run_phase_logs_header env fuel p s :
  In (phase_header p) (test_log (snd (run_phase env fuel p s))).
Proof.
  destruct p; cbn [run_phase phase_header].
  - unfold measure_startup_performance. apply header_logged.
    unfold store, log_test. sat_log.
  - unfold measure_memory_usage. apply header_logged.
    unfold memory_body, store, log_test. sat_log.
  - unfold measure_filtering_performance. apply header_logged.
    unfold filtering_body, block_rate_of, store, log_test. sat_log.
  - unfold test_blocking_accuracy. apply header_logged.
    unfold accuracy_body, accuracy_of, store, log_test. sat_log.
  - unfold test_concurrent_load. apply header_logged.
    unfold concurrent_body, concurrent_measure, thread_pool_results, store,
      log_test. sat_log.
Qed.

Lemma run_phase_headers env fuel path ps p :
  triple (headers_logged path ps) (run_phase env fuel p)
         (fun _ => headers_logged path (p :: ps)) (fun _ _ => True).
Proof.
  intros s [Hpath Hlog].
  pose proof (proj1 (run_phase_path env fuel p s)) as Hp.
  pose proof (run_phase_logs_header env fuel p s) as Hh.
  pose proof (fun x => sat_log_in any_exn (run_phase env fuel p) s x
                         (run_phase_log env fuel p)) as Hkeep.
  destruct (run_phase env fuel p s) as [[[]|e|] s1]; simpl in *; try exact I.
  split; [unfold same_path in Hp; congruence|].
  intros q [<-|Hq]; [exact Hh | apply Hkeep, Hlog, Hq].
Qed.

Lemma generate_report_succeeds env path ps :
  (forall p, In p ps) ->
  triple (headers_logged path ps) (generate_report env ;; ret true)
         (fun _ => run_succeeded path) (fun _ _ => True).
Proof.
  intros Hall s [Hpath Hlog].
  unfold generate_report, interact, log_test, bind, gets, modify, ret, raise.
  simpl.
  destruct (report_formats (test_results s)) eqn:Ef; [|exact I].
  destruct (write_ok env _); [|exact I].
  simpl. exists (test_log s). rewrite Hpath.
  split; [cbn [test_log set_log set_world]; now rewrite <- app_assoc|].
  split; [|exact Ef].
  intros p. apply Hlog, Hall.
Qed.

Lemma run_body_succeeds env fuel path :
  triple (headers_logged path []) (run_body env fuel)
         (fun _ => run_succeeded path) (fun _ _ => True).
Proof.
  rewrite run_body_run_list. cbn [phases_from run_list].
  eapply triple_bind; [apply run_phase_headers | intros u1].
  eapply triple_bind; [apply run_phase_headers | intros u2].
  eapply triple_bind; [apply run_phase_headers | intros u3].
  eapply triple_bind; [apply run_phase_headers | intros u4].
  eapply triple_bind; [apply run_phase_headers | intros u5].
  apply generate_report_succeeds.
  intros p. destruct p; simpl; tauto.
Qed.

(** X12.  Exit code 0 means the whole run went through: the log holds
    the header of each of the five phases and ends with the report header
    and the line naming the report file, which is the object's report
    path (a non-empty path given on the command line is used as given);
    and every section of the report had the figures its format needs. *)
Theorem exit_code_zero_means_report_written :
  forall (env : Env) (fuel : nat) (cl : command_line) (w : World) (s' : State),
    main env fuel cl w = (Ok 0, s') ->
    let tester := FilterPerformanceTest (duration (parse_args cl))
                    (connections (parse_args cl)) (output (parse_args cl)) w in
    run_succeeded (output_path tester) s'
    /\ (forall p, flag_output cl = Some p -> p <> ""%string ->
          output_path tester = p).
Proof.
  intros env fuel cl w s' Hmain tester. split.
  2:{ intros p Hp Hne. subst tester. unfold FilterPerformanceTest, parse_args.
      cbn [output_path output]. rewrite Hp.
      destruct (String.eqb_spec p ""); [contradiction | reflexivity]. }
  revert Hmain. unfold main. fold tester.
  set (path := output_path tester).
  assert (Hrun :
    triple (headers_logged path []) (run_all_tests env fuel)
      (fun b s => b = true -> run_succeeded path s) (fun _ _ => True)).
  { unfold run_all_tests.
    eapply triple_bind with (Q := fun _ => headers_logged path []).
    { eapply triple_frame with (R := same_path) (E := any_exn);
        [apply preflight_path | | intros; exact I].
      intros s s1 Hp [H1 H2]. split; [unfold same_path in Hp; congruence|].
      intros q []. }
    intros ok. destruct ok; simpl.
    - eapply triple_try_except with (X := fun _ _ => True).
      + eapply triple_conseq;
          [apply (run_body_succeeds env fuel path) | auto | | auto].
        intros b s H _. exact H.
      + intros e _ s _. unfold run_handler, log_test, bind, modify, ret.
        simpl. discriminate.
      + intros; exact I.
    - intros s _. simpl. discriminate. }
  specialize (Hrun tester).
  destruct (run_all_tests env fuel tester) as [[b|e|] s1]; intros H;
    try discriminate H.
  destruct b; [|discriminate H]. injection H as <-.
  apply Hrun; [|reflexivity].
  split; [reflexivity | intros q []].
Qed.

Lemma exit_code_zero_means_report_written_witness :
  run_succeeded "out.txt"
    (snd (main env_second_clock 5 (mkCommandLine (Some 2) None (Some "out.txt"))
            world0)).
Proof.
  refine (proj1 (exit_code_zero_means_report_written env_second_clock 5
                   (mkCommandLine (Some 2) None (Some "out.txt")) world0 _ _)).
  vm_compute. reflexivity.
Defined.

(** ** A proxy that answers no request *)

Lemma import_module_quiet env name : sat quiet any_exn (import_module env name).
Proof.
  intros s. unfold import_module, bind, gets. simpl.
  unfold import_world.
  destruct (existsb (String.eqb name) (sys_modules (world s))).
  - unfold modify. simpl. split; [|discriminate].
    split; reflexivity.
  - destruct (import_found env name).
    + unfold modify. simpl. split; [|discriminate]. split; reflexivity.
    + unfold raise. simpl. split; [apply quiet_refl | intros; exact I].
Qed.
#[local] Hint Resolve import_module_quiet : sat_db.

Lemma check_dependencies_quiet env : sat quiet any_exn (check_dependencies env).
Proof.
  unfold check_dependencies.
  apply (sat_bind _ _ quiet_trans); [auto with sat_db | intros u].
  apply (sat_try_except _ _ quiet_trans).
  - apply sat_weaken with (R := quiet) (E := any_exn);
      [auto | intros e _; destruct (match e with ImportError => true | _ => false end); exact I |].
    sat_quiet.
  - intros e. sat_quiet.
Qed.
#[local] Hint Resolve check_dependencies_quiet : sat_db.

Lemma preflight_quiet env : sat quiet any_exn (preflight env).
Proof. unfold preflight. sat_quiet. Qed.

Lemma requests_get_unanswered env url :
  (forall i u, proxy_resp env i u = None) ->
  triple (fun _ => True) (requests_get env url)
         (fun r _ => r = None) (fun _ _ => True).
Proof.
  intros H s _.
  unfold requests_get, blocking, interact, bind, gets, modify, ret, raise.
  simpl. destruct (interrupted env _); simpl; [exact I | apply H].
Qed.

Lemma perf_urls_unanswered env urls end_time :
  (forall i u, proxy_resp env i u = None) ->
  forall a,
    triple (fun _ => True) (perf_urls env urls end_time a)
           (fun a' _ => response_times a' = response_times a)
           (fun _ _ => True).
Proof.
  intros H. induction urls as [|url rest IH]; intros a.
  - intros s _. reflexivity.
  - cbn [perf_urls].
    eapply triple_bind; [apply triple_any | intros request_start].
    eapply triple_bind; [now apply requests_get_unanswered | intros response].
    destruct response as [text|].
    { intros s Hr. discriminate Hr. }
    eapply triple_conseq with (P := fun _ => True);
      [ | intros; exact I | intros ? ? Hq; exact Hq | auto].
    eapply triple_bind with (Q := fun a' _ => a' = perf_on_failure a).
    { intros s _. reflexivity. }
    intros a'.
    eapply triple_bind; [apply triple_pure | intros t].
    destruct (Qle_bool end_time t).
    + intros s ->. reflexivity.
    + intros s ->. apply (IH (perf_on_failure a) s I).
Qed.

Lemma perf_loop_unanswered env n end_time :
  (forall i u, proxy_resp env i u = None) ->
  forall a,
    triple (fun _ => True) (perf_loop env n end_time a)
           (fun a' _ => response_times a' = response_times a)
           (fun _ _ => True).
Proof.
  intros H. induction n as [|n IH]; intros a.
  - intros s _. exact I.
  - cbn [perf_loop].
    eapply triple_bind; [apply triple_any | intros t].
    destruct (Qlt_bool t end_time).
    + eapply triple_bind; [now apply perf_urls_unanswered | intros a'].
      intros s Ha. pose proof (IH a' s I) as H1.
      destruct (perf_loop env n end_time a' s) as [[a2|e|] s2]; try exact I.
      congruence.
    + intros s _. reflexivity.
Qed.

Lemma filtering_tail_unanswered env fuel (d0 : gmap string Q) :
  (forall i u, proxy_resp env i u = None) ->
  triple (fun s => test_results s = d0)
    (time_sleep env 3 ;; start_time <- time_time env ;;
     duration <- gets test_duration ;;
     log_test (MsgPerfSending duration) ;;
     t <- time_time env ;;
     let end_time := (t + inject_Z duration)%Q in
     a <- perf_loop env fuel end_time (mkPerf 0 0 []) ;;
     t' <- time_time env ;;
     let actual_duration := (t' - start_time)%Q in
     rps <- py_div (inject_Z (request_count a)) actual_duration ;;
     store "requests_per_second" rps ;;
     store "total_requests" (inject_Z (request_count a)) ;;
     store "blocked_requests" (inject_Z (blocked_count a)) ;;
     block_rate <- block_rate_of a ;;
     store "block_rate" block_rate ;;
     (if is_nonempty (response_times a) then
        store "avg_response_time" (mean (response_times a)) ;;
        store "min_response_time" (list_min (response_times a)) ;;
        store "max_response_time" (list_max (response_times a))
      else ret tt) ;;
     log_test MsgPerfResults ;;
     log_test (MsgPerfRate rps) ;;
     log_test (MsgPerfTotal (request_count a)) ;;
     log_test (MsgPerfBlocked (blocked_count a) block_rate) ;;
     (if is_nonempty (response_times a)
      then log_test (MsgPerfAvgResponse (mean (response_times a)))
      else ret tt))
    (fun _ => rate_without_times d0) (fun _ _ => True).
Proof.
  intros H.
  eapply triple_bind;
    [apply (triple_same_results interrupt_only), time_sleep_clock | intros u1].
  eapply triple_bind;
    [apply (triple_same_results interrupt_only), time_time_clock
    | intros start_time].
  eapply triple_bind with (Q := fun _ s => test_results s = d0);
    [intros s Hs; exact Hs | intros duration].
  eapply triple_bind with (Q := fun _ s => test_results s = d0);
    [intros s Hs; exact Hs | intros u2].
  eapply triple_bind;
    [apply (triple_same_results interrupt_only), time_time_clock
    | intros t].
  cbv zeta.
  eapply triple_bind
    with (Q := fun a s => response_times a = [] /\ test_results s = d0).
  { eapply triple_conseq.
    - apply triple_conj.
      + apply (perf_loop_unanswered env fuel (t + inject_Z duration) H
                 (mkPerf 0 0 [])).
      + apply (triple_same_results interrupt_only), perf_loop_clock.
    - intros s Hs. split; [exact I | exact Hs].
    - intros a s Hs. exact Hs.
    - intros; exact I. }
  intros a.
  eapply triple_bind
    with (Q := fun _ s => response_times a = [] /\ test_results s = d0).
  { eapply triple_conseq.
    - apply triple_conj;
        [apply (triple_pure (response_times a = []))
        | apply (triple_same_results interrupt_only), time_time_clock].
    - intros s Hs. exact Hs.
    - intros ? s Hs. exact Hs.
    - intros; exact I. }
  intros t'. intros s [Hrt Hd]. rewrite Hrt.
  unfold py_div. destruct (Qeq_bool (t' - start_time) 0); [exact I|].
  unfold block_rate_of, py_div.
  destruct (Z.ltb_spec 0 (request_count a)) as [Hpos|Hzero].
  - rewrite Qeq_bool_inject_nonzero by lia.
    unfold store, log_test, bind, gets, modify, ret, raise. simpl.
    split; [simplify_map_eq; eauto | simplify_map_eq; reflexivity].
  - unfold store, log_test, bind, gets, modify, ret, raise. simpl.
    split; [simplify_map_eq; eauto | simplify_map_eq; reflexivity].
Qed.

Lemma measure_filtering_performance_unanswered env fuel s s' :
  (forall i u, proxy_resp env i u = None) ->
  measure_filtering_performance env fuel s = (Ok tt, s') ->
  rate_without_times (test_results s) s'.
Proof.
  intros H Hrun.
  assert (Hphase :
    triple (fun s0 => test_results s0 = test_results s)
      (measure_filtering_performance env fuel)
      (fun _ => rate_without_times (test_results s))
      (fun _ _ => True)).
  { unfold measure_filtering_performance, filtering_body.
    apply scoped_phase_triple.
    - intros s0 Hs. exact Hs.
    - intros s0 s1 (_ & _ & _ & Hr & _) Hs. congruence.
    - intros s0 s1 (_ & _ & _ & Hr & _) Hs. unfold rate_without_times.
      rewrite Hr. exact Hs.
    - now apply filtering_tail_unanswered. }
  specialize (Hphase s eq_refl). rewrite Hrun in Hphase. exact Hphase.
Qed.

(** The report cannot be formatted when a throughput rate is filed
    without response times. *)
Lemma report_formats_needs_times (d : gmap string Q) :
  is_Some (d !! "requests_per_second") ->
  d !! "avg_response_time" = None ->
  report_formats d = false.
Proof.
  intros [v Hv] Havg. unfold report_formats.
  assert (H3 : section_formats "requests_per_second"
                 ["requests_per_second"; "block_rate"; "avg_response_time";
                  "min_response_time"; "max_response_time"]%string d = false).
  { unfold section_formats. rewrite Hv. cbn [forallb]. rewrite Havg.
    assert (Hn : bool_decide (is_Some (@None Q)) = false).
    { apply bool_decide_eq_false_2. intros [x Hx]. discriminate Hx. }
    rewrite Hn, andb_false_l, !andb_false_r. reflexivity. }
  rewrite H3.
  destruct (section_formats "avg_startup_time" _ d),
           (section_formats "avg_memory_mb" _ d); reflexivity.
Qed.

Lemma generate_report_unformattable env s :
  report_formats (test_results s) = false ->
  generate_report env s
  = (Raise ValueError, set_log (fun l => l ++ [MsgReportHeader]) s).
Proof.
  intros H. unfold generate_report, log_test, bind, gets, modify, raise.
  simpl. rewrite H. reflexivity.
Qed.

Lemma phase_keeps_entry env fuel p s r s' k :
  ~ In k (phase_keys p) ->
  run_phase env fuel p s = (r, s') ->
  test_results s' !! k = test_results s !! k.
Proof.
  intros Hk Hrun. destruct (run_phase_writes env fuel p s) as [H _].
  rewrite Hrun in H. now apply H.
Qed.

Lemma phase_keeps_times env fuel p s r s' :
  p <> Throughput ->
  run_phase env fuel p s = (r, s') ->
  test_results s' !! "avg_response_time" = test_results s !! "avg_response_time"
  /\ test_results s' !! "requests_per_second"
     = test_results s !! "requests_per_second".
Proof.
  intros Hp Hrun.
  split; (eapply phase_keeps_entry; [|exact Hrun]);
    destruct p; simpl; try contradiction; intuition discriminate.
Qed.

Lemma reaches_times_missing env fuel s0 p s :
  (forall i u, proxy_resp env i u = None) ->
  test_results s0 !! "avg_response_time" = None ->
  reaches env fuel s0 p s -> times_missing p s.
Proof.
  intros H H0 Hreach.
  induction Hreach as [|p q s1 s2 Hreach IH Hrun Hnext].
  - split; [exact H0 | exact I].
  - destruct IH as [Havg Hrps].
    destruct p; simpl in Hnext; try discriminate Hnext;
      injection Hnext as <-.
    + destruct (phase_keeps_times env fuel Startup s1 _ s2 ltac:(discriminate) Hrun)
        as [Ha _].
      split; [now rewrite Ha | exact I].
    + destruct (phase_keeps_times env fuel Memory s1 _ s2 ltac:(discriminate) Hrun)
        as [Ha _].
      split; [now rewrite Ha | exact I].
    + destruct (measure_filtering_performance_unanswered env fuel s1 s2 H Hrun)
        as [Hr Ha].
      split; [now rewrite Ha | exact Hr].
    + destruct (phase_keeps_times env fuel Accuracy s1 _ s2 ltac:(discriminate) Hrun)
        as [Ha Hr].
      split; [now rewrite Ha | now rewrite Hr].
Qed.

Lemma unanswered_report_fails env fuel s0 s4 s5 :
  (forall i u, proxy_resp env i u = None) ->
  test_results s0 !! "avg_response_time" = None ->
  reaches env fuel s0 Concurrency s4 ->
  run_phase env fuel Concurrency s4 = (Ok tt, s5) ->
  generate_report env s5
  = (Raise ValueError, set_log (fun l => l ++ [MsgReportHeader]) s5).
Proof.
  intros H H0 Hreach Hrun.
  destruct (reaches_times_missing env fuel s0 Concurrency s4 H H0 Hreach)
    as [Havg Hrps].
  destruct (phase_keeps_times env fuel Concurrency s4 _ s5 ltac:(discriminate) Hrun)
    as [Ha Hr].
  apply generate_report_unformattable, report_formats_needs_times.
  - now rewrite Hr.
  - now rewrite Ha.
Qed.

(** X13.  If the proxy answers none of the requests sent through it, a
    run started without response times on file cannot succeed: when all
    five phases return normally, the throughput phase has filed a rate but
    no response times, so formatting the report raises [ValueError] after
    the report header is logged; hence [run_all_tests] never returns
    [True]. *)
Theorem unanswered_proxy_fails_run :
  forall (env : Env) (fuel : nat) (s : State),
    (forall i u, proxy_resp env i u = None) ->
    test_results s !! "avg_response_time" = None ->
    (forall s4 s5,
        reaches env fuel s Concurrency s4 ->
        run_phase env fuel Concurrency s4 = (Ok tt, s5) ->
        generate_report env s5
        = (Raise ValueError, set_log (fun l => l ++ [MsgReportHeader]) s5))
    /\ (forall s', run_all_tests env fuel s <> (Ok true, s')).
Proof.
  intros env fuel s H H0. split.
  - intros s4 s5. now apply unanswered_report_fails.
  - intros s' Hrun.
    destruct (preflight env s) as [[ok|e|] sc] eqn:Epre;
      try (unfold run_all_tests, bind in Hrun; rewrite Epre in Hrun;
           discriminate Hrun).
    rewrite (run_all_tests_after_preflight env fuel s sc ok Epre) in Hrun.
    destruct ok; [|discriminate Hrun].
    assert (Hsc : test_results sc !! "avg_response_time" = None).
    { destruct (preflight_quiet env s) as [[Hq _] _]. rewrite Epre in Hq.
      simpl in Hq. now rewrite Hq. }
    unfold try_except in Hrun.
    rewrite run_body_run_list in Hrun. cbn [phases_from run_list] in Hrun.
    unfold bind at 1 in Hrun.
    destruct (run_phase env fuel Startup sc) as [[[]|e1|] s1] eqn:E1;
      [| destruct (is_Exception e1); discriminate Hrun | discriminate Hrun].
    unfold bind at 1 in Hrun.
    destruct (run_phase env fuel Memory s1) as [[[]|e2|] s2] eqn:E2;
      [| destruct (is_Exception e2); discriminate Hrun | discriminate Hrun].
    unfold bind at 1 in Hrun.
    destruct (run_phase env fuel Throughput s2) as [[[]|e3|] s3] eqn:E3;
      [| destruct (is_Exception e3); discriminate Hrun | discriminate Hrun].
    unfold bind at 1 in Hrun.
    destruct (run_phase env fuel Accuracy s3) as [[[]|e4|] s4] eqn:E4;
      [| destruct (is_Exception e4); discriminate Hrun | discriminate Hrun].
    unfold bind at 1 in Hrun.
    destruct (run_phase env fuel Concurrency s4) as [[[]|e5|] s5] eqn:E5;
      [| destruct (is_Exception e5); discriminate Hrun | discriminate Hrun].
    assert (Hreach : reaches env fuel sc Concurrency s4).
    { eapply reaches_next; [|exact E4|reflexivity].
      eapply reaches_next; [|exact E3|reflexivity].
      eapply reaches_next; [|exact E2|reflexivity].
      eapply reaches_next; [|exact E1|reflexivity].
      apply reaches_first. }
    unfold bind at 1 in Hrun.
    rewrite (unanswered_report_fails env fuel sc s4 s5 H Hsc Hreach E5) in Hrun.
    simpl in Hrun. discriminate Hrun.
Qed.

Lemma unanswered_proxy_fails_run_witness :
  generate_report env_silent_proxy
    (silent_run [Startup; Memory; Throughput; Accuracy; Concurrency])
  = (Raise ValueError,
     set_log (fun l => l ++ [MsgReportHeader])
       (silent_run [Startup; Memory; Throughput; Accuracy; Concurrency])).
Proof.
  refine (proj1 (unanswered_proxy_fails_run env_silent_proxy 5 tester_short _ _)
            (silent_run [Startup; Memory; Throughput; Accuracy])
            (silent_run [Startup; Memory; Throughput; Accuracy; Concurrency])
            _ _).
  - intros i u. reflexivity.
  - reflexivity.
  - apply (reaches_next _ _ _ Accuracy Concurrency
             (silent_run [Startup; Memory; Throughput]));
      [|vm_compute; reflexivity | reflexivity].
    apply (reaches_next _ _ _ Throughput Accuracy (silent_run [Startup; Memory]));
      [|vm_compute; reflexivity | reflexivity].
    apply (reaches_next _ _ _ Memory Throughput (silent_run [Startup]));
      [|vm_compute; reflexivity | reflexivity].
    apply (reaches_next _ _ _ Startup Memory tester_short);
      [|vm_compute; reflexivity | reflexivity].
    apply reaches_first.
  - vm_compute. reflexivity.
Defined.

(** ** Running without psutil *)

Lemma keeps_no_memory_refl s : keeps_no_memory s s.
Proof. intros H. exact H. Qed.

Lemma keeps_no_memory_trans s1 s2 s3 :
  keeps_no_memory s1 s2 -> keeps_no_memory s2 s3 -> keeps_no_memory s1 s3.
Proof. unfold keeps_no_memory. auto. Qed.

Lemma quiet_keeps_no_memory s s' : quiet s s' -> keeps_no_memory s s'.
Proof. intros [Hr Hp] [H1 H2]. split; congruence. Qed.

Lemma quiet_as_no_memory {A} (m : M A) :
  sat quiet any_exn m -> sat keeps_no_memory any_exn m.
Proof. apply sat_weaken; [apply quiet_keeps_no_memory | intros; exact I]. Qed.

Lemma store_keeps_no_memory key v :
  key <> "avg_memory_mb"%string -> sat keeps_no_memory any_exn (store key v).
Proof.
  intros Hk. apply sat_modify. intros s [H1 H2]. split; [exact H1|].
  simpl. rewrite lookup_insert_ne; [exact H2 | exact Hk].
Qed.

#[local] Hint Extern 1 (sat keeps_no_memory _ (store _ _)) =>
  apply store_keeps_no_memory; discriminate : sat_db.
#[local] Hint Extern 2 (sat keeps_no_memory any_exn _) =>
  apply quiet_as_no_memory; solve [auto with sat_db] : sat_db.

Ltac sat_no_memory := sat_go keeps_no_memory_refl keeps_no_memory_trans.

Lemma other_phases_keep_no_memory env fuel p :
  p <> Memory -> sat keeps_no_memory any_exn (run_phase env fuel p).
Proof.
  intros Hp. destruct p; [| contradiction | | |]; cbn [run_phase];
    sat_no_memory.
Qed.

Lemma triple_kept {A} (R : State -> State -> Prop) (P : State -> Prop)
    (m : M A) :
  sat R any_exn m -> (forall s s', R s s' -> P s -> P s') ->
  triple P m (fun _ => P) (fun _ => P).
Proof.
  intros Hm HR. eapply triple_frame with (R := R) (E := any_exn);
    [exact Hm | exact HR | intros e s s' _; apply HR].
Qed.

Lemma memory_loop_no_readings env range : forall readings,
  triple no_memory_figure (memory_loop env range readings)
    (fun r s => r = readings /\ no_memory_figure s)
    (fun _ => no_memory_figure).
Proof.
  intros readings s Hs.
  pose proof (memory_loop_no_psutil env range readings s (proj1 Hs)) as Hv.
  destruct (memory_loop_quiet env range readings s) as [Hq _].
  apply quiet_keeps_no_memory in Hq. specialize (Hq Hs).
  destruct (memory_loop env range readings s) as [[r|e|] s1]; simpl in *; auto.
Qed.

Lemma measure_memory_usage_keeps_no_memory env fuel :
  triple no_memory_figure (measure_memory_usage env fuel)
         (fun _ => no_memory_figure) (fun _ => no_memory_figure).
Proof.
  unfold measure_memory_usage.
  eapply triple_bind with (Q := fun _ => no_memory_figure).
  { apply (triple_kept quiet); [apply log_test_quiet | apply quiet_keeps_no_memory]. }
  intros u.
  eapply triple_try_finally
    with (Q := fun _ => no_memory_figure) (X := fun _ => no_memory_figure).
  - unfold memory_body.
    eapply triple_bind with (Q := fun _ => no_memory_figure).
    { apply (triple_kept quiet);
        [apply start_filter_quiet | apply quiet_keeps_no_memory]. }
    intros u1.
    eapply triple_bind with (Q := fun _ => no_memory_figure).
    { apply (triple_kept quiet);
        [auto with sat_db | apply quiet_keeps_no_memory]. }
    intros u2.
    eapply triple_bind; [apply memory_loop_no_readings | intros r].
    intros s [-> Hs]. simpl. exact Hs.
  - intros a. apply (triple_kept quiet);
      [apply stop_filter_quiet | apply quiet_keeps_no_memory].
  - intros e. apply (triple_kept quiet);
      [apply stop_filter_quiet | apply quiet_keeps_no_memory].
Qed.

Lemma phase_eq_Memory (p : phase) : p = Memory \/ p <> Memory.
Proof. destruct p; (now left) || (right; discriminate). Qed.

Lemma run_phase_keeps_no_memory env fuel p :
  triple no_memory_figure (run_phase env fuel p)
         (fun _ => no_memory_figure) (fun _ => no_memory_figure).
Proof.
  destruct (phase_eq_Memory p) as [->|Hp].
  - apply measure_memory_usage_keeps_no_memory.
  - apply (triple_kept keeps_no_memory);
      [now apply other_phases_keep_no_memory | auto].
Qed.

Lemma run_all_tests_keeps_no_memory env fuel :
  triple no_memory_figure (run_all_tests env fuel)
         (fun _ => no_memory_figure) (fun _ => no_memory_figure).
Proof.
  unfold run_all_tests.
  eapply triple_bind with (Q := fun _ => no_memory_figure).
  { apply (triple_kept quiet);
      [apply preflight_quiet | apply quiet_keeps_no_memory]. }
  intros ok. destruct ok; simpl.
  - eapply triple_try_except with (X := fun _ => no_memory_figure).
    + rewrite run_body_run_list. cbn [phases_from run_list].
      eapply triple_bind; [apply run_phase_keeps_no_memory | intros u1].
      eapply triple_bind; [apply run_phase_keeps_no_memory | intros u2].
      eapply triple_bind; [apply run_phase_keeps_no_memory | intros u3].
      eapply triple_bind; [apply run_phase_keeps_no_memory | intros u4].
      eapply triple_bind; [apply run_phase_keeps_no_memory | intros u5].
      eapply triple_bind with (Q := fun _ => no_memory_figure).
      { apply (triple_kept quiet);
          [apply generate_report_quiet | apply quiet_keeps_no_memory]. }
      intros r s H. exact H.
    + intros e _. apply (triple_kept quiet); [|apply quiet_keeps_no_memory].
      unfold run_handler. sat_quiet.
    + intros e s _ H. exact H.
  - intros s H. exact H.
Qed.

Lemma score_without_memory (d : gmap string Q) :
  d !! "avg_memory_mb" = None ->
  fst (calculate_performance_grade d) <= 80
  /\ snd (calculate_performance_grade d) <> GradeAplus.
Proof.
  intros H. rewrite calculate_grade_spec. cbn [fst snd].
  assert (Hm : contribution MMemory d = 0).
  { unfold contribution. cbn [metric_key]. now rewrite H. }
  pose proof (contribution_range MStartup d) as H1.
  pose proof (contribution_range MThroughput d) as H3.
  pose proof (contribution_range MAccuracy d) as H4.
  pose proof (contribution_range MConcurrency d) as H5.
  cbn [metric_points] in H1, H3, H4, H5.
  assert (Hs : spec_score d <= 80) by (unfold spec_score; lia).
  split; [exact Hs|].
  unfold grade_of_score.
  destruct (Z.leb_spec 90 (spec_score d)); [lia|].
  destruct (80 <=? spec_score d), (70 <=? spec_score d),
           (60 <=? spec_score d), (50 <=? spec_score d); discriminate.
Qed.

(** X14.  Without psutil no memory figure is ever filed, whether the
    program ends with an exit code or an exception, so the 20 points of
    the memory criterion are out of reach: the score of the results is at
    most 80 and the grade is never A+. *)
Theorem no_psutil_caps_grade :
  forall (env : Env) (fuel : nat) (cl : command_line) (t0 : Q)
         (r : result Z) (s' : State),
    import_found env "psutil" = false ->
    program env fuel cl t0 = Some (r, s') ->
    r <> OutOfFuel ->
    test_results s' !! "avg_memory_mb" = None
    /\ fst (calculate_performance_grade (test_results s')) <= 80
    /\ snd (calculate_performance_grade (test_results s')) <> GradeAplus.
Proof.
  intros env fuel cl t0 r s' Hps Hprog Hend.
  assert (Hfinal : no_memory_figure s').
  { unfold program in Hprog.
    destruct (module_level env (boot t0)) as [w| |] eqn:Ew; try discriminate Hprog.
    assert (Hw : HAS_PSUTIL w = false).
    { unfold module_level in Ew.
      destruct (import_world (import_found env) "requests" (boot t0))
        as [w1|] eqn:E1; [|discriminate Ew].
      assert (Hmods : sys_modules w1 = ["requests"%string]).
      { unfold import_world in E1. cbn -[String.eqb] in E1.
        destruct (import_found env "requests"); [|discriminate E1].
        injection E1 as <-. reflexivity. }
      unfold import_world in Ew. rewrite Hmods, Hps in Ew.
      cbn in Ew. injection Ew as <-. reflexivity. }
    injection Hprog as Hmain. unfold main in Hmain.
    set (tester := FilterPerformanceTest _ _ _ w) in Hmain.
    pose proof (run_all_tests_keeps_no_memory env fuel tester
                  (conj Hw (lookup_empty _))) as Hrun.
    destruct (run_all_tests env fuel tester) as [[b|e|] s1];
      injection Hmain as Hr <-; [exact Hrun | exact Hrun |].
    now destruct Hend. }
  destruct Hfinal as [_ Hnone]. split; [exact Hnone|].
  now apply score_without_memory.
Qed.

Lemma no_psutil_caps_grade_witness :
  test_results
    (snd (main env_no_psutil 5 (mkCommandLine (Some 2) None None)
            (mkWorld false ["requests"%string] 0%Q O O [])))
    !! "avg_memory_mb" = None
  /\ fst (calculate_performance_grade
            (test_results
               (snd (main env_no_psutil 5 (mkCommandLine (Some 2) None None)
                       (mkWorld false ["requests"%string] 0%Q O O [])))))
     <= 80
  /\ snd (calculate_performance_grade
            (test_results
               (snd (main env_no_psutil 5 (mkCommandLine (Some 2) None None)
                       (mkWorld false ["requests"%string] 0%Q O O [])))))
     <> GradeAplus.
Proof.
  apply (no_psutil_caps_grade env_no_psutil 5 (mkCommandLine (Some 2) None None) 0%Q
           (fst (main env_no_psutil 5 (mkCommandLine (Some 2) None None)
                   (mkWorld false ["requests"%string] 0%Q O O [])))).
  - reflexivity.
  - vm_compute. reflexivity.
  - vm_compute. discriminate.
Defined.

(** ** Starting and stopping the filter *)

Lemma wait_listening_frame env n start_time max_wait s :
  filter_process (snd (wait_listening env n start_time max_wait s))
  = filter_process s
  /\ trace (world (snd (wait_listening env n start_time max_wait s)))
     = trace (world s).
Proof.
  destruct (wait_listening_clock env n start_time max_wait s) as [H _].
  apply only_clock_same_proc in H. destruct H as [Ht Hp]. split; assumption.
Qed.

(** The polling loop gives up only once a clock reading is [max_wait]
    past the start. *)
Lemma wait_listening_gives_up env n start_time max_wait : forall s s',
  wait_listening env n start_time max_wait s = (Raise RuntimeError, s') ->
  (max_wait <= now (world s') - start_time)%Q.
Proof.
  induction n as [|n IH]; intros s s' H.
  - discriminate H.
  - cbn [wait_listening] in H.
    set (rec := wait_listening env n start_time max_wait) in *.
    unfold time_time, get_ready, time_sleep, blocking, interact, bind, gets,
      modify, ret, raise in H. simpl in H.
    destruct (Qlt_bool _ max_wait) eqn:Elt.
    + destruct (ready_resp env _ && negb (interrupted env _)); [discriminate H|].
      destruct (interrupted env _); [discriminate H|].
      apply IH in H. exact H.
    + apply (f_equal snd) in H. cbn [snd] in H. subst s'. simpl.
      apply Qnot_lt_le. intros Hlt. apply Qlt_bool_iff in Hlt.
      simpl in Elt. congruence.
Qed.

(** X15.  The outcomes of [start_filter].  When it returns, or gives up
    with [RuntimeError], exactly one process has been started and the
    object holds it; it gives up only after the clock has advanced at
    least 10 seconds (clock readings never going backwards).  With
    [FileNotFoundError] or [OSError] no process was started and the handle
    is as it was.  It raises nothing but these three and
    [KeyboardInterrupt]. *)
Theorem start_filter_outcomes :
  forall (env : Env) (fuel : nat) (s s' : State) (r : result unit),
    start_filter env fuel s = (r, s') ->
    (r = Ok tt \/ r = Raise RuntimeError ->
       exists h, filter_process s' = Some h
                 /\ trace (world s') = trace (world s) ++ [EvPopen h])
    /\ (r = Raise RuntimeError -> (forall i, 0 <= cost env i)%Q ->
          (10 <= now (world s') - now (world s))%Q)
    /\ (r = Raise FileNotFoundError \/ r = Raise OSError ->
          filter_process s' = filter_process s
          /\ trace (world s') = trace (world s))
    /\ (forall e, r = Raise e -> start_errors e).
Proof.
  intros env fuel s s' r Hrun.
  assert (Herr : forall e, r = Raise e -> start_errors e).
  { intros e ->. destruct (start_filter_self env fuel s) as [_ He].
    apply He. now rewrite Hrun. }
  unfold start_filter, find_filter_executable, Popen, time_time, interact,
    bind, gets, modify, ret, raise in Hrun. simpl in Hrun.
  destruct (exe_found env (step (world s))) as [exe|].
  2:{ injection Hrun as <- <-. repeat split; auto.
      - intros [H|H]; discriminate H.
      - intros H; discriminate H. }
  simpl in Hrun. destruct (popen_ok env _); simpl in Hrun.
  2:{ injection Hrun as <- <-. repeat split; auto.
      - intros [H|H]; discriminate H.
      - intros H; discriminate H. }
  match type of Hrun with
  | wait_listening env fuel ?t ?m ?st = _ =>
      pose proof (wait_listening_frame env fuel t m st) as [Hp Ht];
      pose proof (wait_listening_gives_up env fuel t m st s') as Hgive;
      pose proof (proj2 (wait_listening_clock env fuel t m st)) as He
  end.
  rewrite Hrun in Hp, Ht. simpl in Hp, Ht.
  split; [|split; [|split]].
  - intros _. exists (next_handle (world s)). split; assumption.
  - intros -> Hcost. specialize (Hgive Hrun).
    pose proof (Hcost (step (world s))) as H0.
    pose proof (Hcost (S (step (world s)))) as H1.
    pose proof (Hcost (S (S (step (world s))))) as H2.
    lra.
  - intros Hr. rewrite Hrun in He.
    destruct Hr as [->| ->]; destruct (He _ eq_refl) as [H|H]; discriminate H.
  - exact Herr.
Qed.

Lemma start_filter_outcomes_witness :
  exists h,
    filter_process (snd (start_filter env_coarse_clock 1 tester0)) = Some h
    /\ trace (world (snd (start_filter env_coarse_clock 1 tester0)))
       = trace (world tester0) ++ [EvPopen h].
Proof.
  refine (proj1 (start_filter_outcomes env_coarse_clock 1 tester0
                   (snd (start_filter env_coarse_clock 1 tester0))
                   (fst (start_filter env_coarse_clock 1 tester0)) _) _).
  - apply surjective_pairing.
  - left. vm_compute. reflexivity.
Defined.

(** X16.  [stop_filter] on a held process always clears the handle and
    touches neither results nor log; it sends [terminate] once, and [kill]
    after it exactly when the five-second wait timed out; the only
    exception it can raise is [KeyboardInterrupt], from one of its waits,
    and with no interrupt it returns normally. *)
Theorem stop_filter_escalation :
  forall (env : Env) (h : handle) (s : State),
    filter_process s = Some h ->
    let r := stop_filter env s in
    let i := S (step (world s)) in
    filter_process (snd r) = None
    /\ test_results (snd r) = test_results s
    /\ test_log (snd r) = test_log s
    /\ trace (world (snd r))
       = trace (world s)
         ++ (if interrupted env i then [EvTerminate h]
             else if wait_exits env i then [EvTerminate h]
             else [EvTerminate h; EvKill h])
    /\ (fst r = Ok tt \/ fst r = Raise KeyboardInterrupt)
    /\ ((forall j, interrupted env j = false) -> fst r = Ok tt).
Proof.
  intros env h s Hp. cbv zeta.
  unfold stop_filter, bind, gets at 1. simpl. rewrite Hp.
  unfold try_finally, terminate_and_wait, process_terminate,
    process_wait_timeout, process_kill, process_wait, emit, blocking,
    interact, bind, gets, modify, ret, raise; simpl.
  destruct (interrupted env (S (step (world s)))) eqn:E1; simpl.
  - repeat split; auto. intros H. rewrite H in E1. discriminate E1.
  - destruct (wait_exits env (S (step (world s)))); simpl.
    + repeat split; auto.
    + destruct (interrupted env (S (S (S (step (world s)))))) eqn:E3; simpl.
      * repeat split; auto; [now rewrite <- app_assoc|].
        intros H. rewrite H in E3. discriminate E3.
      * repeat split; auto. now rewrite <- app_assoc.
Qed.

Lemma stop_filter_escalation_witness :
  filter_process
    (snd (stop_filter env_coarse_clock
            (snd (start_filter env_coarse_clock 1 tester0)))) = None.
Proof.
  refine (proj1 (stop_filter_escalation env_coarse_clock 0%nat
                   (snd (start_filter env_coarse_clock 1 tester0)) _)).
  vm_compute. reflexivity.
Defined.
